(** * BIApp: query builder, chart utilities and the pipeline engine contract

    A shallow embedding of the TypeScript front end (filter builder, query
    builder handlers, chart utilities) together with a model of the
    pipeline/query execution engine the specification describes.

    Conventions.
    - JavaScript numbers are IEEE binary64 values: [float].
    - A JavaScript string is a [string]; the case mapping and the keyword
      test only look at ASCII letters, which no multi-byte character
      produces inside a keyword match.
    - [null] of a [T | null] field is [None].
    - A plain object used as a dictionary ([Record<string, any>]) is a
      [gmap string jsval]; a missing property reads as [JUndefined].
    - Arrays that are shared by reference live in a store ([gmap loc _]). *)

From Stdlib Require Import Ascii PrimFloat QArith Lqa.
From stdpp Require Import gmap strings list sorting pretty relations.

Local Open Scope string_scope.

(** ** JavaScript values and coercions *)

Module Js.

Inductive jsval :=
| JNull
| JUndefined
| JBool (b : bool)
| JNum (x : float)
| JStr (s : string)
| JObj.

(** ToBoolean. *)
Definition truthy (v : jsval) : bool :=
  match v with
  | JNull | JUndefined => false
  | JBool b => b
  | JNum x => negb (PrimFloat.eqb x 0%float || PrimFloat.is_nan x)
  | JStr s => negb (String.eqb s "")
  | JObj => true
  end.

(** [a || b]. *)
Definition or_else (a b : jsval) : jsval := if truthy a then a else b.

(** Truthiness of a [string | null] (or [string | undefined]) field. *)
Definition truthy_str (o : option string) : bool :=
  match o with
  | Some s => negb (String.eqb s "")
  | None => false
  end.

(** [typeof v === 'number']. *)
Definition typeof_number (v : jsval) : bool :=
  match v with JNum _ => true | _ => false end.

(** Property read [row[key]] on a dictionary object. *)
Definition get (row : gmap string jsval) (key : string) : jsval :=
  default JUndefined (row !! key).

(** The property key a [string | null] expression denotes: [row[null]]
    reads the property named "null". *)
Definition property_key (o : option string) : string := default "null" o.

Definition lower_ascii (c : ascii) : ascii :=
  let n := nat_of_ascii c in
  if (65 <=? n)%nat && (n <=? 90)%nat then ascii_of_nat (n + 32) else c.

(** [String.prototype.toLowerCase]. *)
Fixpoint toLowerCase (s : string) : string :=
  match s with
  | EmptyString => EmptyString
  | String c rest => String (lower_ascii c) (toLowerCase rest)
  end.

(** [haystack] has [needle] as a contiguous substring. *)
Fixpoint has_substring (needle haystack : string) : bool :=
  String.prefix needle haystack ||
  match haystack with
  | EmptyString => false
  | String _ rest => has_substring needle rest
  end.

(** [Array.prototype.includes] on an array of strings. *)
Definition includes (xs : list string) (x : string) : bool :=
  existsb (String.eqb x) xs.

(** The built-ins whose results the program only passes along:
    Number::toString, StringToNumber and String.prototype.localeCompare. *)
Record Runtime := {
  NumberToString : float -> string;
  StringToNumber : string -> float;
  localeCompare : string -> string -> float
}.

(** [String(v)]. *)
Definition String_ (rt : Runtime) (v : jsval) : string :=
  match v with
  | JNull => "null"
  | JUndefined => "undefined"
  | JBool true => "true"
  | JBool false => "false"
  | JNum x => NumberToString rt x
  | JStr s => s
  | JObj => "[object Object]"
  end.

(** [Number(v)]. *)
Definition Number_ (rt : Runtime) (v : jsval) : float :=
  match v with
  | JNull => 0%float
  | JUndefined => PrimFloat.nan
  | JBool true => 1%float
  | JBool false => 0%float
  | JNum x => x
  | JStr s => StringToNumber rt s
  | JObj => PrimFloat.nan
  end.

(** *** Facts about the coercions *)

Lemma string_eqb_true (a b : string) : String.eqb a b = true <-> a = b.
Proof. apply String.eqb_eq. Qed.

Lemma includes_spec (cols : list string) (c : string) :
  includes cols c = true <-> c ∈ cols.
Proof.
  unfold includes. rewrite existsb_exists. split.
  - intros (x & Hin & Heq). apply String.eqb_eq in Heq. subst x.
    by apply list_elem_of_In.
  - intros Hin. exists c. split; [by apply list_elem_of_In | apply String.eqb_refl].
Qed.

Lemma includes_false (cols : list string) (c : string) :
  includes cols c = false <-> c ∉ cols.
Proof.
  rewrite <- includes_spec. destruct (includes cols c); split; congruence.
Qed.

Lemma truthy_str_spec (o : option string) :
  truthy_str o = true <-> exists s, o = Some s /\ s <> "".
Proof.
  destruct o as [s|]; simpl.
  - destruct (String.eqb s "") eqn:E; simpl.
    + apply String.eqb_eq in E. split; [discriminate |].
      intros (s' & [= <-] & Hne). contradiction.
    + apply String.eqb_neq in E. split; [eauto | done].
  - split; [discriminate | intros (s & [=] & _)].
Qed.

Lemma truthy_str_false (o : option string) :
  truthy_str o = false <-> o = None \/ o = Some "".
Proof.
  destruct o as [s|]; simpl.
  - destruct (String.eqb s "") eqn:E; simpl.
    + apply String.eqb_eq in E. subst. split; auto.
    + apply String.eqb_neq in E. split; [discriminate |].
      intros [[=] | [= ->]]. contradiction.
  - split; auto.
Qed.

End Js.

(** ** Types of the query builder (types/queryBuilder.ts, types/semantic.ts) *)

Module Types.

Inductive DataType := DString | DInteger | DDate | DBoolean | DDecimal.

Record SemanticDimension := {
  dim_id : string;
  dim_name : string;
  dim_sql_column : string;
  data_type : DataType
}.

(** [FilterCondition]; the operator is the string that travels to the API. *)
Record FilterCondition := {
  fc_dimension_id : string;
  fc_operator : string;
  fc_value : Js.jsval
}.

Record QueryRequest := {
  entity_id : string;
  dimension_ids : list string;
  measure_ids : list string;
  filters : list FilterCondition;
  limit : Z
}.

Record QueryResponse := {
  columns : list string;
  data : list (gmap string Js.jsval);
  row_count : Z;
  generated_sql : string;
  entity_name : string
}.

Inductive ChartType := Bar | Line | Area | Pie.
Inductive SortOrder := SortNone | Ascending | Descending.
Inductive SortBy := ByCategory | ByValue.
Inductive ColorMode := Conditional | Single.
Inductive ColorCondition := Positive | Negative | Zero.

Record ConditionalColorRule := {
  condition : ColorCondition;
  color : string
}.

(** [ChartConfiguration] as chartUtils.ts and the configuration panels use
    it: the four trailing fields are optional. *)
Record ChartConfiguration := {
  chart_type : ChartType;
  x_axis_column : option string;
  y_axis_columns : list string;
  category_column : option string;
  value_column : option string;
  sort_order : option SortOrder;
  sort_by : option SortBy;
  color_mode : option ColorMode;
  conditional_colors : option (list ConditionalColorRule)
}.

Definition chart_type_literal (t : ChartType) : string :=
  match t with Bar => "bar" | Line => "line" | Area => "area" | Pie => "pie" end.

Definition sort_order_literal (o : SortOrder) : string :=
  match o with
  | SortNone => "none" | Ascending => "ascending" | Descending => "descending"
  end.

Definition sort_by_literal (b : SortBy) : string :=
  match b with ByCategory => "category" | ByValue => "value" end.

End Types.

(** ** Chart utilities (features/query-builder/utils/chartUtils.ts) *)

Module ChartUtils.
Import Js Types.

Definition measure_keywords : list string :=
  ["sum"; "avg"; "count"; "min"; "max"; "total"; "amount"; "revenue";
   "quantity"; "median"; "stddev"].

(** [/(sum|avg|...|stddev)/i.test(s)]: some keyword occurs in [s],
    letter case ignored. *)
Definition measure_pattern_test (s : string) : bool :=
  existsb (fun kw => has_substring kw (toLowerCase s)) measure_keywords.

Definition is_dimension_column (col : string) : bool :=
  negb (measure_pattern_test (toLowerCase col)).

Definition is_measure_column (response : QueryResponse) (col : string) : bool :=
  measure_pattern_test (toLowerCase col) ||
  ((0 <? length (data response))%nat &&
   match data response with
   | row :: _ => typeof_number (get row col)
   | [] => false
   end).

Definition default_conditional_colors : list ConditionalColorRule :=
  [ {| condition := Positive; color := "#5470c6" |};
    {| condition := Negative; color := "#ee6666" |};
    {| condition := Zero; color := "#91cc75" |} ].

(** [finalDimensions]: an array whose elements may be [undefined]
    ([response.columns[0]] of an empty column list). *)
Definition finalDimensions (response : QueryResponse) : list (option string) :=
  let dimensions := filter (fun col => is_dimension_column col = true) (columns response) in
  if (0 <? length dimensions)%nat then Some <$> dimensions
  else [head (columns response)].

Definition finalMeasures (response : QueryResponse) : list string :=
  let measures := filter (fun col => is_measure_column response col = true) (columns response) in
  if (0 <? length measures)%nat then measures else drop 1 (columns response).

(** [xs[0] || null] on an array of [string | undefined]. *)
Definition first_or_null (xs : list (option string)) : option string :=
  match xs with
  | Some s :: _ => if truthy_str (Some s) then Some s else None
  | _ => None
  end.

Definition inferChartConfig (response : QueryResponse) : ChartConfiguration :=
  {| chart_type := Bar;
     x_axis_column := first_or_null (finalDimensions response);
     y_axis_columns :=
       if (0 <? length (finalMeasures response))%nat then finalMeasures response else [];
     category_column := None;
     value_column := None;
     sort_order := Some SortNone;
     sort_by := Some ByCategory;
     color_mode := Some Conditional;
     conditional_colors := Some default_conditional_colors |}.

(** The earlier revision of [inferChartConfig] (same heuristics, a
    configuration without the sorting and colour fields). *)
Definition inferChartConfig_v1 (response : QueryResponse) : ChartConfiguration :=
  {| chart_type := Bar;
     x_axis_column := first_or_null (finalDimensions response);
     y_axis_columns :=
       if (0 <? length (finalMeasures response))%nat then finalMeasures response else [];
     category_column := None;
     value_column := None;
     sort_order := None;
     sort_by := None;
     color_mode := None;
     conditional_colors := None |}.

(** *** Sorting *)

(** The comparator [sortData] hands to [Array.prototype.sort]. *)
Definition sort_comparator (rt : Runtime) (xColumn : string) (yColumns : list string)
    (sortOrder sortBy : string) (a b : gmap string jsval) : float :=
  let primaryYColumn := default "undefined" (head yColumns) in
  let compareValue :=
    if String.eqb sortBy "category" then
      let aVal := String_ rt (or_else (get a xColumn) (JStr "")) in
      let bVal := String_ rt (or_else (get b xColumn) (JStr "")) in
      localeCompare rt aVal bVal
    else
      let aVal := Number_ rt (or_else (get a primaryYColumn) (JNum 0%float)) in
      let bVal := Number_ rt (or_else (get b primaryYColumn) (JNum 0%float)) in
      PrimFloat.sub aVal bVal in
  if String.eqb sortOrder "ascending" then compareValue else PrimFloat.opp compareValue.

(** [Array.prototype.sort(cmp)] on an array without holes: a stable sort in
    which [x] goes after [y] only when [cmp x y > 0] (a [NaN] result counts
    as 0). *)
Fixpoint sort_insert {A} (cmp : A -> A -> float) (x : A) (l : list A) : list A :=
  match l with
  | [] => [x]
  | y :: l' =>
      if PrimFloat.ltb 0%float (cmp x y) then y :: sort_insert cmp x l'
      else x :: y :: l'
  end.

Fixpoint array_sort {A} (cmp : A -> A -> float) (l : list A) : list A :=
  match l with
  | [] => []
  | x :: l' => sort_insert cmp x (array_sort cmp l')
  end.

(** The contents of the array [sortData] returns. *)
Definition sortData (rt : Runtime) (data : list (gmap string jsval)) (xColumn : string)
    (yColumns : list string) (sortOrder sortBy : string) : list (gmap string jsval) :=
  if String.eqb sortOrder "none" then data
  else array_sort (sort_comparator rt xColumn yColumns sortOrder sortBy) data.

(** [sortData] on array references.  The store maps a reference to the
    array's contents; [[...data]] allocates a fresh array and [sort] updates
    that array in place.  The result is the returned reference and the
    store afterwards; reading an unallocated reference is a failure. *)
Definition loc := positive.

Definition sortData_ref (rt : Runtime) (h : gmap loc (list (gmap string jsval)))
    (data : loc) (xColumn : string) (yColumns : list string)
    (sortOrder sortBy : string) : option (loc * gmap loc (list (gmap string jsval))) :=
  if String.eqb sortOrder "none" then Some (data, h)
  else
    contents ← h !! data;
    let sorted := fresh (dom h) in
    let h1 := <[sorted := contents]> h in
    let h2 := <[sorted :=
      array_sort (sort_comparator rt xColumn yColumns sortOrder sortBy) contents]> h1 in
    Some (sorted, h2).

(** *** Building the ECharts option *)

(** [rules.find(r => r.condition === c)?.color]. *)
Definition rule_color (c : ColorCondition) (rules : list ConditionalColorRule) : option string :=
  color <$> List.find (fun r =>
    match condition r, c with
    | Positive, Positive | Negative, Negative | Zero, Zero => true
    | _, _ => false
    end) rules.

Definition getConditionalColor (value : float) (rules : option (list ConditionalColorRule))
    : option string :=
  let rules := default [] rules in
  if PrimFloat.ltb 0%float value then rule_color Positive rules
  else if PrimFloat.ltb value 0%float then rule_color Negative rules
  else rule_color Zero rules.

Record PieDatum := { pd_name : string; pd_value : float }.

Record AxisSeries := {
  s_name : string;
  s_type : string;
  s_data : list float;
  s_areaStyle : bool;
  s_smooth : bool;
  s_itemStyle_color : option (float -> string)
}.

(** The data-dependent part of the option object; the constant styling
    entries (legend position, grid, radius, label formatters) are left out. *)
Inductive EChartsOption :=
| PieOption (series_name : string) (series_data : list PieDatum)
| AxisOption (axisPointer_type : string) (legend_data : list string)
    (xAxis_data : list string) (axisLabel_rotate : Z) (xAxis_name : string)
    (nameGap : Z) (series : list AxisSeries).

Definition transformDataForECharts (rt : Runtime) (response : QueryResponse)
    (config : ChartConfiguration) (chartType : ChartType) : EChartsOption :=
  match chartType with
  | Pie =>
      PieOption
        (if truthy_str (category_column config)
         then property_key (category_column config) else "Category")
        ((fun row =>
            {| pd_name := String_ rt
                 (or_else (get row (property_key (category_column config))) (JStr ""));
               pd_value := Number_ rt
                 (or_else (get row (property_key (value_column config))) (JNum 0%float)) |})
         <$> data response)
  | _ =>
      let sortedData :=
        sortData rt (data response) (property_key (x_axis_column config))
          (y_axis_columns config)
          (sort_order_literal (default SortNone (sort_order config)))
          (sort_by_literal (default ByCategory (sort_by config))) in
      let xAxisData :=
        (fun row => String_ rt
           (or_else (get row (property_key (x_axis_column config))) (JStr "")))
        <$> sortedData in
      let useConditionalColors :=
        match color_mode config, chartType with
        | Some Conditional, Bar => (length (y_axis_columns config) =? 1)%nat
        | _, _ => false
        end in
      AxisOption
        (match chartType with Bar => "shadow" | _ => "cross" end)
        (y_axis_columns config)
        xAxisData
        (if (10 <? length xAxisData)%nat then 45 else 0)
        (if truthy_str (x_axis_column config)
         then property_key (x_axis_column config) else "")
        (if (10 <? length xAxisData)%nat then 50 else 30)
        ((fun col =>
            {| s_name := col;
               s_type := match chartType with
                         | Area => "line"
                         | t => chart_type_literal t
                         end;
               s_data := (fun row => Number_ rt (or_else (get row col) (JNum 0%float)))
                         <$> sortedData;
               s_areaStyle := match chartType with Area => true | _ => false end;
               s_smooth := match chartType with Line | Area => true | _ => false end;
               s_itemStyle_color :=
                 if useConditionalColors then
                   Some (fun value =>
                     let c := getConditionalColor value (conditional_colors config) in
                     if truthy_str c then property_key c else "#5470c6")
                 else None |})
         <$> y_axis_columns config)
  end.

(** *** Validation *)

Definition dquote : string := String (ascii_of_nat 34) EmptyString.

(** The first Y-axis column the [for] loop finds missing from [columns]. *)
Definition first_missing (columns ys : list string) : option string :=
  List.find (fun col => negb (includes columns col)) ys.

(** Returns the error message, or [None] for [null]. *)
Definition validateChartConfig (config : ChartConfiguration) (columns : list string)
    : option string :=
  match chart_type config with
  | Pie =>
      if negb (truthy_str (category_column config)) || negb (truthy_str (value_column config))
      then Some "Pie charts require both a category column and a value column"
      else if negb (includes columns (property_key (category_column config)))
      then Some ("Category column " +:+ dquote +:+ property_key (category_column config)
                 +:+ dquote +:+ " not found in results")
      else if negb (includes columns (property_key (value_column config)))
      then Some ("Value column " +:+ dquote +:+ property_key (value_column config)
                 +:+ dquote +:+ " not found in results")
      else None
  | _ =>
      if negb (truthy_str (x_axis_column config))
      then Some "X-axis column is required"
      else if negb (includes columns (property_key (x_axis_column config)))
      then Some ("X-axis column " +:+ dquote +:+ property_key (x_axis_column config)
                 +:+ dquote +:+ " not found in results")
      else if (length (y_axis_columns config) =? 0)%nat
      then Some "At least one Y-axis column is required"
      else match first_missing columns (y_axis_columns config) with
           | Some col =>
               Some ("Y-axis column " +:+ dquote +:+ col +:+ dquote
                     +:+ " not found in results")
           | None => None
           end
  end.

(** *** ChartVisualization: the two memoised values of the component *)

Definition validationError (response : QueryResponse) (config : ChartConfiguration)
    : option string :=
  validateChartConfig config (columns response).

(** [if (validationError) return null; return transformDataForECharts(...)]. *)
Definition chartOption (rt : Runtime) (response : QueryResponse)
    (config : ChartConfiguration) (chartType : ChartType) : option EChartsOption :=
  if truthy_str (validationError response config) then None
  else Some (transformDataForECharts rt response config chartType).

(** *** The claims' readings, in the specification's words *)

(** The column the heuristic is described to select: the first column not
    matching the measure-keyword pattern, or the first column when every
    column matches. *)
Definition described_x_axis (cols : list string) : option string :=
  match List.find is_dimension_column cols with
  | Some c => Some c
  | None => head cols
  end.

(** A configuration that is well-formed over [columns], selected columns
    being required to be non-null only. *)
Definition well_formed_nonnull (config : ChartConfiguration) (columns : list string) : Prop :=
  match chart_type config with
  | Pie =>
      (exists c, category_column config = Some c /\ c ∈ columns) /\
      (exists v, value_column config = Some v /\ v ∈ columns)
  | _ =>
      (exists x, x_axis_column config = Some x /\ x ∈ columns) /\
      y_axis_columns config <> [] /\
      Forall (fun y => y ∈ columns) (y_axis_columns config)
  end.

(** Well-formedness as the code decides it: a selected column is a
    non-empty string. *)
Definition well_formed (config : ChartConfiguration) (columns : list string) : Prop :=
  match chart_type config with
  | Pie =>
      (exists c, category_column config = Some c /\ c <> "" /\ c ∈ columns) /\
      (exists v, value_column config = Some v /\ v <> "" /\ v ∈ columns)
  | _ =>
      (exists x, x_axis_column config = Some x /\ x <> "" /\ x ∈ columns) /\
      y_axis_columns config <> [] /\
      Forall (fun y => y ∈ columns) (y_axis_columns config)
  end.

(** *** Example data *)

Definition example_runtime : Runtime :=
  {| NumberToString := fun _ => "0";
     StringToNumber := fun _ => PrimFloat.nan;
     localeCompare := fun a b =>
       match String.compare a b with
       | Lt => (-1)%float | Eq => 0%float | Gt => 1%float
       end |}.

Definition example_rows : list (gmap string jsval) :=
  [ {[ "region" := JStr "South"; "total_sales" := JNum 50%float ]};
    {[ "region" := JStr "North"; "total_sales" := JNum 150%float ]} ].

Definition example_response : QueryResponse :=
  {| columns := ["region"; "total_sales"];
     data := example_rows;
     row_count := 2;
     generated_sql := "SELECT region, SUM(sales) AS total_sales FROM orders GROUP BY region";
     entity_name := "Order" |}.

(** A response whose only column has the empty name. *)
Definition unnamed_column_response : QueryResponse :=
  {| columns := [""]; data := []; row_count := 0;
     generated_sql := ""; entity_name := "" |}.

Definition unnamed_pie_config : ChartConfiguration :=
  {| chart_type := Pie; x_axis_column := None; y_axis_columns := [];
     category_column := Some ""; value_column := Some "";
     sort_order := None; sort_by := None; color_mode := None;
     conditional_colors := None |}.

(** *** Facts about the chart utilities *)

Lemma head_filter_find (f : string -> bool) (l : list string) :
  head (filter (fun c => f c = true) l) = List.find f l.
Proof.
  induction l as [|x l IH]; [done |].
  rewrite filter_cons. simpl. destruct (f x) eqn:E.
  - rewrite decide_True by done. done.
  - rewrite decide_False by congruence. done.
Qed.

Lemma find_elem_of (f : string -> bool) (l : list string) (c : string) :
  List.find f l = Some c -> c ∈ l.
Proof. intros H. apply find_some in H as [H _]. by apply list_elem_of_In. Qed.

Lemma described_x_axis_elem (cols : list string) (c : string) :
  described_x_axis cols = Some c -> c ∈ cols.
Proof.
  unfold described_x_axis. destruct (List.find _ cols) eqn:E.
  - intros [= <-]. by eapply find_elem_of.
  - destruct cols; simpl; [discriminate | intros [= <-]; left].
Qed.

Lemma described_x_axis_nonempty (cols : list string) :
  cols <> [] -> exists c, described_x_axis cols = Some c.
Proof.
  unfold described_x_axis. destruct (List.find _ cols); [eauto |].
  destruct cols; [done | simpl; eauto].
Qed.

(** [finalDimensions[0]] is the described column whenever there is one. *)
Lemma first_or_null_finalDimensions (response : QueryResponse) :
  first_or_null (finalDimensions response) =
  match described_x_axis (columns response) with
  | Some c => if String.eqb c "" then None else Some c
  | None => None
  end.
Proof.
  unfold finalDimensions, described_x_axis.
  rewrite <- (head_filter_find is_dimension_column).
  destruct (filter _ (columns response)) as [|d ds]; simpl.
  - destruct (columns response) as [|c cs]; simpl; [done |].
    by destruct (String.eqb c "").
  - by destruct (String.eqb d "").
Qed.

Lemma sort_insert_perm {A} (cmp : A -> A -> float) (x : A) (l : list A) :
  sort_insert cmp x l ≡ₚ x :: l.
Proof.
  induction l as [|y l IH]; simpl; [done |].
  destruct (PrimFloat.ltb 0%float (cmp x y)); [| done].
  rewrite IH. apply Permutation_swap.
Qed.

Lemma array_sort_perm {A} (cmp : A -> A -> float) (l : list A) :
  array_sort cmp l ≡ₚ l.
Proof.
  induction l as [|x l IH]; simpl; [done |].
  rewrite sort_insert_perm. by constructor.
Qed.

Lemma sortData_none rt rows x ys sortBy : sortData rt rows x ys "none" sortBy = rows.
Proof. reflexivity. Qed.

Lemma sortData_perm rt rows x ys sortOrder sortBy :
  sortData rt rows x ys sortOrder sortBy ≡ₚ rows.
Proof.
  unfold sortData. destruct (String.eqb sortOrder "none"); [done |].
  apply array_sort_perm.
Qed.

(** The bar, line and area branch charts the rows [sortData] returns: the
    category axis lists the labels of a permutation of the response rows. *)
Lemma transformDataForECharts_axis rt response config chartType :
  chartType <> Pie ->
  exists pointer legend labels rotate axis_name gap series,
    transformDataForECharts rt response config chartType =
      AxisOption pointer legend labels rotate axis_name gap series /\
    labels ≡ₚ
      (fun row => String_ rt
         (or_else (get row (property_key (x_axis_column config))) (JStr "")))
      <$> data response.
Proof.
  intros Hpie. destruct chartType; [| | | done];
    (do 7 eexists; split; [reflexivity |]; by rewrite sortData_perm).
Qed.

(** *** Examples *)

Example infer_example :
  x_axis_column (inferChartConfig example_response) = Some "region" /\
  y_axis_columns (inferChartConfig example_response) = ["total_sales"].
Proof. split; vm_compute; reflexivity. Qed.

Example sort_example_by_value :
  sortData example_runtime example_rows "region" ["total_sales"] "descending" "value"
  = reverse example_rows.
Proof. vm_compute. reflexivity. Qed.

Example sort_example_by_category :
  sortData example_runtime example_rows "region" ["total_sales"] "ascending" "category"
  = reverse example_rows.
Proof. vm_compute. reflexivity. Qed.

(** *** Claims about the chart utilities *)

Lemma first_missing_none (columns ys : list string) :
  first_missing columns ys = None <-> Forall (fun y => y ∈ columns) ys.
Proof.
  unfold first_missing. induction ys as [|y ys IH]; simpl.
  - split; [constructor | done].
  - destruct (includes columns y) eqn:E; simpl.
    + apply includes_spec in E. rewrite IH. split.
      * by constructor.
      * by inversion 1.
    + apply includes_false in E. split; [discriminate |].
      inversion 1; subst. contradiction.
Qed.

Lemma validateChartConfig_wf (config : ChartConfiguration) (columns : list string) :
  validateChartConfig config columns = None <-> well_formed config columns.
Proof.
  unfold validateChartConfig, well_formed.
  assert (Hy : forall ys : list string, (length ys =? 0)%nat = false <-> ys <> []).
  { intros [|? ?]; simpl; split; congruence. }
  destruct (chart_type config).
  1-3:
    destruct (x_axis_column config) as [x|]; simpl;
    [ destruct (String.eqb x "") eqn:Ex; simpl;
      [ apply String.eqb_eq in Ex; subst x; split; [discriminate |];
        intros ((x & [= <-] & Hne & _) & _); contradiction
      | apply String.eqb_neq in Ex;
        destruct (includes columns x) eqn:Ei; simpl;
        [ apply includes_spec in Ei;
          destruct (length (y_axis_columns config) =? 0)%nat eqn:El;
          [ split; [discriminate |]; intros (_ & Hne & _);
            apply Hy in Hne; congruence
          | apply Hy in El;
            destruct (first_missing columns (y_axis_columns config)) eqn:Ef;
            [ split; [discriminate |]; intros (_ & _ & Hall);
              apply first_missing_none in Hall; congruence
            | apply first_missing_none in Ef; split; [| done];
              intros _; eauto 10 ] ]
        | apply includes_false in Ei; split; [discriminate |];
          intros ((x' & [= <-] & _ & Hin) & _); contradiction ] ]
    | split; [discriminate | intros ((x & [=] & _) & _)] ].
  destruct (category_column config) as [c|]; simpl.
  2: { split; [discriminate | intros ((c & [=] & _) & _)]. }
  destruct (String.eqb c "") eqn:Ec; simpl.
  { apply String.eqb_eq in Ec; subst c. split; [discriminate |].
    intros ((c & [= <-] & Hne & _) & _). contradiction. }
  apply String.eqb_neq in Ec.
  destruct (value_column config) as [v|]; simpl.
  2: { split; [discriminate | intros (_ & (v & [=] & _))]. }
  destruct (String.eqb v "") eqn:Ev; simpl.
  { apply String.eqb_eq in Ev; subst v. split; [discriminate |].
    intros (_ & (v & [= <-] & Hne & _)). contradiction. }
  apply String.eqb_neq in Ev.
  destruct (includes columns c) eqn:Eic; simpl.
  2: { apply includes_false in Eic. split; [discriminate |].
       intros ((c' & [= <-] & _ & Hin) & _). contradiction. }
  apply includes_spec in Eic.
  destruct (includes columns v) eqn:Eiv; simpl.
  2: { apply includes_false in Eiv. split; [discriminate |].
       intros (_ & (v' & [= <-] & _ & Hin)). contradiction. }
  apply includes_spec in Eiv. split; [| done]. intros _. eauto 10.
Qed.

(** Every message [validateChartConfig] returns is a non-empty string, so
    the truthiness test of the component is a test against [null]. *)
Lemma validateChartConfig_message (config : ChartConfiguration) (columns : list string) :
  truthy_str (validateChartConfig config columns) =
  match validateChartConfig config columns with Some _ => true | None => false end.
Proof.
  unfold validateChartConfig.
  destruct (chart_type config); simpl;
    repeat match goal with
           | |- context [if ?b then _ else _] =>
               match type of b with bool => destruct b; simpl; try reflexivity end
           | |- context [match first_missing ?a ?b with _ => _ end] =>
               destruct (first_missing a b); simpl; try reflexivity
           end.
Qed.

(** C8 (as amended): [validateChartConfig config columns] returns [null]
    exactly when the configuration is well-formed over [columns] -- for a
    pie chart both [category_column] and [value_column] are non-null,
    non-empty and members of [columns]; for every other chart type
    [x_axis_column] is non-null, non-empty and a member of [columns],
    [y_axis_columns] is non-empty and each of its elements is a member of
    [columns] -- otherwise it returns an error message, and
    ChartVisualization builds an ECharts option exactly when the result is
    [null]. *)
Theorem C8_validateChartConfig_iff_well_formed
    (rt : Runtime) (response : QueryResponse) (config : ChartConfiguration)
    (chartType : ChartType) (columns : list string) :
  (validateChartConfig config columns = None <-> well_formed config columns) /\
  (validateChartConfig config columns <> None <->
     exists msg, validateChartConfig config columns = Some msg /\ msg <> "") /\
  (is_Some (chartOption rt response config chartType) <->
     validateChartConfig config (Types.columns response) = None) /\
  (validateChartConfig config (Types.columns response) = None ->
     chartOption rt response config chartType =
     Some (transformDataForECharts rt response config chartType)).
Proof.
  split; [apply validateChartConfig_wf |].
  split.
  { pose proof (validateChartConfig_message config columns) as Hm.
    destruct (validateChartConfig config columns) as [msg|] eqn:E.
    - apply truthy_str_spec in Hm as (s & [= <-] & Hne).
      split; [eauto | done].
    - split; [done | intros (m & [=] & _)]. }
  unfold chartOption, validationError.
  rewrite validateChartConfig_message.
  destruct (validateChartConfig config (Types.columns response)); split.
  - split; [intros [? [=]] | discriminate].
  - discriminate.
  - split; eauto.
  - done.
Qed.

(** C8, counterexample to the claim as stated: a pie configuration whose
    category and value columns are non-null members of [columns] (the
    column named by the empty string) is still rejected. *)
Lemma C8_counterexample_empty_column_name :
  well_formed_nonnull unnamed_pie_config [""] /\
  validateChartConfig unnamed_pie_config [""] =
    Some "Pie charts require both a category column and a value column".
Proof.
  split; [| reflexivity].
  split; exists ""; (split; [reflexivity | apply list_elem_of_here]).
Qed.

(** C9 (as amended): for every QueryResponse whose columns list is
    non-empty, [inferChartConfig] (in both revisions) returns chart type
    'bar'; its [x_axis_column] is the first column not matching the
    measure-keyword pattern -- or the first column when every column
    matches -- when that column's name is non-empty, and [null] when that
    name is the empty string; so the inferred x-axis never names a column
    absent from the response. *)
Theorem C9_inferChartConfig_x_axis (response : QueryResponse) :
  columns response <> [] ->
  chart_type (inferChartConfig response) = Bar /\
  chart_type (inferChartConfig_v1 response) = Bar /\
  x_axis_column (inferChartConfig_v1 response) =
    x_axis_column (inferChartConfig response) /\
  (exists c, described_x_axis (columns response) = Some c /\
             c ∈ columns response /\
             x_axis_column (inferChartConfig response) =
               if String.eqb c "" then None else Some c) /\
  (forall x, x_axis_column (inferChartConfig response) = Some x ->
             x ∈ columns response).
Proof.
  intros Hne. do 3 (split; [reflexivity |]).
  simpl. rewrite first_or_null_finalDimensions.
  destruct (described_x_axis_nonempty _ Hne) as [c Hc]. rewrite Hc.
  pose proof (described_x_axis_elem _ _ Hc) as Hin.
  split; [eauto |].
  intros x. destruct (String.eqb c ""); [discriminate |].
  by intros [= <-].
Qed.

Lemma C9_witness_region_sales :
  columns example_response <> [] /\
  chart_type (inferChartConfig example_response) = Bar /\
  chart_type (inferChartConfig_v1 example_response) = Bar /\
  x_axis_column (inferChartConfig_v1 example_response) =
    x_axis_column (inferChartConfig example_response) /\
  (exists c, described_x_axis (columns example_response) = Some c /\
             c ∈ columns example_response /\
             x_axis_column (inferChartConfig example_response) =
               if String.eqb c "" then None else Some c) /\
  (forall x, x_axis_column (inferChartConfig example_response) = Some x ->
             x ∈ columns example_response).
Proof.
  split; [discriminate |].
  apply (C9_inferChartConfig_x_axis example_response). discriminate.
Defined.

(** C9, counterexample to the claim as stated: the column list is
    non-empty, the described column is the one named by the empty string,
    and the inferred [x_axis_column] is [null], not an element of the
    column list. *)
Lemma C9_counterexample_empty_column_name :
  columns unnamed_column_response = [""] /\
  described_x_axis (columns unnamed_column_response) = Some "" /\
  x_axis_column (inferChartConfig unnamed_column_response) = None.
Proof. repeat split. Qed.

(** C10: [sortData] returns its input array itself when the sort order is
    'none'; for any other sort order (in particular 'ascending' and
    'descending') it returns a newly allocated array whose contents are a
    permutation of the input rows, and the caller's array -- like every
    other array of the store -- is left as it was. *)
Theorem C10_sortData_permutation_of_copy
    (rt : Runtime) (h : gmap loc (list (gmap string jsval))) (data : loc)
    (rows : list (gmap string jsval)) (xColumn : string) (yColumns : list string)
    (sortOrder sortBy : string) :
  h !! data = Some rows ->
  (sortOrder = "none" ->
     sortData_ref rt h data xColumn yColumns sortOrder sortBy = Some (data, h) /\
     sortData rt rows xColumn yColumns sortOrder sortBy = rows) /\
  (sortOrder <> "none" ->
     exists sorted h',
       sortData_ref rt h data xColumn yColumns sortOrder sortBy = Some (sorted, h') /\
       sorted <> data /\
       h' !! data = Some rows /\
       (forall l, l <> sorted -> h' !! l = h !! l) /\
       h' !! sorted = Some (sortData rt rows xColumn yColumns sortOrder sortBy) /\
       sortData rt rows xColumn yColumns sortOrder sortBy ≡ₚ rows).
Proof.
  intros Hdata. split.
  - intros ->. done.
  - intros Hne. apply String.eqb_neq in Hne.
    unfold sortData_ref, sortData. rewrite Hne, Hdata. simpl.
    set (sorted := fresh (dom h)).
    assert (Hfresh : sorted ∉ dom h) by apply is_fresh.
    assert (Hsd : sorted <> data).
    { intros ->. apply Hfresh. apply elem_of_dom. eauto. }
    eexists _, _. split; [reflexivity |]. split; [exact Hsd |].
    split; [by rewrite !lookup_insert_ne |].
    split; [intros l Hl; by rewrite !lookup_insert_ne |].
    split; [by rewrite lookup_insert_eq |].
    apply array_sort_perm.
Qed.

Lemma C10_witness_two_rows :
  ({[ 1%positive := example_rows ]} : gmap loc _) !! 1%positive = Some example_rows /\
  ("descending" = "none" ->
     sortData_ref example_runtime {[ 1%positive := example_rows ]} 1%positive
       "region" ["total_sales"] "descending" "value"
       = Some (1%positive, {[ 1%positive := example_rows ]}) /\
     sortData example_runtime example_rows "region" ["total_sales"] "descending" "value"
       = example_rows) /\
  ("descending" <> "none" ->
     exists sorted h',
       sortData_ref example_runtime {[ 1%positive := example_rows ]} 1%positive
         "region" ["total_sales"] "descending" "value" = Some (sorted, h') /\
       sorted <> 1%positive /\
       h' !! 1%positive = Some example_rows /\
       (forall l, l <> sorted ->
          h' !! l = ({[ 1%positive := example_rows ]} : gmap loc _) !! l) /\
       h' !! sorted =
         Some (sortData example_runtime example_rows "region" ["total_sales"]
                 "descending" "value") /\
       sortData example_runtime example_rows "region" ["total_sales"]
         "descending" "value" ≡ₚ example_rows).
Proof.
  split; [reflexivity |].
  apply (C10_sortData_permutation_of_copy example_runtime
           {[ 1%positive := example_rows ]} 1%positive example_rows
           "region" ["total_sales"] "descending" "value").
  reflexivity.
Defined.

End ChartUtils.

(** ** The filter builder (features/query-builder/components/FilterBuilder.tsx) *)

Module FilterBuilder.
Import Js Types.

Record FilterRow := {
  id : string;
  dimension_id : string;
  operator : string;
  value : jsval
}.

(** [Partial<FilterRow>] as the handlers build it: an absent field is [None]. *)
Record FilterRowUpdates := {
  u_dimension_id : option string;
  u_operator : option string;
  u_value : option jsval
}.

Definition OPERATORS_BY_TYPE (t : DataType) : list string :=
  match t with
  | DString => ["="; "!="; "LIKE"; "IN"; "NOT IN"; "IS NULL"; "IS NOT NULL"]
  | DInteger => ["="; "!="; ">"; "<"; ">="; "<="; "IN"; "NOT IN"; "IS NULL"; "IS NOT NULL"]
  | DDecimal => ["="; "!="; ">"; "<"; ">="; "<="; "IN"; "NOT IN"; "IS NULL"; "IS NOT NULL"]
  | DDate => ["="; "!="; ">"; "<"; ">="; "<="; "IS NULL"; "IS NOT NULL"]
  | DBoolean => ["="; "!="; "IS NULL"; "IS NOT NULL"]
  end.

Definition OPERATOR_LABELS : list (string * string) :=
  [ ("=", "equals");
    ("!=", "not equals");
    (">", "greater than");
    ("<", "less than");
    (">=", "greater than or equal");
    ("<=", "less than or equal");
    ("IN", "is one of");
    ("NOT IN", "is not one of");
    ("LIKE", "contains");
    ("IS NULL", "is empty");
    ("IS NOT NULL", "is not empty") ].

(** The members of the type [FilterCondition['operator']]: the keys of
    [OPERATOR_LABELS]. *)
Definition operator_vocabulary : list string := OPERATOR_LABELS.*1.

(** The operator classes of the vocabulary. *)
Definition comparison_operators : list string := ["="; "!="; ">"; "<"; ">="; "<="].
Definition membership_operators : list string := ["IN"; "NOT IN"].
Definition null_check_operators : list string := ["IS NULL"; "IS NOT NULL"].
Definition string_operators : list string := ["LIKE"].

(** The operator vocabulary of the specification's data model. *)
Definition spec_operator_vocabulary : list string :=
  ["=="; "!="; ">"; ">="; "<"; "<="; "in"; "not in"; "contains"; "startswith";
   "endswith"; "is null"; "is not null"].

Definition is_numeric (t : DataType) : bool :=
  match t with DInteger | DDecimal => true | _ => false end.

(** [dimensions.find(d => d.id === dimensionId)]. *)
Definition find_dimension (dimensions : list SemanticDimension) (dimensionId : string)
    : option SemanticDimension :=
  List.find (fun d => String.eqb (dim_id d) dimensionId) dimensions.

(** [addFilter]; [now] is the rendering of [Date.now()]. *)
Definition addFilter (now : string) (filters : list FilterRow) : list FilterRow :=
  filters ++ [ {| id := "filter_" +:+ now; dimension_id := ""; operator := "=";
                  value := JNull |} ].

Definition removeFilter (rid : string) (filters : list FilterRow) : list FilterRow :=
  filter (fun f => id f <> rid) filters.

(** [{ ...f, ...updates }]. *)
Definition apply_updates (f : FilterRow) (updates : FilterRowUpdates) : FilterRow :=
  {| id := id f;
     dimension_id := default (dimension_id f) (u_dimension_id updates);
     operator := default (operator f) (u_operator updates);
     value := default (value f) (u_value updates) |}.

Definition updateFilter (rid : string) (updates : FilterRowUpdates)
    (filters : list FilterRow) : list FilterRow :=
  (fun f => if String.eqb (id f) rid then apply_updates f updates else f) <$> filters.

(** The operators offered for a row: those of the type of the dimension the
    row names, none while the row names no known dimension. *)
Definition operators (dimensions : list SemanticDimension) (f : FilterRow) : list string :=
  match find_dimension dimensions (dimension_id f) with
  | Some dimension => OPERATORS_BY_TYPE (data_type dimension)
  | None => []
  end.

(** The operator selector is rendered for rows with a truthy [dimension_id]. *)
Definition operator_selector_shown (f : FilterRow) : bool :=
  negb (String.eqb (dimension_id f) "").

(** [onChange] of the dimension selector of row [f]. *)
Definition onDimensionChange (dimensions : list SemanticDimension) (f : FilterRow)
    (dimensionId : string) (filters : list FilterRow) : list FilterRow :=
  updateFilter (id f)
    {| u_dimension_id := Some dimensionId;
       u_operator :=
         Some match find_dimension dimensions dimensionId with
              | Some dim => default "undefined" (OPERATORS_BY_TYPE (data_type dim) !! 0%nat)
              | None => "="
              end;
       u_value := Some JNull |}
    filters.

(** [onChange] of the operator selector of row [f]. *)
Definition onOperatorChange (f : FilterRow) (op : string) (filters : list FilterRow)
    : list FilterRow :=
  updateFilter (id f) {| u_dimension_id := None; u_operator := Some op;
                         u_value := Some JNull |} filters.

(** [onChange] of the value input of row [f]. *)
Definition onValueChange (f : FilterRow) (v : jsval) (filters : list FilterRow)
    : list FilterRow :=
  updateFilter (id f) {| u_dimension_id := None; u_operator := None;
                         u_value := Some v |} filters.

(** What a user can do in the filter builder.  A selector only emits one of
    its options; the add button is disabled without dimensions. *)
Inductive step (dimensions : list SemanticDimension) :
    list FilterRow -> list FilterRow -> Prop :=
| step_add now filters :
    dimensions <> [] ->
    step dimensions filters (addFilter now filters)
| step_remove f filters :
    f ∈ filters ->
    step dimensions filters (removeFilter (id f) filters)
| step_dimension f d filters :
    f ∈ filters -> d ∈ dimensions ->
    step dimensions filters (onDimensionChange dimensions f (dim_id d) filters)
| step_operator f op filters :
    f ∈ filters -> operator_selector_shown f = true ->
    op ∈ operators dimensions f ->
    step dimensions filters (onOperatorChange f op filters)
| step_value f v filters :
    f ∈ filters ->
    step dimensions filters (onValueChange f v filters).

(** *** Example data *)

Definition example_dimensions : list SemanticDimension :=
  [ {| dim_id := "d-region"; dim_name := "Region"; dim_sql_column := "region";
       data_type := DString |};
    {| dim_id := "d-quantity"; dim_name := "Quantity"; dim_sql_column := "quantity";
       data_type := DInteger |} ].

Definition example_quantity : SemanticDimension :=
  {| dim_id := "d-quantity"; dim_name := "Quantity"; dim_sql_column := "quantity";
     data_type := DInteger |}.

Definition example_row : FilterRow :=
  {| id := "filter_1700000000000"; dimension_id := "d-region"; operator := "LIKE";
     value := JStr "%North%" |}.

Example select_quantity_resets_operator :
  onDimensionChange example_dimensions example_row "d-quantity" [example_row]
  = [ {| id := "filter_1700000000000"; dimension_id := "d-quantity"; operator := "=";
         value := JNull |} ].
Proof. reflexivity. Qed.

(** *** Facts about the handlers *)

Lemma OPERATORS_BY_TYPE_vocabulary (t : DataType) (op : string) :
  op ∈ OPERATORS_BY_TYPE t -> op ∈ operator_vocabulary.
Proof.
  intros H. apply list_elem_of_In in H. apply list_elem_of_In.
  destruct t; simpl in *; intuition (subst; auto 20).
Qed.

Lemma OPERATORS_BY_TYPE_first (t : DataType) :
  default "undefined" (OPERATORS_BY_TYPE t !! 0%nat) = "=".
Proof. by destruct t. Qed.

Lemma equals_offered (t : DataType) : "=" ∈ OPERATORS_BY_TYPE t.
Proof. destruct t; apply list_elem_of_here. Qed.

Lemma updateFilter_elem (rid : string) (updates : FilterRowUpdates)
    (filters : list FilterRow) (g : FilterRow) :
  g ∈ updateFilter rid updates filters <->
  exists f : FilterRow, f ∈ filters /\
    g = (if String.eqb (id f) rid then apply_updates f updates else f).
Proof.
  unfold updateFilter. rewrite list_elem_of_fmap. split.
  - intros (f & -> & Hf). eauto.
  - intros (f & Hf & ->). eauto.
Qed.

Lemma operators_found (dimensions : list SemanticDimension) (f : FilterRow)
    (dim : SemanticDimension) :
  find_dimension dimensions (dimension_id f) = Some dim ->
  operators dimensions f = OPERATORS_BY_TYPE (data_type dim).
Proof. unfold operators. by intros ->. Qed.

Lemma numeric_operator_list (t : DataType) :
  is_numeric t = true ->
  OPERATORS_BY_TYPE t =
    (comparison_operators ++ membership_operators ++ null_check_operators)%list.
Proof. by destruct t. Qed.

Lemma numeric_no_string_operator (t : DataType) (op : string) :
  is_numeric t = true ->
  op ∈ OPERATORS_BY_TYPE t ->
  (op ∉ string_operators) /\ (op ∉ ["contains"; "startswith"; "endswith"]).
Proof.
  intros Ht Hop. rewrite (numeric_operator_list _ Ht) in Hop.
  apply list_elem_of_In in Hop.
  split; intros Hbad; apply list_elem_of_In in Hbad;
    simpl in *; intuition (subst; discriminate).
Qed.

(** *** Claims about the filter builder *)

(** C1: for a dimension whose data type is numeric (integer or decimal)
    the operators the filter builder offers are exactly the comparison,
    list-membership and null-check operators, none of them a string
    operator; selecting that dimension in a row resets the row's operator
    to a member of that list, and every operator the row's operator
    selector can emit afterwards is a member of that list too. *)
Theorem C1_numeric_dimension_operators
    (dimensions : list SemanticDimension) (dim : SemanticDimension)
    (dimensionId : string) (f : FilterRow) (filters : list FilterRow) :
  find_dimension dimensions dimensionId = Some dim ->
  is_numeric (data_type dim) = true ->
  OPERATORS_BY_TYPE (data_type dim) =
    (comparison_operators ++ membership_operators ++ null_check_operators)%list /\
  (forall op, op ∈ OPERATORS_BY_TYPE (data_type dim) ->
     (op ∉ string_operators) /\ (op ∉ ["contains"; "startswith"; "endswith"])) /\
  (f ∈ filters ->
     exists g, g ∈ onDimensionChange dimensions f dimensionId filters /\ id g = id f) /\
  (forall g, g ∈ onDimensionChange dimensions f dimensionId filters -> id g = id f ->
     dimension_id g = dimensionId /\
     operator g ∈ OPERATORS_BY_TYPE (data_type dim) /\
     operators dimensions g = OPERATORS_BY_TYPE (data_type dim) /\
     (forall op g', op ∈ operators dimensions g ->
        g' ∈ onOperatorChange g op (onDimensionChange dimensions f dimensionId filters) ->
        id g' = id g ->
        operator g' = op /\ operator g' ∈ OPERATORS_BY_TYPE (data_type dim))).
Proof.
  intros Hfind Hnum.
  split; [by apply numeric_operator_list |].
  split; [intros op; by apply numeric_no_string_operator |].
  assert (Hupd : forall g, g ∈ onDimensionChange dimensions f dimensionId filters ->
            id g = id f ->
            dimension_id g = dimensionId /\ operator g = "=").
  { intros g Hg Hid. unfold onDimensionChange in Hg. rewrite Hfind in Hg.
    apply updateFilter_elem in Hg as (f0 & _ & ->).
    destruct (String.eqb (id f0) (id f)) eqn:E.
    - simpl. by rewrite OPERATORS_BY_TYPE_first.
    - apply String.eqb_neq in E. contradiction. }
  split.
  - intros Hf. exists (apply_updates f
      {| u_dimension_id := Some dimensionId;
         u_operator := Some (default "undefined"
                               (OPERATORS_BY_TYPE (data_type dim) !! 0%nat));
         u_value := Some JNull |}).
    split; [| reflexivity].
    unfold onDimensionChange. rewrite Hfind. apply updateFilter_elem.
    exists f. split; [done |]. by rewrite String.eqb_refl.
  - intros g Hg Hid. destruct (Hupd g Hg Hid) as [Hd Ho].
    split; [done |]. split; [rewrite Ho; apply equals_offered |].
    assert (Hops : operators dimensions g = OPERATORS_BY_TYPE (data_type dim)).
    { apply operators_found. by rewrite Hd. }
    split; [done |].
    intros op g' Hop Hg' Hid'. rewrite Hops in Hop.
    unfold onOperatorChange in Hg'.
    apply updateFilter_elem in Hg' as (f0 & _ & ->).
    destruct (String.eqb (id f0) (id g)) eqn:E.
    + simpl. done.
    + apply String.eqb_neq in E. contradiction.
Qed.

Lemma C1_witness_quantity_dimension :
  find_dimension example_dimensions "d-quantity" = Some example_quantity /\
  is_numeric (data_type example_quantity) = true /\
  OPERATORS_BY_TYPE (data_type example_quantity) =
    (comparison_operators ++ membership_operators ++ null_check_operators)%list /\
  (forall op, op ∈ OPERATORS_BY_TYPE (data_type example_quantity) ->
     (op ∉ string_operators) /\ (op ∉ ["contains"; "startswith"; "endswith"])) /\
  (example_row ∈ [example_row] ->
     exists g, g ∈ onDimensionChange example_dimensions example_row "d-quantity"
                     [example_row] /\ id g = id example_row) /\
  (forall g, g ∈ onDimensionChange example_dimensions example_row "d-quantity"
                   [example_row] -> id g = id example_row ->
     dimension_id g = "d-quantity" /\
     operator g ∈ OPERATORS_BY_TYPE (data_type example_quantity) /\
     operators example_dimensions g = OPERATORS_BY_TYPE (data_type example_quantity) /\
     (forall op g', op ∈ operators example_dimensions g ->
        g' ∈ onOperatorChange g op
               (onDimensionChange example_dimensions example_row "d-quantity"
                  [example_row]) ->
        id g' = id g ->
        operator g' = op /\
        operator g' ∈ OPERATORS_BY_TYPE (data_type example_quantity))).
Proof.
  split; [reflexivity |]. split; [reflexivity |].
  apply (C1_numeric_dimension_operators example_dimensions example_quantity
           "d-quantity" example_row [example_row]); reflexivity.
Defined.

End FilterBuilder.

(** ** The query builder page (features/query-builder/QueryBuilder.tsx) *)

Module QueryBuilder.
Import Js Types.
Import FilterBuilder (FilterRow).

Record SemanticEntity := {
  ent_id : string;
  ent_name : string;
  dimensions : list SemanticDimension;
  measures : list string
}.

(** [query_config] of a saved query or of a history entry. *)
Record QueryConfig := {
  qc_dimension_ids : list string;
  qc_measure_ids : list string;
  qc_filters : list FilterCondition;
  qc_limit : Z
}.

Record SavedQuery := {
  sq_name : string;
  sq_entity_id : string;
  sq_query_config : QueryConfig
}.

Record QueryHistory := {
  qh_entity_id : string;
  qh_query_config : QueryConfig
}.

Inductive ViewMode := TableView | ChartView.
Inductive ExportFormat := Csv | Xlsx | Json.

(** [format.toUpperCase()]. *)
Definition format_upper (format : ExportFormat) : string :=
  match format with Csv => "CSV" | Xlsx => "XLSX" | Json => "JSON" end.

(** The component state ([useState] cells). *)
Record State := {
  selectedEntityId : option string;
  selectedDimensionIds : list string;
  selectedMeasureIds : list string;
  filters : list FilterRow;
  saveModalVisible : bool;
  savedQueriesVisible : bool;
  historyVisible : bool;
  viewMode : ViewMode;
  chartConfig : option ChartConfiguration
}.

Definition initial_state : State :=
  {| selectedEntityId := None; selectedDimensionIds := []; selectedMeasureIds := [];
     filters := []; saveModalVisible := false; savedQueriesVisible := false;
     historyVisible := false; viewMode := TableView; chartConfig := None |}.

(** What a handler does besides updating the state. *)
Inductive Effect :=
| MessageWarning (content : string)
| MessageSuccess (content : string)
| MessageError (content : string)
| ExecuteQuery (request : QueryRequest)
| ExportQuery (request : QueryRequest) (format : ExportFormat).

(** How [semanticAPI.exportQuery] ends: it resolves, or it rejects with an
    error whose [response.data.detail] may be missing. *)
Inductive ExportOutcome :=
| ExportResolved
| ExportRejected (detail : option string).

(** [catalog?.entities.find(e => e.id === selectedEntityId)]. *)
Definition selectedEntity (catalog : list SemanticEntity) (st : State)
    : option SemanticEntity :=
  List.find (fun e =>
    match selectedEntityId st with
    | Some sel => String.eqb (ent_id e) sel
    | None => false
    end) catalog.

(** [filters.map(f => ({ dimension_id, operator, value }))]. *)
Definition to_conditions (rows : list FilterRow) : list FilterCondition :=
  (fun f => {| fc_dimension_id := FilterBuilder.dimension_id f;
               fc_operator := FilterBuilder.operator f;
               fc_value := FilterBuilder.value f |}) <$> rows.

(** [!selectedEntityId || selectedMeasureIds.length === 0]. *)
Definition not_configured (st : State) : bool :=
  negb (truthy_str (selectedEntityId st)) ||
  (length (selectedMeasureIds st) =? 0)%nat.

(** The request object [handleExecute] and [handleExport] build once the
    guard has passed. *)
Definition build_request (st : State) : QueryRequest :=
  {| entity_id := default "" (selectedEntityId st);
     dimension_ids := selectedDimensionIds st;
     measure_ids := selectedMeasureIds st;
     Types.filters := to_conditions (filters st);
     limit := 1000 |}.

Definition handleExecute (st : State) : list Effect :=
  if not_configured st
  then [MessageWarning "Please select an entity and at least one measure"]
  else [ExecuteQuery (build_request st)].

Definition handleClear (st : State) : State :=
  {| selectedEntityId := None; selectedDimensionIds := []; selectedMeasureIds := [];
     filters := []; saveModalVisible := saveModalVisible st;
     savedQueriesVisible := savedQueriesVisible st;
     historyVisible := historyVisible st; viewMode := TableView;
     chartConfig := None |}.

Definition handleSaveQuery (st : State) : State * list Effect :=
  if not_configured st
  then (st, [MessageWarning "Please configure a query before saving"])
  else ({| selectedEntityId := selectedEntityId st;
           selectedDimensionIds := selectedDimensionIds st;
           selectedMeasureIds := selectedMeasureIds st;
           filters := filters st; saveModalVisible := true;
           savedQueriesVisible := savedQueriesVisible st;
           historyVisible := historyVisible st; viewMode := viewMode st;
           chartConfig := chartConfig st |}, []).

(** The rows a loaded configuration becomes; [now] renders [Date.now()]. *)
Definition loaded_filters (now : string) (conditions : list FilterCondition)
    : list FilterRow :=
  imap (fun index f =>
    {| FilterBuilder.id := "filter_" +:+ now +:+ "_" +:+ pretty index;
       FilterBuilder.dimension_id := fc_dimension_id f;
       FilterBuilder.operator := fc_operator f;
       FilterBuilder.value := fc_value f |}) conditions.

Definition load_config (now : string) (entity : string) (config : QueryConfig)
    (st : State) : State :=
  {| selectedEntityId := Some entity;
     selectedDimensionIds := qc_dimension_ids config;
     selectedMeasureIds := qc_measure_ids config;
     filters := loaded_filters now (qc_filters config);
     saveModalVisible := saveModalVisible st;
     savedQueriesVisible := savedQueriesVisible st;
     historyVisible := historyVisible st; viewMode := viewMode st;
     chartConfig := chartConfig st |}.

Definition handleLoadQuery (now : string) (savedQuery : SavedQuery) (st : State)
    : State * list Effect :=
  (load_config now (sq_entity_id savedQuery) (sq_query_config savedQuery) st,
   [MessageSuccess ("Loaded query: " +:+ sq_name savedQuery)]).

Definition handleLoadHistory (now : string) (history : QueryHistory) (st : State)
    : State * list Effect :=
  (load_config now (qh_entity_id history) (qh_query_config history) st,
   [MessageSuccess "Loaded query from history"]).

Definition handleExport (st : State) (format : ExportFormat) (outcome : ExportOutcome)
    : list Effect :=
  if not_configured st
  then [MessageWarning "Please configure a query before exporting"]
  else
    ExportQuery (build_request st) format ::
    match outcome with
    | ExportResolved => [MessageSuccess ("Exported as " +:+ format_upper format)]
    | ExportRejected detail =>
        [MessageError (if truthy_str detail then property_key detail
                       else "Export failed")]
    end.

(** [disabled] of the Execute Query and Save Query buttons. *)
Definition execute_disabled (st : State) : bool := not_configured st.

(** The [queryConfig] prop handed to the save dialog. *)
Definition save_modal_config (st : State) : string * QueryConfig :=
  (if truthy_str (selectedEntityId st) then property_key (selectedEntityId st) else "",
   {| qc_dimension_ids := selectedDimensionIds st;
      qc_measure_ids := selectedMeasureIds st;
      qc_filters := to_conditions (filters st);
      qc_limit := 1000 |}).

Definition with_entity (e : option string) (st : State) : State :=
  {| selectedEntityId := e; selectedDimensionIds := selectedDimensionIds st;
     selectedMeasureIds := selectedMeasureIds st; filters := filters st;
     saveModalVisible := saveModalVisible st;
     savedQueriesVisible := savedQueriesVisible st;
     historyVisible := historyVisible st; viewMode := viewMode st;
     chartConfig := chartConfig st |}.

Definition with_dimensions (ids : list string) (st : State) : State :=
  {| selectedEntityId := selectedEntityId st; selectedDimensionIds := ids;
     selectedMeasureIds := selectedMeasureIds st; filters := filters st;
     saveModalVisible := saveModalVisible st;
     savedQueriesVisible := savedQueriesVisible st;
     historyVisible := historyVisible st; viewMode := viewMode st;
     chartConfig := chartConfig st |}.

Definition with_measures (ids : list string) (st : State) : State :=
  {| selectedEntityId := selectedEntityId st;
     selectedDimensionIds := selectedDimensionIds st;
     selectedMeasureIds := ids; filters := filters st;
     saveModalVisible := saveModalVisible st;
     savedQueriesVisible := savedQueriesVisible st;
     historyVisible := historyVisible st; viewMode := viewMode st;
     chartConfig := chartConfig st |}.

Definition with_filters (rows : list FilterRow) (st : State) : State :=
  {| selectedEntityId := selectedEntityId st;
     selectedDimensionIds := selectedDimensionIds st;
     selectedMeasureIds := selectedMeasureIds st; filters := rows;
     saveModalVisible := saveModalVisible st;
     savedQueriesVisible := savedQueriesVisible st;
     historyVisible := historyVisible st; viewMode := viewMode st;
     chartConfig := chartConfig st |}.

(** A [QueryConfig] that has the type it is declared with: each filter's
    operator is a member of [FilterCondition['operator']]. *)
Definition well_typed_config (config : QueryConfig) : Prop :=
  Forall (fun fc => fc_operator fc ∈ FilterBuilder.operator_vocabulary)
         (qc_filters config).

(** The state changes that bear on the selection and the filter rows, each
    with the stored configuration it copies into the state, if any.  The
    two loads take whatever saved query or history entry they are given:
    the handlers check nothing. *)
Inductive ui_step (catalog : list SemanticEntity)
    : State -> option QueryConfig -> State -> Prop :=
| ui_entity e st :
    ui_step catalog st None (with_entity e st)
| ui_dimensions ids st :
    ui_step catalog st None (with_dimensions ids st)
| ui_measures ids st :
    ui_step catalog st None (with_measures ids st)
| ui_filters entity rows st :
    selectedEntity catalog st = Some entity ->
    FilterBuilder.step (dimensions entity) (filters st) rows ->
    ui_step catalog st None (with_filters rows st)
| ui_clear st :
    ui_step catalog st None (handleClear st)
| ui_save st :
    ui_step catalog st None (handleSaveQuery st).1
| ui_load_query now savedQuery st :
    ui_step catalog st (Some (sq_query_config savedQuery))
      (handleLoadQuery now savedQuery st).1
| ui_load_history now history st :
    ui_step catalog st (Some (qh_query_config history))
      (handleLoadHistory now history st).1.

(** [reachable catalog loaded st]: the component gets from its initial
    state to [st], [loaded] being the stored configurations loaded on the
    way, in order. *)
Inductive reachable (catalog : list SemanticEntity)
    : list QueryConfig -> State -> Prop :=
| reachable_initial :
    reachable catalog [] initial_state
| reachable_step loaded st label st' :
    reachable catalog loaded st ->
    ui_step catalog st label st' ->
    reachable catalog (loaded ++ option_list label)%list st'.

Definition operators_in_vocabulary (rows : list FilterRow) : Prop :=
  Forall (fun f => FilterBuilder.operator f ∈ FilterBuilder.operator_vocabulary) rows.

(** Where the operator of a filter can come from: the vocabulary, or a
    filter of one of the stored configurations [loaded]. *)
Definition operator_source (loaded : list QueryConfig) (op : string) : Prop :=
  op ∈ FilterBuilder.operator_vocabulary \/
  exists config fc,
    config ∈ loaded /\ fc ∈ qc_filters config /\ fc_operator fc = op.

(** The FilterCondition lists the query builder builds in a state: those
    of an executed request, of an exported request and of the payload
    handed to the save dialog. *)
Definition conditions_of (st : State) (conditions : list FilterCondition) : Prop :=
  (exists request,
     ExecuteQuery request ∈ handleExecute st /\ Types.filters request = conditions) \/
  (exists request format outcome,
     ExportQuery request format ∈ handleExport st format outcome /\
     Types.filters request = conditions) \/
  conditions = qc_filters (save_modal_config st).2.

(** *** Example data *)

Definition example_catalog : list SemanticEntity :=
  [ {| ent_id := "e-order"; ent_name := "Order";
       dimensions := FilterBuilder.example_dimensions;
       measures := ["m-total-sales"] |} ].

Definition example_entity : SemanticEntity :=
  {| ent_id := "e-order"; ent_name := "Order";
     dimensions := FilterBuilder.example_dimensions;
     measures := ["m-total-sales"] |}.

(** Entity and one measure selected, one filter row just added. *)
Definition example_state : State :=
  with_filters (FilterBuilder.addFilter "1700000000000" [])
    (with_measures ["m-total-sales"] (with_entity (Some "e-order") initial_state)).

(** A saved query with one filter, [d-product LIKE 'Lap%']. *)
Definition example_saved_query : SavedQuery :=
  {| sq_name := "Laptops"; sq_entity_id := "e-order";
     sq_query_config :=
       {| qc_dimension_ids := []; qc_measure_ids := ["m-total-sales"];
          qc_filters := [ {| fc_dimension_id := "d-product"; fc_operator := "LIKE";
                             fc_value := JStr "Lap%" |} ];
          qc_limit := 1000 |} |}.

Example execute_example :
  handleExecute example_state =
  [ExecuteQuery
     {| entity_id := "e-order"; dimension_ids := []; measure_ids := ["m-total-sales"];
        Types.filters := [ {| fc_dimension_id := ""; fc_operator := "=";
                              fc_value := JNull |} ];
        limit := 1000 |}].
Proof. reflexivity. Qed.

Example execute_without_measure :
  handleExecute (with_entity (Some "e-order") initial_state) =
  [MessageWarning "Please select an entity and at least one measure"].
Proof. reflexivity. Qed.

Lemma example_state_reachable : reachable example_catalog [] example_state.
Proof.
  unfold example_state.
  eapply (reachable_step _ [] _ None).
  - eapply (reachable_step _ [] _ None).
    + eapply (reachable_step _ [] _ None); [constructor |].
      apply (ui_entity _ (Some "e-order")).
    + apply (ui_measures _ ["m-total-sales"]).
  - apply (ui_filters _ example_entity); [reflexivity |].
    apply FilterBuilder.step_add. discriminate.
Qed.

Lemma example_saved_query_reachable :
  reachable example_catalog [sq_query_config example_saved_query]
    (handleLoadQuery "1700000000000" example_saved_query initial_state).1.
Proof.
  apply (reachable_step example_catalog [] initial_state
           (Some (sq_query_config example_saved_query))); [constructor |].
  apply ui_load_query.
Qed.

(** *** Facts about the handlers *)

Lemma not_configured_spec (st : State) :
  not_configured st = false <->
  (exists e, selectedEntityId st = Some e /\ e <> "") /\ selectedMeasureIds st <> [].
Proof.
  unfold not_configured. rewrite orb_false_iff, negb_false_iff, truthy_str_spec.
  destruct (selectedMeasureIds st); simpl; split; intros [? ?]; split;
    congruence || done.
Qed.

Lemma to_conditions_operators (P : string -> Prop) (rows : list FilterRow) :
  Forall (fun f => P (FilterBuilder.operator f)) rows ->
  Forall (fun fc => P (fc_operator fc)) (to_conditions rows).
Proof. unfold to_conditions. induction 1; simpl; constructor; auto. Qed.

Lemma imap_operators (P : string -> Prop) (mk : nat -> FilterCondition -> FilterRow)
    (conditions : list FilterCondition) :
  (forall i c, FilterBuilder.operator (mk i c) = fc_operator c) ->
  Forall (fun fc => P (fc_operator fc)) conditions ->
  Forall (fun f => P (FilterBuilder.operator f)) (imap mk conditions).
Proof.
  intros Hmk H. revert mk Hmk.
  induction H as [|fc l Hfc _ IH]; intros mk Hmk; simpl; constructor.
  - by rewrite Hmk.
  - apply IH. intros i c. apply Hmk.
Qed.

Lemma loaded_filters_operators (P : string -> Prop) (now : string)
    (conditions : list FilterCondition) :
  Forall (fun fc => P (fc_operator fc)) conditions ->
  Forall (fun f => P (FilterBuilder.operator f)) (loaded_filters now conditions).
Proof. apply imap_operators. reflexivity. Qed.

Lemma imap_conditions (mk : nat -> string) (conditions : list FilterCondition) :
  to_conditions
    (imap (fun index f =>
             {| FilterBuilder.id := mk index;
                FilterBuilder.dimension_id := fc_dimension_id f;
                FilterBuilder.operator := fc_operator f;
                FilterBuilder.value := fc_value f |}) conditions) = conditions.
Proof.
  unfold to_conditions. revert mk.
  induction conditions as [|c cs IH]; intros mk; [done |].
  rewrite imap_cons, fmap_cons. f_equal; [by destruct c |].
  apply (IH (fun i => mk (S i))).
Qed.

(** Loading copies the stored conditions as they are. *)
Lemma loaded_filters_conditions (now : string) (conditions : list FilterCondition) :
  to_conditions (loaded_filters now conditions) = conditions.
Proof. apply imap_conditions. Qed.

Lemma updateFilter_operators (P : string -> Prop) (rid : string)
    (updates : FilterBuilder.FilterRowUpdates) (rows : list FilterRow) :
  (forall op, FilterBuilder.u_operator updates = Some op -> P op) ->
  Forall (fun f => P (FilterBuilder.operator f)) rows ->
  Forall (fun f => P (FilterBuilder.operator f))
         (FilterBuilder.updateFilter rid updates rows).
Proof.
  intros Hop Hrows.
  apply Forall_forall. intros g Hg.
  apply FilterBuilder.updateFilter_elem in Hg as (f & Hf & ->).
  rewrite Forall_forall in Hrows. specialize (Hrows f Hf).
  destruct (String.eqb _ rid); [| done].
  unfold FilterBuilder.apply_updates. simpl.
  destruct (FilterBuilder.u_operator updates) as [op|]; simpl; auto.
Qed.

(** Every operator the filter builder writes into a row is one of the
    vocabulary; the operators it does not touch stay as they are. *)
Lemma filter_step_operators (P : string -> Prop) (dims : list SemanticDimension)
    (rows rows' : list FilterRow) :
  (forall op, op ∈ FilterBuilder.operator_vocabulary -> P op) ->
  FilterBuilder.step dims rows rows' ->
  Forall (fun f => P (FilterBuilder.operator f)) rows ->
  Forall (fun f => P (FilterBuilder.operator f)) rows'.
Proof.
  intros HP Hstep Hrows. destruct Hstep.
  - unfold FilterBuilder.addFilter. apply Forall_app. split; [done |].
    constructor; [| constructor]. simpl. apply HP, list_elem_of_here.
  - unfold FilterBuilder.removeFilter in *.
    rewrite Forall_forall in *. intros g Hg.
    apply list_elem_of_filter in Hg as [_ Hg]. auto.
  - apply updateFilter_operators; [| done]. simpl. intros op [= <-]. apply HP.
    destruct (FilterBuilder.find_dimension _ (dim_id d)) as [dim|].
    + rewrite FilterBuilder.OPERATORS_BY_TYPE_first. apply list_elem_of_here.
    + apply list_elem_of_here.
  - apply updateFilter_operators; [| done]. simpl. intros op' [= <-]. apply HP.
    unfold FilterBuilder.operators in *.
    destruct (FilterBuilder.find_dimension _ _) as [dim|].
    + by eapply FilterBuilder.OPERATORS_BY_TYPE_vocabulary.
    + match goal with H : _ ∈ [] |- _ => by apply not_elem_of_nil in H end.
  - apply updateFilter_operators; [| done]. simpl. discriminate.
Qed.

Lemma ui_step_operators (P : string -> Prop) (catalog : list SemanticEntity)
    (st st' : State) (label : option QueryConfig) :
  (forall op, op ∈ FilterBuilder.operator_vocabulary -> P op) ->
  (forall config, label = Some config ->
     Forall (fun fc => P (fc_operator fc)) (qc_filters config)) ->
  ui_step catalog st label st' ->
  Forall (fun f => P (FilterBuilder.operator f)) (filters st) ->
  Forall (fun f => P (FilterBuilder.operator f)) (filters st').
Proof.
  intros HP Hlabel Hstep Hinv.
  destruct Hstep as [e st | ids st | ids st | entity rows st Hsel Hrows | st | st
                    | now savedQuery st | now history st]; simpl.
  - done.
  - done.
  - done.
  - by eapply filter_step_operators.
  - constructor.
  - unfold handleSaveQuery. by destruct (not_configured st).
  - apply loaded_filters_operators. by apply Hlabel.
  - apply loaded_filters_operators. by apply Hlabel.
Qed.

(** The operators of a reachable state's rows satisfy whatever holds of
    the vocabulary and of the operators of the loaded configurations. *)
Lemma reachable_operators (P : string -> Prop) (catalog : list SemanticEntity)
    (loaded : list QueryConfig) (st : State) :
  (forall op, op ∈ FilterBuilder.operator_vocabulary -> P op) ->
  (forall config, config ∈ loaded ->
     Forall (fun fc => P (fc_operator fc)) (qc_filters config)) ->
  reachable catalog loaded st ->
  Forall (fun f => P (FilterBuilder.operator f)) (filters st).
Proof.
  intros HP Hloaded Hreach. induction Hreach as [|loaded st label st' _ IH Hstep].
  - constructor.
  - eapply ui_step_operators; [exact HP | | exact Hstep |].
    + intros config ->. apply Hloaded. apply elem_of_app. right. left.
    + apply IH. intros config Hin. apply Hloaded. apply elem_of_app. by left.
Qed.

(** The lists of [conditions_of] are all the conditions of the rows. *)
Lemma conditions_of_rows (st : State) (conditions : list FilterCondition) :
  conditions_of st conditions -> conditions = to_conditions (filters st).
Proof.
  intros [(request & Hin & <-) | [(request & format & outcome & Hin & <-) | ->]];
    [| | reflexivity].
  - unfold handleExecute in Hin.
    destruct (not_configured st); apply list_elem_of_In in Hin; simpl in Hin;
      destruct Hin as [[=] | []].
    by subst request.
  - unfold handleExport in Hin.
    destruct (not_configured st); apply list_elem_of_In in Hin; simpl in Hin.
    + destruct Hin as [[=] | []].
    + destruct Hin as [[= <-] | Hin]; [done |].
      destruct outcome; simpl in Hin; destruct Hin as [[=] | []].
Qed.

(** *** Claims about the query builder *)

(** C2 (as amended): the operators the query builder itself writes into a
    filter row are those of the vocabulary [=, !=, >, <, >=, <=, IN,
    NOT IN, LIKE, IS NULL, IS NOT NULL] (the members of the FilterCondition
    operator type), and loading a saved query or a history entry copies
    the stored conditions unchanged, without a check.  So in every
    reachable state the operator of every filter row, and of every
    FilterCondition of an executed request, of an exported request and of
    the save dialog's payload, is a member of that vocabulary or the
    operator of a filter of a stored configuration loaded before; when all
    loaded configurations carry operators of the vocabulary only, no
    FilterCondition carries an operator outside it. *)
Theorem C2_filter_operators_in_vocabulary
    (catalog : list SemanticEntity) (loaded : list QueryConfig) (st : State) :
  reachable catalog loaded st ->
  FilterBuilder.operator_vocabulary =
    ["="; "!="; ">"; "<"; ">="; "<="; "IN"; "NOT IN"; "LIKE"; "IS NULL";
     "IS NOT NULL"] /\
  Forall (fun f => operator_source loaded (FilterBuilder.operator f)) (filters st) /\
  (forall conditions, conditions_of st conditions ->
     Forall (fun fc => operator_source loaded (fc_operator fc)) conditions) /\
  (Forall well_typed_config loaded ->
     operators_in_vocabulary (filters st) /\
     forall conditions, conditions_of st conditions ->
       Forall (fun fc => fc_operator fc ∈ FilterBuilder.operator_vocabulary)
              conditions) /\
  (forall now savedQuery,
     to_conditions (filters (handleLoadQuery now savedQuery st).1) =
       qc_filters (sq_query_config savedQuery)) /\
  (forall now history,
     to_conditions (filters (handleLoadHistory now history st).1) =
       qc_filters (qh_query_config history)).
Proof.
  intros Hreach.
  assert (Hsrc : Forall (fun f => operator_source loaded (FilterBuilder.operator f))
                        (filters st)).
  { apply (reachable_operators (operator_source loaded) catalog loaded st);
      [by left | | exact Hreach].
    intros config Hin. apply Forall_forall. intros fc Hfc.
    right. by exists config, fc. }
  split; [reflexivity |]. split; [exact Hsrc |]. split.
  { intros conditions ->%conditions_of_rows. by apply to_conditions_operators. }
  split.
  { intros Htyped.
    assert (Hvoc : operators_in_vocabulary (filters st)).
    { apply (reachable_operators (fun op => op ∈ FilterBuilder.operator_vocabulary)
               catalog loaded st); [done | | exact Hreach].
      intros config Hin. rewrite Forall_forall in Htyped. by apply Htyped. }
    split; [exact Hvoc |].
    intros conditions ->%conditions_of_rows.
    by apply (to_conditions_operators
                (fun op => op ∈ FilterBuilder.operator_vocabulary)). }
  split; intros now q; apply loaded_filters_conditions.
Qed.

Lemma C2_witness_added_filter :
  reachable example_catalog [] example_state /\
  FilterBuilder.operator_vocabulary =
    ["="; "!="; ">"; "<"; ">="; "<="; "IN"; "NOT IN"; "LIKE"; "IS NULL";
     "IS NOT NULL"] /\
  Forall (fun f => operator_source [] (FilterBuilder.operator f))
         (filters example_state) /\
  (forall conditions, conditions_of example_state conditions ->
     Forall (fun fc => operator_source [] (fc_operator fc)) conditions) /\
  (Forall well_typed_config [] ->
     operators_in_vocabulary (filters example_state) /\
     forall conditions, conditions_of example_state conditions ->
       Forall (fun fc => fc_operator fc ∈ FilterBuilder.operator_vocabulary)
              conditions) /\
  (forall now savedQuery,
     to_conditions (filters (handleLoadQuery now savedQuery example_state).1) =
       qc_filters (sq_query_config savedQuery)) /\
  (forall now history,
     to_conditions (filters (handleLoadHistory now history example_state).1) =
       qc_filters (qh_query_config history)).
Proof.
  split; [exact example_state_reachable |].
  apply (C2_filter_operators_in_vocabulary example_catalog [] example_state).
  exact example_state_reachable.
Defined.

(** C2, counterexample to the claim as stated, for a constructed and for
    an accepted FilterCondition: the condition that executing builds from
    a freshly added filter row carries the operator [=], and the condition
    of a loaded saved query goes out with its stored operator [LIKE];
    neither is a member of the specification's vocabulary. *)
Lemma C2_counterexample_operators_outside_spec :
  (reachable example_catalog [] example_state /\
   exists request fc,
     handleExecute example_state = [ExecuteQuery request] /\
     fc ∈ Types.filters request /\
     fc_operator fc = "=" /\
     includes FilterBuilder.spec_operator_vocabulary (fc_operator fc) = false /\
     (fc_operator fc ∉ FilterBuilder.spec_operator_vocabulary)) /\
  (reachable example_catalog [sq_query_config example_saved_query]
     (handleLoadQuery "1700000000000" example_saved_query initial_state).1 /\
   exists request fc,
     handleExecute (handleLoadQuery "1700000000000" example_saved_query initial_state).1
       = [ExecuteQuery request] /\
     fc ∈ Types.filters request /\
     fc_operator fc = "LIKE" /\
     includes FilterBuilder.spec_operator_vocabulary (fc_operator fc) = false /\
     (fc_operator fc ∉ FilterBuilder.spec_operator_vocabulary)).
Proof.
  split.
  - split; [exact example_state_reachable |].
    eexists _, _. split; [reflexivity |].
    split; [apply list_elem_of_here |]. split; [reflexivity |].
    split; [reflexivity |]. by apply includes_false.
  - split; [exact example_saved_query_reachable |].
    eexists _, _. split; [reflexivity |].
    split; [apply list_elem_of_here |]. split; [reflexivity |].
    split; [reflexivity |]. by apply includes_false.
Qed.

(** C3: a semantic query needs an entity and at least one measure.  With
    an empty measure list executing, saving and exporting each end with a
    warning and issue no request (saving leaves the dialog closed); the
    buttons are disabled under the same condition; and a request is issued
    only when the entity is set and the measure list is non-empty, the
    request carrying exactly that entity and those measures. *)
Theorem C3_request_requires_entity_and_measure (st : State) :
  (selectedMeasureIds st = [] ->
     handleExecute st =
       [MessageWarning "Please select an entity and at least one measure"] /\
     handleSaveQuery st =
       (st, [MessageWarning "Please configure a query before saving"]) /\
     (forall format outcome, handleExport st format outcome =
        [MessageWarning "Please configure a query before exporting"]) /\
     execute_disabled st = true) /\
  (forall request,
     ExecuteQuery request ∈ handleExecute st \/
     (exists format outcome, ExportQuery request format ∈ handleExport st format outcome) ->
     (exists e, selectedEntityId st = Some e /\ e <> "" /\ entity_id request = e) /\
     measure_ids request = selectedMeasureIds st /\
     measure_ids request <> [] /\
     execute_disabled st = false) /\
  (forall request format format' outcome,
     (ExecuteQuery request ∉ (handleSaveQuery st).2) /\
     (ExportQuery request format ∉ (handleSaveQuery st).2) /\
     (ExportQuery request format ∉ handleExecute st) /\
     (ExecuteQuery request ∉ handleExport st format' outcome)).
Proof.
  split; [| split].
  - intros Hm. unfold handleExecute, handleSaveQuery, handleExport, execute_disabled,
      not_configured. rewrite Hm. simpl. rewrite orb_true_r. done.
  - intros request Hreq.
    assert (Hcfg : not_configured st = false /\ request = build_request st).
    { unfold handleExecute, handleExport in Hreq.
      destruct (not_configured st).
      - destruct Hreq as [Hin | (format & outcome & Hin)];
          apply list_elem_of_In in Hin; simpl in Hin; destruct Hin as [[=] | []].
      - split; [done |].
        destruct Hreq as [Hin | (format & outcome & Hin)];
          apply list_elem_of_In in Hin; simpl in Hin.
        + by destruct Hin as [[= <-] | []].
        + destruct Hin as [[= <-] | Hin]; [done |].
          destruct outcome; simpl in Hin; destruct Hin as [[=] | []]. }
    destruct Hcfg as [Hcfg ->].
    pose proof Hcfg as Hcfg'.
    apply not_configured_spec in Hcfg' as [(e & He & Hne) Hms].
    split; [exists e; simpl; by rewrite He |]. done.
  - intros request format format' outcome.
    unfold handleSaveQuery, handleExecute, handleExport.
    destruct (not_configured st); simpl; repeat split;
      intros Hin; apply list_elem_of_In in Hin; simpl in Hin;
      try (destruct outcome; simpl in Hin); intuition discriminate.
Qed.

End QueryBuilder.

(** ** The pipeline engine (specification sections 3 to 7)

    The repository holds the front end and the guides that call the
    engine's API, not the engine: the modules below follow the
    specification's data model and component design. *)

Module Dataset.

(** Modelled from the spec: the cells of a NamedDataset's records.  The
    engine's tabular values are missing from the sources; a cell is null,
    an exact number or a string. *)
Inductive cell :=
| CNull
| CNum (q : Q)
| CStr (s : string).

(** Modelled from the spec: NamedDataset, [{columns: [string], rows: [record]}]. *)
Record NamedDataset := {
  columns : list string;
  rows : list (gmap string cell)
}.

(** Modelled from the spec: the error taxonomy of section 7 that execution
    can raise. *)
Inductive ExecError :=
| DataSourceError (message : string)
| SchemaError (message : string)
| ExecutionTimeout.

End Dataset.

(** ** The Filter step executor (specification section 4.2) *)

Module FilterStep.
Import Dataset.

(** Modelled from the spec: the operator vocabulary of FilterCondition. *)
Inductive FilterOperator :=
| OpEq | OpNe | OpGt | OpGe | OpLt | OpLe
| OpIn | OpNotIn
| OpContains | OpStartswith | OpEndswith
| OpIsNull | OpIsNotNull.

Inductive FilterValue :=
| VNone
| VScalar (c : cell)
| VList (cs : list cell).

(** Modelled from the spec: FilterCondition, [{column, operator, value?}]. *)
Record FilterCondition := {
  column : string;
  operator : FilterOperator;
  value : FilterValue
}.

Inductive LogicalOperator := AND | OR.

(** Modelled from the spec: the configuration of a Filter step,
    [conditions] combined with one flat [logical_operator]. *)
Record FilterConfig := {
  conditions : list FilterCondition;
  logical_operator : LogicalOperator
}.

Definition Qlt_bool (x y : Q) : bool := negb (Qle_bool y x).

(** Equality and order of cells; null compares equal or ordered to nothing,
    a number and a string are unrelated. *)
Definition cell_eqb (a b : cell) : bool :=
  match a, b with
  | CNum x, CNum y => Qeq_bool x y
  | CStr s, CStr t => String.eqb s t
  | _, _ => false
  end.

Definition cell_ltb (a b : cell) : bool :=
  match a, b with
  | CNum x, CNum y => Qlt_bool x y
  | CStr s, CStr t => String.ltb s t
  | _, _ => false
  end.

Definition cell_leb (a b : cell) : bool :=
  match a, b with
  | CNum x, CNum y => Qle_bool x y
  | CStr s, CStr t => String.leb s t
  | _, _ => false
  end.

Definition is_null (a : cell) : bool :=
  match a with CNull => true | _ => false end.

(** The three case-sensitive substring tests, restricted to string cells:
    on a number they are a SchemaError, on null they do not hold. *)
Definition string_test (test : string -> string -> bool) (col : string)
    (v : cell) (pattern : cell) : ExecError + bool :=
  match v, pattern with
  | CStr t, CStr s => inr (test s t)
  | CNull, CStr _ => inr false
  | _, _ => inl (SchemaError ("String operator on non-string column: " +:+ col))
  end.

Definition ends_with (s t : string) : bool :=
  String.prefix (String.rev s) (String.rev t).

(** Modelled from the spec: one condition on one record (section 4.2,
    Filter).  A referenced column that is absent is a SchemaError. *)
Definition eval_condition (r : gmap string cell) (c : FilterCondition)
    : ExecError + bool :=
  match r !! column c with
  | None => inl (SchemaError ("Column not found: " +:+ column c))
  | Some v =>
      match operator c, value c with
      | OpEq, VScalar b => inr (cell_eqb v b)
      | OpNe, VScalar b => inr (negb (cell_eqb v b))
      | OpGt, VScalar b => inr (cell_ltb b v)
      | OpGe, VScalar b => inr (cell_leb b v)
      | OpLt, VScalar b => inr (cell_ltb v b)
      | OpLe, VScalar b => inr (cell_leb v b)
      | OpIn, VList bs => inr (existsb (cell_eqb v) bs)
      | OpNotIn, VList bs => inr (negb (existsb (cell_eqb v) bs))
      | OpContains, VScalar b => string_test Js.has_substring (column c) v b
      | OpStartswith, VScalar b => string_test String.prefix (column c) v b
      | OpEndswith, VScalar b => string_test ends_with (column c) v b
      | OpIsNull, _ => inr (is_null v)
      | OpIsNotNull, _ => inr (negb (is_null v))
      | _, _ => inl (SchemaError ("Invalid value for filter on column: " +:+ column c))
      end
  end.

(** All conditions of a record, combined with the flat logical operator. *)
Fixpoint eval_conditions (op : LogicalOperator) (r : gmap string cell)
    (cs : list FilterCondition) : ExecError + bool :=
  match cs with
  | [] => inr (match op with AND => true | OR => false end)
  | c :: cs' =>
      match eval_condition r c, eval_conditions op r cs' with
      | inl e, _ => inl e
      | _, inl e => inl e
      | inr b, inr b' => inr (match op with AND => b && b' | OR => b || b' end)
      end
  end.

Fixpoint filter_rows (cfg : FilterConfig) (rs : list (gmap string cell))
    : ExecError + list (gmap string cell) :=
  match rs with
  | [] => inr []
  | r :: rs' =>
      match eval_conditions (logical_operator cfg) r (conditions cfg),
            filter_rows cfg rs' with
      | inl e, _ => inl e
      | _, inl e => inl e
      | inr keep, inr kept => inr (if keep then r :: kept else kept)
      end
  end.

(** Modelled from the spec: the Filter executor. *)
Definition execute_filter (cfg : FilterConfig) (d : NamedDataset)
    : ExecError + NamedDataset :=
  match filter_rows cfg (rows d) with
  | inl e => inl e
  | inr kept => inr {| columns := columns d; rows := kept |}
  end.



Definition sales_row (product : string) (unit_price : Q) : gmap string cell :=
  {[ "product" := CStr product; "unit_price" := CNum unit_price ]}.

Definition price_dataset : NamedDataset :=
  {| columns := ["product"; "unit_price"];
     rows := [ sales_row "Mouse" 800; sales_row "Monitor" 1000;
               sales_row "Laptop" 1500 ] |}.

(** A Filter step with the single condition [col op b]. *)
Definition comparison_filter (col : string) (op : FilterOperator) (b : Q)
    : FilterConfig :=
  {| conditions := [ {| column := col; operator := op; value := VScalar (CNum b) |} ];
     logical_operator := AND |}.

(** *** Facts about the Filter executor *)





(** *** Claim about the Filter executor *)



End FilterStep.

(** ** The Aggregate step executor (specification section 4.2) *)

Module AggregateStep.
Import Dataset.

(** Modelled from the spec: the aggregation functions of an Aggregate step. *)
Inductive AggFunction := Sum | Mean | Median | Min | Max | Count | Std | Var.

(** Modelled from the spec: one entry of [aggregations],
    [{column, function, alias}]. *)
Record Aggregation := {
  agg_column : string;
  agg_function : AggFunction;
  agg_alias : string
}.

(** Modelled from the spec: the configuration of an Aggregate step. *)
Record AggregateConfig := {
  group_by : list string;
  aggregations : list Aggregation
}.

(** The specification names [std] and [var] without fixing the estimator
    (and a standard deviation is not rational in general): their value on
    the numbers that enter the computation is left to the backend. *)
Record Statistics := {
  variance : list Q -> cell;
  standard_deviation : list Q -> cell
}.

Definition Qsum (qs : list Q) : Q := Qred (fold_right Qplus 0%Q qs).

Definition Qmin_list (qs : list Q) : cell :=
  match qs with
  | [] => CNull
  | q :: qs' => CNum (fold_right (fun x m => if Qle_bool x m then x else m) q qs')
  end.

Definition Qmax_list (qs : list Q) : cell :=
  match qs with
  | [] => CNull
  | q :: qs' => CNum (fold_right (fun x m => if Qle_bool m x then x else m) q qs')
  end.

Definition Qmean (qs : list Q) : cell :=
  match qs with
  | [] => CNull
  | _ => CNum (Qred (Qsum qs / inject_Z (Z.of_nat (length qs))))
  end.

Definition Qle_rel (x y : Q) : Prop := Qle_bool x y = true.

#[global] Instance Qle_rel_dec : RelDecision Qle_rel.
Proof. intros x y. unfold Qle_rel. apply _. Defined.

Definition Qmedian (qs : list Q) : cell :=
  let sorted := merge_sort Qle_rel qs in
  let n := length sorted in
  match sorted !! (n / 2)%nat with
  | None => CNull
  | Some hi =>
      if Nat.even n then
        match sorted !! (n / 2 - 1)%nat with
        | Some lo => CNum (Qred ((lo + hi) / 2))
        | None => CNull
        end
      else CNum hi
  end.

(** The value of a function other than [count] on the numbers that enter
    its computation. *)
Definition kernel (stats : Statistics) (f : AggFunction) (qs : list Q) : cell :=
  match f with
  | Sum => CNum (Qsum qs)
  | Mean => Qmean qs
  | Median => Qmedian qs
  | Min => Qmin_list qs
  | Max => Qmax_list qs
  | Count => CNum (inject_Z (Z.of_nat (length qs)))
  | Std => standard_deviation stats qs
  | Var => variance stats qs
  end.

Definition is_null (c : cell) : bool :=
  match c with CNull => true | _ => false end.

Definition non_null (cells : list cell) : list cell :=
  List.filter (fun c => negb (is_null c)) cells.

(** The numbers among non-null cells; a string cannot be aggregated. *)
Fixpoint numbers (col : string) (cells : list cell) : ExecError + list Q :=
  match cells with
  | [] => inr []
  | CNum q :: cells' =>
      match numbers col cells' with
      | inl e => inl e
      | inr qs => inr (q :: qs)
      end
  | _ :: _ => inl (SchemaError ("Column is not numeric: " +:+ col))
  end.

(** Modelled from the spec: one aggregation over the cells of a group.
    [count] counts every row of the group, null or not; every other
    function is computed from the non-null values only. *)
Definition aggregate_cells (stats : Statistics) (col : string) (f : AggFunction)
    (cells : list cell) : ExecError + cell :=
  match f with
  | Count => inr (CNum (inject_Z (Z.of_nat (length cells))))
  | _ =>
      match numbers col (non_null cells) with
      | inl e => inl e
      | inr qs => inr (kernel stats f qs)
      end
  end.

(** The cells of column [col] in a list of records (SchemaError when a
    record lacks the column). *)
Fixpoint column_cells (col : string) (rs : list (gmap string cell))
    : ExecError + list cell :=
  match rs with
  | [] => inr []
  | r :: rs' =>
      match r !! col, column_cells col rs' with
      | None, _ => inl (SchemaError ("Column not found: " +:+ col))
      | _, inl e => inl e
      | Some c, inr cs => inr (c :: cs)
      end
  end.

(** The group-by tuple of a record. *)
Fixpoint group_key (cols : list string) (r : gmap string cell)
    : ExecError + list cell :=
  match cols with
  | [] => inr []
  | col :: cols' =>
      match r !! col, group_key cols' r with
      | None, _ => inl (SchemaError ("Column not found: " +:+ col))
      | _, inl e => inl e
      | Some c, inr cs => inr (c :: cs)
      end
  end.

Definition key_cell_eqb (a b : cell) : bool :=
  match a, b with
  | CNull, CNull => true
  | CNum x, CNum y => Qeq_bool x y
  | CStr s, CStr t => String.eqb s t
  | _, _ => false
  end.

Fixpoint key_eqb (k k' : list cell) : bool :=
  match k, k' with
  | [], [] => true
  | a :: k1, b :: k1' => key_cell_eqb a b && key_eqb k1 k1'
  | _, _ => false
  end.

(** Groups in order of first appearance, each with its records in input
    order. *)
Fixpoint add_to_group (k : list cell) (r : gmap string cell)
    (groups : list (list cell * list (gmap string cell)))
    : list (list cell * list (gmap string cell)) :=
  match groups with
  | [] => [(k, [r])]
  | (k', rs) :: rest =>
      if key_eqb k k' then (k', (rs ++ [r])%list) :: rest
      else (k', rs) :: add_to_group k r rest
  end.

Fixpoint group_rows (cols : list string) (rs : list (gmap string cell))
    (groups : list (list cell * list (gmap string cell)))
    : ExecError + list (list cell * list (gmap string cell)) :=
  match rs with
  | [] => inr groups
  | r :: rs' =>
      match group_key cols r with
      | inl e => inl e
      | inr k => group_rows cols rs' (add_to_group k r groups)
      end
  end.

(** The aggregated cells of one group, under their aliases. *)
Fixpoint aggregate_group (stats : Statistics) (aggs : list Aggregation)
    (rs : list (gmap string cell)) : ExecError + list (string * cell) :=
  match aggs with
  | [] => inr []
  | a :: aggs' =>
      match column_cells (agg_column a) rs with
      | inl e => inl e
      | inr cells =>
          match aggregate_cells stats (agg_column a) (agg_function a) cells,
                aggregate_group stats aggs' rs with
          | inl e, _ => inl e
          | _, inl e => inl e
          | inr c, inr out => inr ((agg_alias a, c) :: out)
          end
      end
  end.

Fixpoint aggregate_groups (stats : Statistics) (cfg : AggregateConfig)
    (groups : list (list cell * list (gmap string cell)))
    : ExecError + list (gmap string cell) :=
  match groups with
  | [] => inr []
  | (k, rs) :: rest =>
      match aggregate_group stats (aggregations cfg) rs,
            aggregate_groups stats cfg rest with
      | inl e, _ => inl e
      | _, inl e => inl e
      | inr out, inr more =>
          inr (list_to_map (zip (group_by cfg) k ++ out)%list :: more)
      end
  end.

(** Modelled from the spec: the Aggregate executor; one output record per
    distinct group-by tuple present in the input. *)
Definition execute_aggregate (stats : Statistics) (cfg : AggregateConfig)
    (d : NamedDataset) : ExecError + NamedDataset :=
  match group_rows (group_by cfg) (rows d) [] with
  | inl e => inl e
  | inr groups =>
      match aggregate_groups stats cfg groups with
      | inl e => inl e
      | inr out =>
          inr {| columns := (group_by cfg ++ (agg_alias <$> aggregations cfg))%list;
                 rows := out |}
      end
  end.

(** *** Example data *)

Definition region_row (region : string) (quantity : cell) : gmap string cell :=
  {[ "region" := CStr region; "quantity" := quantity ]}.

Definition quantity_dataset : NamedDataset :=
  {| columns := ["region"; "quantity"];
     rows := [ region_row "North" (CNum 10); region_row "North" (CNum 20);
               region_row "South" (CNum 5) ] |}.

(** The same data with one more North row whose quantity is null. *)
Definition quantity_dataset_with_null : NamedDataset :=
  {| columns := ["region"; "quantity"];
     rows := [ region_row "North" (CNum 10); region_row "North" CNull;
               region_row "North" (CNum 20); region_row "South" (CNum 5) ] |}.

Definition total_quantity_by_region : AggregateConfig :=
  {| group_by := ["region"];
     aggregations := [ {| agg_column := "quantity"; agg_function := Sum;
                          agg_alias := "total_quantity" |} ] |}.

Definition total_and_count_by_region : AggregateConfig :=
  {| group_by := ["region"];
     aggregations := [ {| agg_column := "quantity"; agg_function := Sum;
                          agg_alias := "total_quantity" |};
                       {| agg_column := "quantity"; agg_function := Count;
                          agg_alias := "order_count" |} ] |}.

Example median_example : Qmedian [3; 1; 2; 10]%Q = CNum (5 # 2).
Proof. vm_compute. reflexivity. Qed.

Example aggregate_example (stats : Statistics) :
  execute_aggregate stats total_quantity_by_region quantity_dataset =
  inr {| columns := ["region"; "total_quantity"];
         rows := [ {[ "region" := CStr "North"; "total_quantity" := CNum 30 ]};
                   {[ "region" := CStr "South"; "total_quantity" := CNum 5 ]} ] |}.
Proof. vm_compute. reflexivity. Qed.

(** *** Facts about the Aggregate executor *)

Lemma non_null_app (xs ys : list cell) :
  non_null (xs ++ ys) = (non_null xs ++ non_null ys)%list.
Proof. unfold non_null. apply List.filter_app. Qed.

Lemma non_null_insert_null (before after : list cell) :
  non_null (before ++ CNull :: after) = non_null (before ++ after).
Proof. rewrite !non_null_app. reflexivity. Qed.

Lemma non_null_idempotent (cells : list cell) :
  non_null (non_null cells) = non_null cells.
Proof.
  unfold non_null. induction cells as [|c cells IH]; [done |].
  simpl. destruct (is_null c) eqn:E; simpl; [done |].
  rewrite E. simpl. by rewrite IH.
Qed.

Lemma aggregate_cells_non_null (stats : Statistics) (col : string)
    (f : AggFunction) (cells : list cell) :
  f <> Count ->
  aggregate_cells stats col f cells = aggregate_cells stats col f (non_null cells).
Proof.
  intros Hf. destruct f; try contradiction; simpl;
    by rewrite non_null_idempotent.
Qed.

(** *** Groups, stated apart from the executor *)

(** Whether the group-by tuple of [r] is [k], cell by cell. *)
Definition in_group (cols : list string) (k : list cell) (r : gmap string cell) : bool :=
  match group_key cols r with
  | inr k' => key_eqb k' k
  | inl _ => false
  end.

(** The records of [rs] whose group-by tuple is [k], in input order:
    every such record, whatever it holds in the other columns. *)
Definition group_of (cols : list string) (k : list cell)
    (rs : list (gmap string cell)) : list (gmap string cell) :=
  List.filter (in_group cols k) rs.

(** An input on which the step raises no SchemaError: every record has the
    group-by columns and the aggregated columns, and a column aggregated
    by a function other than [count] holds numbers and nulls only. *)
Definition aggregable (cfg : AggregateConfig) (d : NamedDataset) : Prop :=
  forall r, r ∈ rows d ->
    (forall col, col ∈ group_by cfg -> is_Some (r !! col)) /\
    (forall a, a ∈ aggregations cfg ->
       exists c, r !! agg_column a = Some c /\
                 (agg_function a = Count \/ c = CNull \/ exists q, c = CNum q)).

(** Keys pairwise different. *)
Fixpoint keys_distinct (groups : list (list cell * list (gmap string cell))) : Prop :=
  match groups with
  | [] => True
  | g :: rest => Forall (fun g' => key_eqb g.1 g'.1 = false) rest /\ keys_distinct rest
  end.

Lemma key_cell_eqb_refl (a : cell) : key_cell_eqb a a = true.
Proof.
  destruct a; simpl; [done | | apply String.eqb_refl].
  apply Qeq_bool_iff. apply Qeq_refl.
Qed.

Lemma key_cell_eqb_sym (a b : cell) : key_cell_eqb a b = key_cell_eqb b a.
Proof.
  destruct a, b; simpl; try done.
  - apply eq_true_iff_eq. rewrite !Qeq_bool_iff. split; intros H; by symmetry.
  - apply String.eqb_sym.
Qed.

Lemma key_cell_eqb_trans (a b c : cell) :
  key_cell_eqb a b = true -> key_cell_eqb b c = true -> key_cell_eqb a c = true.
Proof.
  destruct a, b, c; simpl; try done.
  - rewrite !Qeq_bool_iff. intros H1 H2. by rewrite H1.
  - rewrite !String.eqb_eq. congruence.
Qed.

Lemma key_eqb_refl (k : list cell) : key_eqb k k = true.
Proof. induction k as [|a k IH]; [done |]. simpl. by rewrite key_cell_eqb_refl. Qed.

Lemma key_eqb_sym (k k' : list cell) : key_eqb k k' = key_eqb k' k.
Proof.
  revert k'. induction k as [|a k IH]; intros [|b k']; simpl; try done.
  by rewrite key_cell_eqb_sym, IH.
Qed.

Lemma key_eqb_trans (k1 k2 k3 : list cell) :
  key_eqb k1 k2 = true -> key_eqb k2 k3 = true -> key_eqb k1 k3 = true.
Proof.
  revert k2 k3. induction k1 as [|a k1 IH]; intros [|b k2] [|c k3]; simpl; try done.
  rewrite !andb_true_iff. intros [H1 H2] [H3 H4]. split.
  - by eapply key_cell_eqb_trans.
  - by eapply IH.
Qed.

(** A record with key [k] is in the group of [k'] exactly when the keys
    are equal. *)
Lemma in_group_key (cols : list string) (r : gmap string cell) (k k' : list cell) :
  group_key cols r = inr k -> in_group cols k' r = key_eqb k k'.
Proof. intros H. unfold in_group. by rewrite H. Qed.

Lemma group_of_snoc (cols : list string) (k k' : list cell)
    (processed : list (gmap string cell)) (r : gmap string cell) :
  group_key cols r = inr k ->
  group_of cols k' (processed ++ [r]) =
    (group_of cols k' processed ++ (if key_eqb k k' then [r] else []))%list.
Proof.
  intros Hk. unfold group_of. rewrite List.filter_app. simpl.
  by rewrite (in_group_key _ _ _ _ Hk).
Qed.

Lemma group_of_elem (cols : list string) (k : list cell)
    (rs : list (gmap string cell)) (r : gmap string cell) :
  r ∈ group_of cols k rs <-> r ∈ rs /\ in_group cols k r = true.
Proof. unfold group_of. rewrite !list_elem_of_In. apply filter_In. Qed.

Lemma group_key_length (cols : list string) (r : gmap string cell) (k : list cell) :
  group_key cols r = inr k -> length k = length cols.
Proof.
  revert k. induction cols as [|col cols IH]; intros k; simpl.
  - by intros [= <-].
  - destruct (r !! col) as [c|]; [| discriminate].
    destruct (group_key cols r) as [e | k']; [discriminate |].
    intros [= <-]. simpl. f_equal. by apply IH.
Qed.

(** *** The grouping loop *)

(** What the loop has built after the records [processed]: each group
    holds the processed records of its key, the keys are pairwise
    different, and every processed record has its group. *)
Record groups_of (cols : list string) (processed : list (gmap string cell))
    (groups : list (list cell * list (gmap string cell))) : Prop := {
  groups_rows : Forall (fun g => g.2 = group_of cols g.1 processed /\ g.2 <> []) groups;
  groups_distinct : keys_distinct groups;
  groups_keys : Forall (fun g => length g.1 = length cols) groups;
  groups_cover : forall r, r ∈ processed ->
    exists k g, group_key cols r = inr k /\ g ∈ groups /\ key_eqb k g.1 = true
}.

Lemma add_to_group_keys (P : list cell -> Prop) (k : list cell)
    (r : gmap string cell) (groups : list (list cell * list (gmap string cell))) :
  P k -> Forall (fun g => P g.1) groups ->
  Forall (fun g => P g.1) (add_to_group k r groups).
Proof.
  intros HP. induction 1 as [|[k' rs] rest Hg Hrest IH]; simpl.
  - by repeat constructor.
  - destruct (key_eqb k k'); constructor; simpl in *; auto.
Qed.

Lemma add_to_group_keeps (k : list cell) (r : gmap string cell)
    (groups : list (list cell * list (gmap string cell)))
    (g : list cell * list (gmap string cell)) :
  g ∈ groups -> exists g', g' ∈ add_to_group k r groups /\ g'.1 = g.1.
Proof.
  induction groups as [|[k' rs] rest IH]; [by intros ?%not_elem_of_nil |].
  intros [-> | Hin]%elem_of_cons; simpl.
  - destruct (key_eqb k k'); eexists; (split; [left |]); reflexivity.
  - destruct (key_eqb k k').
    + exists g. split; [by right | done].
    + destruct (IH Hin) as (g' & Hg' & Heq). exists g'. split; [by right | done].
Qed.

Lemma add_to_group_has (k : list cell) (r : gmap string cell)
    (groups : list (list cell * list (gmap string cell))) :
  exists g, g ∈ add_to_group k r groups /\ key_eqb k g.1 = true.
Proof.
  induction groups as [|[k' rs] rest IH]; simpl.
  - eexists. split; [left |]. apply key_eqb_refl.
  - destruct (key_eqb k k') eqn:E.
    + eexists. split; [left |]. exact E.
    + destruct IH as (g & Hg & Hk). exists g. split; [by right | done].
Qed.

Lemma add_to_group_distinct (k : list cell) (r : gmap string cell)
    (groups : list (list cell * list (gmap string cell))) :
  keys_distinct groups -> keys_distinct (add_to_group k r groups).
Proof.
  induction groups as [|[k' rs] rest IH]; simpl.
  - intros _. split; [constructor | done].
  - intros [Hhead Hrest]. destruct (key_eqb k k') eqn:E; simpl.
    + done.
    + split; [| by apply IH].
      apply (add_to_group_keys (fun k0 => key_eqb k' k0 = false)); [| done].
      by rewrite key_eqb_sym.
Qed.

Lemma add_to_group_rows (cols : list string) (processed : list (gmap string cell))
    (k : list cell) (r : gmap string cell)
    (groups : list (list cell * list (gmap string cell))) :
  group_key cols r = inr k ->
  Forall (fun g => g.2 = group_of cols g.1 processed /\ g.2 <> []) groups ->
  keys_distinct groups ->
  (Forall (fun g => key_eqb k g.1 = false) groups -> group_of cols k processed = []) ->
  Forall (fun g => g.2 = group_of cols g.1 (processed ++ [r]) /\ g.2 <> [])
         (add_to_group k r groups).
Proof.
  intros Hk. induction groups as [|[k' rs] rest IH]; intros Hrows Hdist Hnew; simpl.
  - constructor; [| constructor]. simpl. split; [| done].
    rewrite (group_of_snoc _ _ _ _ _ Hk), key_eqb_refl, Hnew; [done | constructor].
  - apply Forall_cons in Hrows as [[Hrs Hne] Hrows]. simpl in Hrs, Hne.
    destruct Hdist as [Hhead Hdist]. simpl in Hhead.
    destruct (key_eqb k k') eqn:E.
    + constructor; simpl.
      * split; [| by destruct rs].
        by rewrite (group_of_snoc _ _ _ _ _ Hk), E, Hrs.
      * rewrite Forall_forall in *. intros g Hg.
        destruct (Hrows g Hg) as [Hg2 Hgne]. split; [| done].
        rewrite (group_of_snoc _ _ _ _ _ Hk).
        destruct (key_eqb k g.1) eqn:E'; [| by rewrite app_nil_r].
        exfalso. specialize (Hhead g Hg).
        rewrite key_eqb_sym in E.
        rewrite (key_eqb_trans _ _ _ E E') in Hhead. discriminate.
    + constructor; simpl.
      * split; [| done].
        by rewrite (group_of_snoc _ _ _ _ _ Hk), E, app_nil_r.
      * apply IH; [done | done |].
        intros Hnone. apply Hnew. constructor; done.
Qed.

Lemma add_to_group_groups_of (cols : list string) (processed : list (gmap string cell))
    (k : list cell) (r : gmap string cell)
    (groups : list (list cell * list (gmap string cell))) :
  group_key cols r = inr k ->
  groups_of cols processed groups ->
  groups_of cols (processed ++ [r]) (add_to_group k r groups).
Proof.
  intros Hk [Hrows Hdist Hkeys Hcover]. split.
  - apply add_to_group_rows; [done | done | done |].
    intros Hnone. destruct (group_of cols k processed) as [|r' rs'] eqn:E; [done |].
    exfalso.
    assert (Hr' : r' ∈ group_of cols k processed) by (rewrite E; left).
    apply group_of_elem in Hr' as [Hin Hmatch].
    destruct (Hcover r' Hin) as (k' & g & Hk' & Hg & Hkg).
    rewrite (in_group_key _ _ _ _ Hk') in Hmatch.
    rewrite Forall_forall in Hnone. specialize (Hnone g Hg).
    rewrite key_eqb_sym in Hmatch.
    rewrite (key_eqb_trans _ _ _ Hmatch Hkg) in Hnone. discriminate.
  - by apply add_to_group_distinct.
  - apply (add_to_group_keys (fun k0 => length k0 = length cols)); [| done].
    by eapply group_key_length.
  - intros r' [Hin | ->%list_elem_of_singleton]%elem_of_app.
    + destruct (Hcover r' Hin) as (k' & g & Hk' & Hg & Hkg).
      destruct (add_to_group_keeps k r groups g Hg) as (g' & Hg' & Heq).
      exists k', g'. rewrite Heq. done.
    + destruct (add_to_group_has k r groups) as (g & Hg & Hkg).
      by exists k, g.
Qed.

Lemma group_rows_groups_of (cols : list string) (rs processed : list (gmap string cell))
    (groups groups' : list (list cell * list (gmap string cell))) :
  group_rows cols rs groups = inr groups' ->
  groups_of cols processed groups ->
  groups_of cols (processed ++ rs) groups'.
Proof.
  revert processed groups. induction rs as [|r rs IH]; intros processed groups; simpl.
  - intros [= <-]. by rewrite app_nil_r.
  - destruct (group_key cols r) as [e | k] eqn:Hk; [discriminate |].
    intros Hrun Hinv.
    rewrite (cons_middle r processed rs), app_assoc.
    apply (IH _ _ Hrun). by apply add_to_group_groups_of.
Qed.

Lemma groups_of_nil (cols : list string) : groups_of cols [] [].
Proof.
  split; [constructor | done | constructor |]. by intros r ?%not_elem_of_nil.
Qed.

Lemma keys_distinct_lookup (groups : list (list cell * list (gmap string cell)))
    (i j : nat) (g g' : list cell * list (gmap string cell)) :
  keys_distinct groups -> i <> j ->
  groups !! i = Some g -> groups !! j = Some g' ->
  key_eqb g.1 g'.1 = false.
Proof.
  revert i j. induction groups as [|g0 groups IH]; intros i j; [done |].
  intros [Hhead Hrest] Hij Hi Hj. rewrite Forall_forall in Hhead.
  destruct i as [|i], j as [|j]; simpl in Hi, Hj.
  - done.
  - injection Hi as ->. apply Hhead. by eapply list_elem_of_lookup_2.
  - injection Hj as ->. rewrite key_eqb_sym. apply Hhead.
    by eapply list_elem_of_lookup_2.
  - apply (IH i j); [done | congruence | done | done].
Qed.

(** *** The aggregation of one group *)

Lemma column_cells_lookup (col : string) (rs : list (gmap string cell))
    (cells : list cell) :
  column_cells col rs = inr cells ->
  Forall2 (fun r c => r !! col = Some c) rs cells.
Proof.
  revert cells. induction rs as [|r rs IH]; intros cells; simpl.
  - intros [= <-]. constructor.
  - destruct (r !! col) as [c|] eqn:Hc; [| discriminate].
    destruct (column_cells col rs) as [e | cs]; [discriminate |].
    intros [= <-]. constructor; auto.
Qed.

Lemma column_cells_total (col : string) (rs : list (gmap string cell)) :
  Forall (fun r => is_Some (r !! col)) rs ->
  exists cells, column_cells col rs = inr cells.
Proof.
  induction 1 as [|r rs [c Hc] _ [cells IH]]; simpl.
  - by eexists.
  - rewrite Hc, IH. by eexists.
Qed.

(** The numbers of a list of cells are these cells. *)
Lemma numbers_cells (col : string) (cells : list cell) (qs : list Q) :
  numbers col cells = inr qs -> cells = CNum <$> qs.
Proof.
  revert qs. induction cells as [|c cells IH]; intros qs; simpl.
  - by intros [= <-].
  - destruct c; try discriminate.
    destruct (numbers col cells) as [e | qs']; [discriminate |].
    intros [= <-]. rewrite fmap_cons. f_equal. by apply IH.
Qed.

Lemma numbers_total (col : string) (cells : list cell) :
  Forall (fun c => c = CNull \/ exists q, c = CNum q) cells ->
  exists qs, numbers col (non_null cells) = inr qs.
Proof.
  induction 1 as [|c cells [-> | [q ->]] _ [qs IH]].
  - by exists [].
  - by exists qs.
  - change (non_null (CNum q :: cells)) with (CNum q :: non_null cells).
    cbn [numbers]. rewrite IH. by eexists.
Qed.

(** One aggregation over the cells of a group: [count] is the number of
    cells, null or not; any other function is its value on the numbers
    that are the non-null cells. *)
Lemma aggregate_cells_value (stats : Statistics) (col : string) (f : AggFunction)
    (cells : list cell) (c : cell) :
  aggregate_cells stats col f cells = inr c ->
  (f = Count -> c = CNum (inject_Z (Z.of_nat (length cells)))) /\
  (f <> Count ->
     exists qs, non_null cells = CNum <$> qs /\ c = kernel stats f qs).
Proof.
  intros H. split.
  - intros ->. simpl in H. by injection H as <-.
  - intros Hf.
    assert (Hn : exists qs, numbers col (non_null cells) = inr qs /\
                            c = kernel stats f qs).
    { destruct f; try contradiction; simpl in H;
        (destruct (numbers col (non_null cells)) as [e | qs] eqn:E;
           [discriminate | injection H as <-; by exists qs]). }
    destruct Hn as (qs & Hqs & ->). exists qs. split; [| done].
    by eapply numbers_cells.
Qed.

Lemma aggregate_cells_total (stats : Statistics) (col : string) (f : AggFunction)
    (cells : list cell) :
  (f = Count \/ Forall (fun c => c = CNull \/ exists q, c = CNum q) cells) ->
  exists c, aggregate_cells stats col f cells = inr c.
Proof.
  intros [-> | Hcells]; [by eexists |].
  destruct (numbers_total col cells Hcells) as [qs Hqs].
  destruct f; simpl; rewrite ?Hqs; by eexists.
Qed.

Lemma aggregate_group_value (stats : Statistics) (aggs : list Aggregation)
    (rs : list (gmap string cell)) (out : list (string * cell)) :
  aggregate_group stats aggs rs = inr out ->
  out.*1 = agg_alias <$> aggs /\
  forall a, a ∈ aggs ->
    exists cells c,
      column_cells (agg_column a) rs = inr cells /\
      aggregate_cells stats (agg_column a) (agg_function a) cells = inr c /\
      (agg_alias a, c) ∈ out.
Proof.
  revert out. induction aggs as [|a aggs IH]; intros out; simpl.
  - intros [= <-]. split; [done |]. by intros a ?%not_elem_of_nil.
  - destruct (column_cells (agg_column a) rs) as [e | cells] eqn:Hcells;
      [discriminate |].
    destruct (aggregate_cells stats (agg_column a) (agg_function a) cells)
      as [e | c] eqn:Hc; [discriminate |].
    destruct (aggregate_group stats aggs rs) as [e | out'] eqn:Hout; [discriminate |].
    intros [= <-]. destruct (IH out' eq_refl) as [Hfst Hall].
    split; [rewrite fmap_cons; simpl; by rewrite Hfst |].
    intros a' [-> | Hin]%elem_of_cons.
    + exists cells, c. split; [done |]. split; [done | left].
    + destruct (Hall a' Hin) as (cells' & c' & H1 & H2 & H3).
      exists cells', c'. split; [done |]. split; [done | by right].
Qed.

Lemma aggregate_group_total (stats : Statistics) (aggs : list Aggregation)
    (rs : list (gmap string cell)) :
  (forall r a, r ∈ rs -> a ∈ aggs ->
     exists c, r !! agg_column a = Some c /\
               (agg_function a = Count \/ c = CNull \/ exists q, c = CNum q)) ->
  exists out, aggregate_group stats aggs rs = inr out.
Proof.
  induction aggs as [|a aggs IH]; intros Hok; simpl; [by eexists |].
  destruct (column_cells_total (agg_column a) rs) as [cells Hcells].
  { apply Forall_forall. intros r Hr.
    destruct (Hok r a Hr) as (c & Hc & _); [left | by rewrite Hc]. }
  rewrite Hcells.
  destruct (aggregate_cells_total stats (agg_column a) (agg_function a) cells)
    as [c Hc].
  { assert (Hdec : agg_function a = Count \/ agg_function a <> Count)
      by (destruct (agg_function a); (by left) || (by right)).
    destruct Hdec as [? | Hf]; [by left | right].
    apply column_cells_lookup in Hcells.
    apply Forall_forall. intros c Hin.
    apply list_elem_of_lookup in Hin as [i Hi].
    destruct (Forall2_lookup_r _ _ _ _ _ Hcells Hi) as (r & Hr & Hrc).
    destruct (Hok r a) as (c' & Hc' & Hkind);
      [by eapply list_elem_of_lookup_2 | left |].
    rewrite Hrc in Hc'. injection Hc' as <-.
    destruct Hkind as [? | ?]; [contradiction | done]. }
  rewrite Hc.
  destruct IH as [out Hout].
  { intros r a' Hr Ha'. apply Hok; [done | by right]. }
  rewrite Hout. by eexists.
Qed.

(** *** The output records *)

Lemma zip_fst_elem {A B} (l : list A) (k : list B) (x : A) :
  x ∈ (zip l k).*1 -> x ∈ l.
Proof.
  revert k. induction l as [|y l IH]; intros [|b k]; simpl;
    try (by intros ?%not_elem_of_nil).
  intros [-> | Hin]%elem_of_cons; [left | right; by eapply IH].
Qed.

Lemma zip_fst_NoDup {A B} (l : list A) (k : list B) :
  NoDup l -> NoDup (zip l k).*1.
Proof.
  intros Hl. revert k. induction Hl as [|y l Hy _ IH]; intros [|b k]; simpl;
    try constructor; [| apply IH].
  intros Hin. apply Hy. by eapply zip_fst_elem.
Qed.

Lemma zip_lookup_elem {A B} (l : list A) (k : list B) (i : nat) (x : A) (y : B) :
  l !! i = Some x -> k !! i = Some y -> (x, y) ∈ zip l k.
Proof.
  revert k i. induction l as [|a l IH]; intros [|b k] [|i]; simpl; try done.
  - intros [= ->] [= ->]. left.
  - intros Hx Hy. right. by eapply IH.
Qed.

(** Under distinct output column names the group-by tuple is found under
    the group-by columns of the output record. *)
Lemma output_record_key (cols : list string) (k : list cell)
    (out : list (string * cell)) :
  NoDup (cols ++ out.*1) ->
  length k = length cols ->
  Forall2 (fun col c =>
             (list_to_map (zip cols k ++ out)%list : gmap string cell) !! col = Some c)
          cols k.
Proof.
  intros Hnd Hlen. apply Forall2_same_length_lookup. split; [done |].
  intros i col c Hcol Hc. apply elem_of_list_to_map_1.
  - rewrite fmap_app. apply NoDup_app in Hnd as (Hcols & Hdisj & Hout).
    apply NoDup_app. split; [by apply zip_fst_NoDup |]. split; [| done].
    intros x Hx. apply Hdisj. by eapply zip_fst_elem.
  - apply elem_of_app. left. by eapply zip_lookup_elem.
Qed.

(** Under distinct output column names an aggregate is found under its
    alias in the output record. *)
Lemma output_record_alias (cols : list string) (k : list cell)
    (out : list (string * cell)) (alias : string) (c : cell) :
  NoDup (cols ++ out.*1) ->
  (alias, c) ∈ out ->
  (list_to_map (zip cols k ++ out)%list : gmap string cell) !! alias = Some c.
Proof.
  intros Hnd Hin. apply elem_of_list_to_map_1.
  - rewrite fmap_app. apply NoDup_app in Hnd as (Hcols & Hdisj & Hout).
    apply NoDup_app. split; [by apply zip_fst_NoDup |]. split; [| done].
    intros x Hx. apply Hdisj. by eapply zip_fst_elem.
  - apply elem_of_app. by right.
Qed.

Lemma aggregate_groups_value (stats : Statistics) (cfg : AggregateConfig)
    (groups : list (list cell * list (gmap string cell)))
    (outs : list (gmap string cell)) :
  aggregate_groups stats cfg groups = inr outs ->
  Forall2 (fun g o =>
             exists out, aggregate_group stats (aggregations cfg) g.2 = inr out /\
                         o = list_to_map (zip (group_by cfg) g.1 ++ out)%list)
          groups outs.
Proof.
  revert outs. induction groups as [|[k rs] groups IH]; intros outs; simpl.
  - intros [= <-]. constructor.
  - destruct (aggregate_group stats (aggregations cfg) rs) as [e | out] eqn:Hout;
      [discriminate |].
    destruct (aggregate_groups stats cfg groups) as [e | more]; [discriminate |].
    intros [= <-]. constructor; [| by apply IH].
    exists out. done.
Qed.

Lemma aggregate_groups_total (stats : Statistics) (cfg : AggregateConfig)
    (groups : list (list cell * list (gmap string cell))) :
  Forall (fun g => exists out, aggregate_group stats (aggregations cfg) g.2 = inr out)
         groups ->
  exists outs, aggregate_groups stats cfg groups = inr outs.
Proof.
  induction 1 as [|[k rs] groups [out Hout] _ [outs IH]]; simpl; [by eexists |].
  simpl in Hout. rewrite Hout, IH. by eexists.
Qed.

Lemma group_key_total (cols : list string) (r : gmap string cell) :
  (forall col, col ∈ cols -> is_Some (r !! col)) ->
  exists k, group_key cols r = inr k.
Proof.
  induction cols as [|col cols IH]; intros Hcols; simpl; [by eexists |].
  destruct (Hcols col) as [c Hc]; [left |]. rewrite Hc.
  destruct IH as [k Hk]; [intros col' Hin; apply Hcols; by right |].
  rewrite Hk. by eexists.
Qed.

Lemma group_rows_total (cols : list string) (rs : list (gmap string cell))
    (groups : list (list cell * list (gmap string cell))) :
  (forall r col, r ∈ rs -> col ∈ cols -> is_Some (r !! col)) ->
  exists groups', group_rows cols rs groups = inr groups'.
Proof.
  revert groups. induction rs as [|r rs IH]; intros groups Hrs; simpl; [by eexists |].
  destruct (group_key_total cols r) as [k Hk].
  { intros col Hcol. apply Hrs; [left | done]. }
  rewrite Hk. apply IH. intros r' col Hr' Hcol. apply Hrs; [by right | done].
Qed.

(** *** Claim about the Aggregate executor *)

(** C5: in every Aggregate step whose output column names are distinct,
    each output record stands for one group: it carries a group-by tuple
    under the group-by columns, the tuples of different output records
    differ, the group is made of all the input records with that tuple --
    those with a null in the aggregated column included -- and every input
    record is in the group of some output record.  Under its alias [count]
    is the number of records of the group, null or not, while every other
    function (sum, mean, median, min, max, std, var) is its value on the
    numbers that are the non-null cells of the aggregated column in the
    group.  The step returns on every input whose records have the columns
    it names, with numbers and nulls under the columns aggregated by a
    function other than [count].  In particular a row with a null quantity
    is excluded from [sum('quantity')] and included in
    [count('quantity')]. *)
Theorem C5_count_includes_nulls_others_exclude
    (stats : Statistics) (cfg : AggregateConfig) (d : NamedDataset) :
  NoDup (group_by cfg ++ (agg_alias <$> aggregations cfg)) ->
  (aggregable cfg d -> exists out, execute_aggregate stats cfg d = inr out) /\
  (forall out, execute_aggregate stats cfg d = inr out ->
     exists keys,
       (forall r, r ∈ rows d ->
          exists k, k ∈ keys /\ r ∈ group_of (group_by cfg) k (rows d)) /\
       (forall i j k k', i <> j -> keys !! i = Some k -> keys !! j = Some k' ->
          key_eqb k k' = false) /\
       Forall2
         (fun k o =>
            Forall2 (fun col c => o !! col = Some c) (group_by cfg) k /\
            group_of (group_by cfg) k (rows d) <> [] /\
            forall a, a ∈ aggregations cfg ->
              exists cells,
                Forall2 (fun r c => r !! agg_column a = Some c)
                        (group_of (group_by cfg) k (rows d)) cells /\
                (agg_function a = Count ->
                   o !! agg_alias a =
                     Some (CNum (inject_Z (Z.of_nat (length cells))))) /\
                (agg_function a <> Count ->
                   exists qs,
                     non_null cells = CNum <$> qs /\
                     o !! agg_alias a = Some (kernel stats (agg_function a) qs)))
         keys (rows out)) /\
  execute_aggregate stats total_and_count_by_region quantity_dataset_with_null =
    inr {| columns := ["region"; "total_quantity"; "order_count"];
           rows := [ {[ "region" := CStr "North"; "total_quantity" := CNum 30;
                        "order_count" := CNum 3 ]};
                     {[ "region" := CStr "South"; "total_quantity" := CNum 5;
                        "order_count" := CNum 1 ]} ] |}.
Proof.
  intros Hnd. split; [| split; [| vm_compute; reflexivity]].
  - intros Hagg. unfold execute_aggregate.
    destruct (group_rows_total (group_by cfg) (rows d) []) as [groups Hgroups].
    { intros r col Hr Hcol. by apply (Hagg r Hr). }
    rewrite Hgroups.
    pose proof (group_rows_groups_of _ _ [] _ _ Hgroups (groups_of_nil _))
      as [Hrows _ _ _].
    destruct (aggregate_groups_total stats cfg groups) as [outs Houts].
    { rewrite Forall_forall in *. intros g Hg. destruct (Hrows g Hg) as [Hg2 _].
      apply aggregate_group_total. intros r a Hr Ha.
      rewrite Hg2 in Hr. apply group_of_elem in Hr as [Hr _].
      by apply (Hagg r Hr). }
    rewrite Houts. by eexists.
  - intros out Hexec. unfold execute_aggregate in Hexec.
    destruct (group_rows (group_by cfg) (rows d) []) as [e | groups] eqn:Hgroups;
      [discriminate |].
    destruct (aggregate_groups stats cfg groups) as [e | outs] eqn:Houts;
      [discriminate |].
    injection Hexec as <-. simpl.
    pose proof (group_rows_groups_of _ _ [] _ _ Hgroups (groups_of_nil _))
      as [Hrows Hdist Hkeys Hcover].
    simpl in Hrows, Hcover. rewrite Forall_forall in Hrows, Hkeys.
    apply aggregate_groups_value in Houts.
    exists (groups.*1). split; [| split].
    + intros r Hr. destruct (Hcover r Hr) as (k & g & Hk & Hg & Hkg).
      exists g.1. split; [by apply list_elem_of_fmap_2 |].
      apply group_of_elem. split; [done |].
      by rewrite (in_group_key _ _ _ _ Hk).
    + intros i j k k' Hij Hi Hj.
      apply list_lookup_fmap_Some in Hi as (g & -> & Hg).
      apply list_lookup_fmap_Some in Hj as (g' & -> & Hg').
      by eapply keys_distinct_lookup.
    + apply Forall2_fmap_l. apply Forall2_same_length_lookup.
      split; [by eapply Forall2_length |].
      intros i g o Hg Ho.
      destruct (Hrows g) as [Hg2 Hne]; [by eapply list_elem_of_lookup_2 |].
      destruct (Forall2_lookup_lr _ _ _ _ _ _ Houts Hg Ho) as (out & Hout & ->).
      destruct (aggregate_group_value _ _ _ _ Hout) as [Hfst Hall].
      simpl. rewrite <- Hg2. split; [| split; [done |]].
      { apply output_record_key; [by rewrite Hfst |].
        apply Hkeys. by eapply list_elem_of_lookup_2. }
      intros a Ha.
      destruct (Hall a Ha) as (cells & c & Hcells & Hc & Hin).
      assert (Hlookup : (list_to_map (zip (group_by cfg) g.1 ++ out)%list
                           : gmap string cell) !! agg_alias a = Some c).
      { apply output_record_alias; [by rewrite Hfst | done]. }
      destruct (aggregate_cells_value _ _ _ _ _ Hc) as [Hcount Hother].
      exists cells. split; [by apply column_cells_lookup |]. split.
      * intros Hf. by rewrite Hlookup, (Hcount Hf).
      * intros Hf. destruct (Hother Hf) as (qs & Hqs & ->). by exists qs.
Qed.

(** A backend without [std] and [var]. *)
Definition no_statistics : Statistics :=
  {| variance := fun _ => CNull; standard_deviation := fun _ => CNull |}.

Example quantity_dataset_with_null_aggregable :
  aggregable total_and_count_by_region quantity_dataset_with_null.
Proof.
  intros r Hr. apply list_elem_of_In in Hr. simpl in Hr.
  destruct Hr as [<- | [<- | [<- | [<- | []]]]]; (split;
    [ intros col Hcol; apply list_elem_of_In in Hcol; simpl in Hcol;
      destruct Hcol as [<- | []]; by eexists
    | intros a Ha; apply list_elem_of_In in Ha; simpl in Ha;
      destruct Ha as [<- | [<- | []]]; eexists; (split; [reflexivity |]); simpl;
      eauto ]).
Qed.

Lemma total_and_count_names_distinct :
  NoDup (group_by total_and_count_by_region
         ++ (agg_alias <$> aggregations total_and_count_by_region)).
Proof.
  simpl. repeat (apply NoDup_cons; split;
                 [intros H; apply list_elem_of_In in H; simpl in H;
                  intuition discriminate |]).
  apply NoDup_nil_2.
Qed.

Lemma C5_witness_null_quantity_row :
  NoDup (group_by total_and_count_by_region
         ++ (agg_alias <$> aggregations total_and_count_by_region)) /\
  (aggregable total_and_count_by_region quantity_dataset_with_null ->
   exists out,
     execute_aggregate no_statistics total_and_count_by_region quantity_dataset_with_null
       = inr out) /\
  (forall out,
     execute_aggregate no_statistics total_and_count_by_region quantity_dataset_with_null
       = inr out ->
     exists keys,
       (forall r, r ∈ rows quantity_dataset_with_null ->
          exists k, k ∈ keys /\
                    r ∈ group_of (group_by total_and_count_by_region) k
                          (rows quantity_dataset_with_null)) /\
       (forall i j k k', i <> j -> keys !! i = Some k -> keys !! j = Some k' ->
          key_eqb k k' = false) /\
       Forall2
         (fun k o =>
            Forall2 (fun col c => o !! col = Some c)
                    (group_by total_and_count_by_region) k /\
            group_of (group_by total_and_count_by_region) k
              (rows quantity_dataset_with_null) <> [] /\
            forall a, a ∈ aggregations total_and_count_by_region ->
              exists cells,
                Forall2 (fun r c => r !! agg_column a = Some c)
                        (group_of (group_by total_and_count_by_region) k
                           (rows quantity_dataset_with_null)) cells /\
                (agg_function a = Count ->
                   o !! agg_alias a =
                     Some (CNum (inject_Z (Z.of_nat (length cells))))) /\
                (agg_function a <> Count ->
                   exists qs,
                     non_null cells = CNum <$> qs /\
                     o !! agg_alias a = Some (kernel no_statistics (agg_function a) qs)))
         keys (rows out)) /\
  execute_aggregate no_statistics total_and_count_by_region quantity_dataset_with_null =
    inr {| columns := ["region"; "total_quantity"; "order_count"];
           rows := [ {[ "region" := CStr "North"; "total_quantity" := CNum 30;
                        "order_count" := CNum 3 ]};
                     {[ "region" := CStr "South"; "total_quantity" := CNum 5;
                        "order_count" := CNum 1 ]} ] |}.
Proof.
  split; [exact total_and_count_names_distinct |].
  apply (C5_count_includes_nulls_others_exclude no_statistics total_and_count_by_region
           quantity_dataset_with_null).
  exact total_and_count_names_distinct.
Defined.

End AggregateStep.

(** ** Step graph validator and execution orchestrator
    (specification sections 3, 4.1, 4.5, 6 and 7) *)

Module Orchestrator.
Import Dataset.

Inductive JoinType := Inner | LeftJoin | RightJoin | Outer.

(** Modelled from the spec: the per-type step configuration as the closed
    tagged union of section 9; every non-source variant declares the
    alias(es) it consumes. *)
Inductive StepConfig :=
| SourceConfig (data_source_id table_name : string)
| FilterConfig (input : string) (cfg : FilterStep.FilterConfig)
| JoinConfig (left_source right_source : string) (join_type : JoinType)
    (left_on right_on suffix_left suffix_right : string)
| AggregateConfig (input : string) (cfg : AggregateStep.AggregateConfig)
| SelectConfig (input : string) (cols : list string) (rename : list (string * string))
| SortConfig (input : string) (cols : list string) (ascending : list bool)
| UnionConfig (sources : list string) (remove_duplicates : bool).

Inductive StepType :=
| TSource | TFilter | TJoin | TAggregate | TSelect | TSort | TUnion.

(** Modelled from the spec: Step, [{order, type, name, config, output_alias}];
    the type is the tag of the configuration. *)
Record Step := {
  order : Z;
  name : string;
  config : StepConfig;
  output_alias : string
}.

Definition step_type (s : Step) : StepType :=
  match config s with
  | SourceConfig _ _ => TSource
  | FilterConfig _ _ => TFilter
  | JoinConfig _ _ _ _ _ _ _ => TJoin
  | AggregateConfig _ _ => TAggregate
  | SelectConfig _ _ _ => TSelect
  | SortConfig _ _ _ => TSort
  | UnionConfig _ _ => TUnion
  end.

Definition is_source (s : Step) : bool :=
  match step_type s with TSource => true | _ => false end.

(** The aliases a step consumes. *)
Definition consumes (s : Step) : list string :=
  match config s with
  | SourceConfig _ _ => []
  | FilterConfig input _ | AggregateConfig input _ | SelectConfig input _ _
  | SortConfig input _ _ => [input]
  | JoinConfig l r _ _ _ _ _ => [l; r]
  | UnionConfig sources _ => sources
  end.

Record DataSource := {
  ds_type : string;
  connection_config : string
}.

(** Modelled from the spec: the result of [validate]. *)
Record ValidationResult := {
  valid : bool;
  errors : list string;
  warnings : list string
}.

(** *** The validation rules, each with its own error *)

Definition order_mismatch_message (position : nat) : string :=
  "Step order mismatch at position " +:+ pretty position.

(** Rule 1: the order values, sorted, must read 0, 1, ..., N-1. *)
Fixpoint order_errors_from (position : nat) (sorted : list Z) : list string :=
  match sorted with
  | [] => []
  | o :: rest =>
      ((if (o =? Z.of_nat position)%Z then [] else [order_mismatch_message position])
       ++ order_errors_from (S position) rest)%list
  end.

Definition order_errors (steps : list Step) : list string :=
  order_errors_from 0 (merge_sort Z.le (order <$> steps)).

(** Rule 2: the step at order 0 must be a source. *)
Definition first_step_errors (steps : list Step) : list string :=
  if existsb (fun s => (order s =? 0)%Z && negb (is_source s)) steps
  then ["The step at order 0 must be of type source"]
  else [].

Definition alias_not_found_message (s : Step) (alias : string) : string :=
  "Step " +:+ name s +:+ ": alias not found: " +:+ alias.

(** Rule 3: every consumed alias is the output alias of a step with a
    strictly smaller order. *)
Definition alias_defined_before (steps : list Step) (s : Step) (alias : string) : bool :=
  existsb (fun s' => (order s' <? order s)%Z && String.eqb (output_alias s') alias) steps.

Definition alias_errors (steps : list Step) : list string :=
  s ← steps;
  alias ← consumes s;
  if alias_defined_before steps s alias then [] else [alias_not_found_message s alias].

(** Rule 4: a join names exactly two aliases (by its shape), a union at
    least two. *)
Definition arity_errors (steps : list Step) : list string :=
  s ← steps;
  match config s with
  | UnionConfig sources _ =>
      if (length sources <? 2)%nat
      then ["Step " +:+ name s +:+ ": union requires at least two sources"]
      else []
  | _ => []
  end.

(** Rule 5: every data source of a source step resolves. *)
Definition data_source_errors (resolve : string -> option DataSource)
    (steps : list Step) : list string :=
  s ← steps;
  match config s with
  | SourceConfig data_source_id _ =>
      match resolve data_source_id with
      | Some _ => []
      | None => ["Step " +:+ name s +:+ ": data source not found: " +:+ data_source_id]
      end
  | _ => []
  end.

(** Modelled from the spec: the Step Graph Validator.  The operator/type
    rule needs a statically known upstream schema, which this model never
    has: it is deferred to execution, as the specification allows. *)
Definition validate (resolve : string -> option DataSource) (steps : list Step)
    : ValidationResult :=
  let errs := (order_errors steps ++ first_step_errors steps ++ alias_errors steps
               ++ arity_errors steps ++ data_source_errors resolve steps)%list in
  {| valid := match errs with [] => true | _ => false end;
     errors := errs;
     warnings := [] |}.

(** *** Runs *)

Inductive RunStatus := Queued | Running | Success | Failed | Partial.

Record LogEntry := {
  log_order : Z;
  log_name : string;
  log_error : option ExecError
}.

(** Modelled from the spec: PipelineRun, without its timestamps. *)
Record PipelineRun := {
  pipeline_id : string;
  status : RunStatus;
  rows_processed : nat;
  execution_log : list LogEntry;
  error_message : option string
}.

Record ExecOptions := {
  limit : option nat;
  preview_mode : bool
}.

(** Modelled from the spec: what the orchestrator consumes -- the catalog
    ([GetPipeline], [ResolveDataSource]) and the step executors
    ([execute(step, inputs)], dispatched by step type over a backend). *)
Record Collaborators := {
  GetPipeline : string -> option (list Step);
  ResolveDataSource : string -> option DataSource;
  execute_step : ExecOptions -> Step -> gmap string NamedDataset ->
                 ExecError + NamedDataset
}.

Inductive Response :=
| PipelineNotFound
| ValidationError (errors : list string)
| Completed (run_id : nat) (status : RunStatus) (rows_processed : nat)
    (data : option NamedDataset) (error_message : option string).

Definition step_le (a b : Step) : Prop := (order a <= order b)%Z.

#[global] Instance step_le_dec : RelDecision step_le.
Proof. intros a b. unfold step_le. apply _. Defined.

Definition error_text (e : ExecError) : string :=
  match e with
  | DataSourceError m => "DataSourceError: " +:+ m
  | SchemaError m => "SchemaError: " +:+ m
  | ExecutionTimeout => "ExecutionTimeout: the run exceeded its time budget"
  end.

Definition failure_message (s : Step) (e : ExecError) : string :=
  "Step " +:+ pretty (order s) +:+ " (" +:+ name s +:+ ") failed: " +:+ error_text e.

(** Steps in the given order; the first failure aborts the rest. *)
Fixpoint run_steps (exec : Step -> gmap string NamedDataset -> ExecError + NamedDataset)
    (steps : list Step) (aliases : gmap string NamedDataset)
    (last : option NamedDataset) (log : list LogEntry)
    : list LogEntry * (Step * ExecError + option NamedDataset) :=
  match steps with
  | [] => (log, inr last)
  | s :: rest =>
      match exec s aliases with
      | inl e =>
          ((log ++ [ {| log_order := order s; log_name := name s;
                        log_error := Some e |} ])%list,
           inl (s, e))
      | inr d =>
          run_steps exec rest (<[output_alias s := d]> aliases) (Some d)
            (log ++ [ {| log_order := order s; log_name := name s;
                         log_error := None |} ])%list
      end
  end.

Definition CreateRun (runs : gmap nat PipelineRun) (pid : string)
    : nat * gmap nat PipelineRun :=
  let run_id := fresh (dom runs) in
  (run_id,
   <[run_id := {| pipeline_id := pid; status := Running; rows_processed := 0;
                  execution_log := []; error_message := None |}]> runs).

Definition UpdateRun (runs : gmap nat PipelineRun) (run_id : nat) (run : PipelineRun)
    : gmap nat PipelineRun :=
  <[run_id := run]> runs.

(** Modelled from the spec: ExecutePipeline.  Validation comes first and a
    validation error creates no run; otherwise a run is created, the steps
    run by ascending order, and the run is completed once. *)
Definition ExecutePipeline (env : Collaborators) (runs : gmap nat PipelineRun)
    (pid : string) (opts : ExecOptions) : gmap nat PipelineRun * Response :=
  match GetPipeline env pid with
  | None => (runs, PipelineNotFound)
  | Some steps =>
      let v := validate (ResolveDataSource env) steps in
      if valid v then
        let '(run_id, runs1) := CreateRun runs pid in
        match run_steps (execute_step env opts) (merge_sort step_le steps) ∅ None [] with
        | (log, inr last) =>
            let n := match last with Some d => length (rows d) | None => 0%nat end in
            (UpdateRun runs1 run_id
               {| pipeline_id := pid; status := Success; rows_processed := n;
                  execution_log := log; error_message := None |},
             Completed run_id Success n last None)
        | (log, inl (s, e)) =>
            (UpdateRun runs1 run_id
               {| pipeline_id := pid; status := Failed; rows_processed := 0;
                  execution_log := log;
                  error_message := Some (failure_message s e) |},
             Completed run_id Failed 0 None (Some (failure_message s e)))
        end
      else (runs, ValidationError (errors v))
  end.

(** Modelled from the spec: Validate. *)
Definition Validate (env : Collaborators) (pid : string) : option ValidationResult :=
  validate (ResolveDataSource env) <$> GetPipeline env pid.

(** *** Example data: a fixture catalog and backend *)

Definition null_statistics : AggregateStep.Statistics :=
  {| AggregateStep.variance := fun _ => CNull;
     AggregateStep.standard_deviation := fun _ => CNull |}.

(** A fixture executor: one table, Filter and Aggregate evaluated in
    process, the other operations unavailable. *)
Definition fixture_execute_step (opts : ExecOptions) (s : Step)
    (aliases : gmap string NamedDataset) : ExecError + NamedDataset :=
  match config s with
  | SourceConfig _ table =>
      if String.eqb table "sales_data" then
        inr {| columns := columns FilterStep.price_dataset;
               rows := match limit opts with
                       | Some n => take n (rows FilterStep.price_dataset)
                       | None => rows FilterStep.price_dataset
                       end |}
      else inl (DataSourceError ("Table not found: " +:+ table))
  | FilterConfig input cfg =>
      match aliases !! input with
      | Some d => FilterStep.execute_filter cfg d
      | None => inl (SchemaError "No input data for filter operation")
      end
  | AggregateConfig input cfg =>
      match aliases !! input with
      | Some d => AggregateStep.execute_aggregate null_statistics cfg d
      | None => inl (SchemaError "No input data for aggregate operation")
      end
  | _ => inl (SchemaError "Operation not available in the fixture backend")
  end.

Definition load_sales : Step :=
  {| order := 0; name := "Load Sales Data";
     config := SourceConfig "ds-sales" "sales_data"; output_alias := "sales" |}.

Definition high_value (position : Z) (input : string) : Step :=
  {| order := position; name := "High Value Filter";
     config := FilterConfig input (FilterStep.comparison_filter "unit_price"
                                     FilterStep.OpGt 1000);
     output_alias := "high_value" |}.

Definition missing_column_filter : Step :=
  {| order := 1; name := "Discount Filter";
     config := FilterConfig "sales" (FilterStep.comparison_filter "discount"
                                       FilterStep.OpGt 0);
     output_alias := "discounted" |}.

Definition fixture_pipelines : gmap string (list Step) :=
  {[ "p-valid" := [load_sales; high_value 1 "sales"];
     "p-missing-alias" := [load_sales; high_value 1 "orders"];
     "p-order-gap" := [load_sales; high_value 2 "sales"];
     "p-missing-column" := [load_sales; missing_column_filter] ]}.

Definition fixture : Collaborators :=
  {| GetPipeline := fun pid => fixture_pipelines !! pid;
     ResolveDataSource := fun id =>
       if String.eqb id "ds-sales"
       then Some {| ds_type := "csv"; connection_config := "sales.csv" |}
       else None;
     execute_step := fixture_execute_step |}.

Definition preview : ExecOptions := {| limit := Some 100%nat; preview_mode := true |}.

Example validate_valid_pipeline :
  Validate fixture "p-valid" = Some {| valid := true; errors := []; warnings := [] |}.
Proof. vm_compute. reflexivity. Qed.

Example validate_order_gap :
  Validate fixture "p-order-gap" =
  Some {| valid := false; errors := ["Step order mismatch at position 1"];
          warnings := [] |}.
Proof. vm_compute. reflexivity. Qed.

Example validate_missing_alias :
  Validate fixture "p-missing-alias" =
  Some {| valid := false;
          errors := ["Step High Value Filter: alias not found: orders"];
          warnings := [] |}.
Proof. vm_compute. reflexivity. Qed.

Example execute_valid_pipeline :
  ExecutePipeline fixture ∅ "p-valid" preview =
  ({[ 0%nat := {| pipeline_id := "p-valid"; status := Success; rows_processed := 1;
                  execution_log :=
                    [ {| log_order := 0; log_name := "Load Sales Data";
                         log_error := None |};
                      {| log_order := 1; log_name := "High Value Filter";
                         log_error := None |} ];
                  error_message := None |} ]},
   Completed 0 Success 1
     (Some {| columns := ["product"; "unit_price"];
              rows := [FilterStep.sales_row "Laptop" 1500] |})
     None).
Proof. vm_compute. reflexivity. Qed.

Example execute_missing_column :
  (ExecutePipeline fixture ∅ "p-missing-column" preview).2 =
  Completed 0 Failed 0 None
    (Some "Step 1 (Discount Filter) failed: SchemaError: Column not found: discount").
Proof. vm_compute. reflexivity. Qed.

(** *** Facts about the validator *)

Lemma order_errors_from_nil (position : nat) (sorted : list Z) :
  order_errors_from position sorted = [] <->
  sorted = Z.of_nat <$> seq position (length sorted).
Proof.
  revert position. induction sorted as [|o rest IH]; intros position; [done |].
  cbn [order_errors_from length seq]. rewrite fmap_cons.
  destruct (Z.eqb_spec o (Z.of_nat position)) as [-> | Hne].
  - rewrite app_nil_l, IH. split; [intros Heq; by f_equal | intros [= Heq]; exact Heq].
  - split; [discriminate | intros [= ? _]; contradiction].
Qed.

Lemma order_errors_from_elem (position : nat) (sorted : list Z) (e : string) :
  e ∈ order_errors_from position sorted ->
  exists p, (position <= p < position + length sorted)%nat /\
            e = order_mismatch_message p.
Proof.
  revert position. induction sorted as [|o rest IH]; intros position; simpl.
  - by intros ?%not_elem_of_nil.
  - rewrite elem_of_app. intros [He | He].
    + destruct (o =? Z.of_nat position)%Z; [by apply not_elem_of_nil in He |].
      apply list_elem_of_singleton in He. exists position. split; [lia | done].
    + apply IH in He as (p & Hp & ->). exists p. split; [lia | done].
Qed.

Lemma seq_sorted (start n : nat) : Sorted Z.le (Z.of_nat <$> seq start n).
Proof.
  revert start. induction n as [|n IH]; intros start; simpl; constructor.
  - apply IH.
  - destruct n; simpl; constructor. lia.
Qed.

(** The order rule accepts exactly the step lists whose order values form
    the set 0, ..., N-1. *)
Lemma order_errors_nil (steps : list Step) :
  order_errors steps = [] <->
  order <$> steps ≡ₚ Z.of_nat <$> seq 0 (length steps).
Proof.
  unfold order_errors. rewrite order_errors_from_nil.
  pose proof (merge_sort_Permutation Z.le (order <$> steps)) as Hperm.
  assert (Hlen : length (merge_sort Z.le (order <$> steps)) = length steps).
  { rewrite Hperm. apply length_fmap. }
  rewrite Hlen. split.
  - intros Heq. by rewrite <- Heq.
  - intros Hset. apply (Sorted_unique Z.le).
    + apply Sorted_merge_sort; apply _.
    + apply seq_sorted.
    + by rewrite Hperm.
Qed.

Lemma validate_errors_order (resolve : string -> option DataSource)
    (steps : list Step) (e : string) :
  e ∈ order_errors steps -> e ∈ errors (validate resolve steps).
Proof. intros He. simpl. rewrite elem_of_app. by left. Qed.

Lemma valid_iff_no_errors (resolve : string -> option DataSource) (steps : list Step) :
  valid (validate resolve steps) = true <-> errors (validate resolve steps) = [].
Proof. simpl. destruct (_ ++ _)%list; split; congruence. Qed.

Lemma ExecutePipeline_invalid (env : Collaborators) (runs : gmap nat PipelineRun)
    (pid : string) (opts : ExecOptions) (steps : list Step) :
  GetPipeline env pid = Some steps ->
  valid (validate (ResolveDataSource env) steps) = false ->
  ExecutePipeline env runs pid opts =
    (runs, ValidationError (errors (validate (ResolveDataSource env) steps))).
Proof. intros Hget Hinv. unfold ExecutePipeline. by rewrite Hget, Hinv. Qed.

Lemma failure_message_nonempty (s : Step) (e : ExecError) : failure_message s e <> "".
Proof. unfold failure_message. discriminate. Qed.

(** *** Sequential execution, stated apart from the orchestrator *)

(** [all_succeed exec steps aliases last aliases' last']: run one after
    the other from the alias table [aliases], each step of [steps] returns
    a dataset, which is stored under the step's output alias; [aliases']
    is the table and [last'] the last result afterwards. *)
Inductive all_succeed
    (exec : Step -> gmap string NamedDataset -> ExecError + NamedDataset)
    : list Step -> gmap string NamedDataset -> option NamedDataset ->
      gmap string NamedDataset -> option NamedDataset -> Prop :=
| all_succeed_nil aliases last :
    all_succeed exec [] aliases last aliases last
| all_succeed_cons s rest aliases last d aliases' last' :
    exec s aliases = inr d ->
    all_succeed exec rest (<[output_alias s := d]> aliases) (Some d) aliases' last' ->
    all_succeed exec (s :: rest) aliases last aliases' last'.

Definition ok_entry (s : Step) : LogEntry :=
  {| log_order := order s; log_name := name s; log_error := None |}.

Definition error_entry (s : Step) (e : ExecError) : LogEntry :=
  {| log_order := order s; log_name := name s; log_error := Some e |}.

Definition rows_of (last : option NamedDataset) : nat :=
  match last with Some d => length (rows d) | None => 0%nat end.

(** The record of a run all of whose steps succeeded, and the record of a
    run whose step [s] failed with [e] after the steps [before]. *)
Definition succeeded_run (pid : string) (steps : list Step)
    (last : option NamedDataset) : PipelineRun :=
  {| pipeline_id := pid; status := Success; rows_processed := rows_of last;
     execution_log := ok_entry <$> steps; error_message := None |}.

Definition failed_run (pid : string) (before : list Step) (s : Step) (e : ExecError)
    : PipelineRun :=
  {| pipeline_id := pid; status := Failed; rows_processed := 0;
     execution_log := ((ok_entry <$> before) ++ [error_entry s e])%list;
     error_message := Some (failure_message s e) |}.

Lemma run_steps_all_succeed exec steps aliases last aliases' last' log :
  all_succeed exec steps aliases last aliases' last' ->
  run_steps exec steps aliases last log =
    ((log ++ (ok_entry <$> steps))%list, inr last').
Proof.
  intros Hall. revert log.
  induction Hall as [aliases last | s rest aliases last d aliases' last' Hs _ IH];
    intros log.
  - simpl. by rewrite app_nil_r.
  - cbn [run_steps]. rewrite Hs, IH, fmap_cons, <- app_assoc. reflexivity.
Qed.

Lemma run_steps_first_failure exec before s after aliases last aliases' last' e log :
  all_succeed exec before aliases last aliases' last' ->
  exec s aliases' = inl e ->
  run_steps exec (before ++ s :: after) aliases last log =
    ((log ++ (ok_entry <$> before) ++ [error_entry s e])%list, inl (s, e)).
Proof.
  intros Hall He. revert log.
  induction Hall as [aliases last | s0 rest aliases last d aliases' last' Hs _ IH];
    intros log.
  - cbn [app run_steps fmap list_fmap]. by rewrite He.
  - rewrite <- app_comm_cons. cbn [run_steps].
    rewrite Hs, (IH He), fmap_cons, <- !app_assoc. reflexivity.
Qed.

(** Either every step succeeds, or there is a first step that fails. *)
Lemma all_succeed_or_first_failure exec steps aliases last :
  (exists aliases' last', all_succeed exec steps aliases last aliases' last') \/
  (exists before s after aliases' last' e,
     steps = (before ++ s :: after)%list /\
     all_succeed exec before aliases last aliases' last' /\
     exec s aliases' = inl e).
Proof.
  revert aliases last. induction steps as [|s rest IH]; intros aliases last.
  - left. exists aliases, last. constructor.
  - destruct (exec s aliases) as [e | d] eqn:Hs.
    + right. exists [], s, rest, aliases, last, e.
      split; [reflexivity |]. split; [constructor | exact Hs].
    + destruct (IH (<[output_alias s := d]> aliases) (Some d))
        as [(aliases' & last' & Hall)
           | (before & s' & after & aliases' & last' & e & -> & Hall & He)].
      * left. exists aliases', last'. by econstructor.
      * right. exists (s :: before), s', after, aliases', last', e.
        split; [reflexivity |]. split; [by econstructor | exact He].
Qed.

Example valid_pipeline_succeeds :
  exists aliases last,
    all_succeed (execute_step fixture preview)
      (merge_sort step_le [load_sales; high_value 1 "sales"]) ∅ None aliases last.
Proof.
  eexists _, _. change (merge_sort step_le [load_sales; high_value 1 "sales"])
    with [load_sales; high_value 1 "sales"].
  eapply all_succeed_cons; [vm_compute; reflexivity |].
  eapply all_succeed_cons; [vm_compute; reflexivity |].
  apply all_succeed_nil.
Qed.

Example missing_column_fails_at_filter :
  valid (validate (ResolveDataSource fixture) [load_sales; missing_column_filter])
    = true /\
  exists aliases last,
    merge_sort step_le [load_sales; missing_column_filter] =
      ([load_sales] ++ missing_column_filter :: [])%list /\
    all_succeed (execute_step fixture preview) [load_sales] ∅ None aliases last /\
    execute_step fixture preview missing_column_filter aliases =
      inl (SchemaError "Column not found: discount").
Proof.
  split; [vm_compute; reflexivity |].
  eexists _, _. split; [vm_compute; reflexivity |]. split.
  - eapply all_succeed_cons; [vm_compute; reflexivity | apply all_succeed_nil].
  - vm_compute. reflexivity.
Qed.

(** *** Claims about validation and run records *)

(** C6: a pipeline whose step order values do not form the exact set
    0, ..., N-1 (a gap or a duplicate) fails validation with an error that
    names the order rule, and ExecutePipeline answers with that validation
    error: no run is created, no step runs and the steps are not
    renumbered. *)
Theorem C6_step_order_rule
    (env : Collaborators) (runs : gmap nat PipelineRun) (pid : string)
    (opts : ExecOptions) (steps : list Step) :
  GetPipeline env pid = Some steps ->
  ~ (order <$> steps ≡ₚ Z.of_nat <$> seq 0 (length steps)) ->
  valid (validate (ResolveDataSource env) steps) = false /\
  (exists position,
     (position < length steps)%nat /\
     order_mismatch_message position ∈ errors (validate (ResolveDataSource env) steps)) /\
  Validate env pid = Some (validate (ResolveDataSource env) steps) /\
  ExecutePipeline env runs pid opts =
    (runs, ValidationError (errors (validate (ResolveDataSource env) steps))).
Proof.
  intros Hget Hset.
  assert (Herr : order_errors steps <> []).
  { intros Hnil. apply Hset. by apply order_errors_nil. }
  assert (Hinv : valid (validate (ResolveDataSource env) steps) = false).
  { destruct (valid _) eqn:E; [| done].
    apply valid_iff_no_errors in E. simpl in E.
    apply app_eq_nil in E as [E _]. contradiction. }
  split; [done |]. split.
  - destruct (order_errors steps) as [|e es] eqn:E; [done |].
    assert (He : e ∈ order_errors steps) by (rewrite E; left).
    pose proof He as He'. unfold order_errors in He'.
    apply order_errors_from_elem in He' as (p & Hp & ->).
    exists p. split.
    + rewrite (merge_sort_Permutation Z.le), length_fmap in Hp. lia.
    + by apply validate_errors_order.
  - split; [unfold Validate; by rewrite Hget |].
    by apply ExecutePipeline_invalid.
Qed.

Lemma C6_witness_order_gap :
  GetPipeline fixture "p-order-gap" = Some [load_sales; high_value 2 "sales"] /\
  ~ (order <$> [load_sales; high_value 2 "sales"] ≡ₚ
     Z.of_nat <$> seq 0 (length [load_sales; high_value 2 "sales"])) /\
  valid (validate (ResolveDataSource fixture) [load_sales; high_value 2 "sales"])
    = false /\
  (exists position,
     (position < length [load_sales; high_value 2 "sales"])%nat /\
     order_mismatch_message position ∈
       errors (validate (ResolveDataSource fixture)
                 [load_sales; high_value 2 "sales"])) /\
  Validate fixture "p-order-gap" =
    Some (validate (ResolveDataSource fixture) [load_sales; high_value 2 "sales"]) /\
  ExecutePipeline fixture ∅ "p-order-gap" preview =
    (∅, ValidationError
          (errors (validate (ResolveDataSource fixture)
                     [load_sales; high_value 2 "sales"]))).
Proof.
  assert (Hgap : ~ (order <$> [load_sales; high_value 2 "sales"] ≡ₚ
                    Z.of_nat <$> seq 0 (length [load_sales; high_value 2 "sales"]))).
  { simpl. intros Hperm.
    assert (Hin : (2%Z : Z) ∈ [0%Z; 1%Z]).
    { rewrite <- Hperm. right. left. }
    apply list_elem_of_In in Hin. simpl in Hin. intuition discriminate. }
  split; [reflexivity |]. split; [exact Hgap |].
  apply (C6_step_order_rule fixture ∅ "p-order-gap" preview
           [load_sales; high_value 2 "sales"]); [reflexivity | exact Hgap].
Defined.

(** C7: validation failure is atomic with respect to run records, and
    every error after validation completes the run record.  A pipeline
    that fails validation leaves the run store as it was and is answered
    with the validation errors.  A pipeline that passes validation gets
    exactly one new run record: when every step, taken by ascending order,
    succeeds, the record is completed as success with one log entry per
    step; when a step fails after the steps before it succeeded, the
    record is completed as failed, with a non-empty message that names the
    failing step and its error, with log entries up to that step and none
    after it; and one of the two is always the case.  For example a
    pipeline whose second step references the non-existent alias [orders]
    fails validation with an alias-not-found error and ExecutePipeline
    creates no run for it. *)
Theorem C7_validation_failure_creates_no_run
    (env : Collaborators) (runs : gmap nat PipelineRun) (pid : string)
    (opts : ExecOptions) (steps : list Step) :
  GetPipeline env pid = Some steps ->
  (valid (validate (ResolveDataSource env) steps) = false ->
     ExecutePipeline env runs pid opts =
       (runs, ValidationError (errors (validate (ResolveDataSource env) steps)))) /\
  (valid (validate (ResolveDataSource env) steps) = true ->
     exists run_id,
       runs !! run_id = None /\
       (forall aliases last,
          all_succeed (execute_step env opts) (merge_sort step_le steps) ∅ None
            aliases last ->
          ExecutePipeline env runs pid opts =
            (<[run_id := succeeded_run pid (merge_sort step_le steps) last]> runs,
             Completed run_id Success (rows_of last) last None)) /\
       (forall before s after aliases last e,
          merge_sort step_le steps = (before ++ s :: after)%list ->
          all_succeed (execute_step env opts) before ∅ None aliases last ->
          execute_step env opts s aliases = inl e ->
          s ∈ steps /\
          failure_message s e <> "" /\
          ExecutePipeline env runs pid opts =
            (<[run_id := failed_run pid before s e]> runs,
             Completed run_id Failed 0 None (Some (failure_message s e)))) /\
       ((exists aliases last,
           all_succeed (execute_step env opts) (merge_sort step_le steps) ∅ None
             aliases last) \/
        (exists before s after aliases last e,
           merge_sort step_le steps = (before ++ s :: after)%list /\
           all_succeed (execute_step env opts) before ∅ None aliases last /\
           execute_step env opts s aliases = inl e))) /\
  (Validate fixture "p-missing-alias" =
     Some {| valid := false;
             errors := [alias_not_found_message (high_value 1 "orders") "orders"];
             warnings := [] |} /\
   forall runs0 opts0,
     ExecutePipeline fixture runs0 "p-missing-alias" opts0 =
       (runs0, ValidationError
                 [alias_not_found_message (high_value 1 "orders") "orders"])).
Proof.
  intros Hget. split; [by apply ExecutePipeline_invalid |]. split.
  - intros Hvalid. exists (fresh (dom runs)).
    split; [apply not_elem_of_dom, is_fresh |].
    split; [| split; [| apply all_succeed_or_first_failure]].
    + intros aliases last Hall.
      unfold ExecutePipeline. rewrite Hget, Hvalid. unfold CreateRun, UpdateRun.
      rewrite (run_steps_all_succeed _ _ _ _ _ _ [] Hall).
      by rewrite insert_insert_eq.
    + intros before s after aliases last e Hsorted Hall He.
      split; [| split; [apply failure_message_nonempty |]].
      * rewrite <- (merge_sort_Permutation step_le steps), Hsorted.
        apply elem_of_app. right. left.
      * unfold ExecutePipeline. rewrite Hget, Hvalid. unfold CreateRun, UpdateRun.
        rewrite Hsorted, (run_steps_first_failure _ _ _ after _ _ _ _ _ [] Hall He).
        by rewrite insert_insert_eq.
  - split; [vm_compute; reflexivity |].
    intros runs0 opts0.
    apply (ExecutePipeline_invalid fixture runs0 "p-missing-alias" opts0
             [load_sales; high_value 1 "orders"]); vm_compute; reflexivity.
Qed.

Lemma C7_witness_missing_column :
  GetPipeline fixture "p-missing-column" = Some [load_sales; missing_column_filter] /\
  (valid (validate (ResolveDataSource fixture) [load_sales; missing_column_filter])
     = false ->
     ExecutePipeline fixture ∅ "p-missing-column" preview =
       (∅, ValidationError
             (errors (validate (ResolveDataSource fixture)
                        [load_sales; missing_column_filter])))) /\
  (valid (validate (ResolveDataSource fixture) [load_sales; missing_column_filter])
     = true ->
     exists run_id,
       (∅ : gmap nat PipelineRun) !! run_id = None /\
       (forall aliases last,
          all_succeed (execute_step fixture preview)
            (merge_sort step_le [load_sales; missing_column_filter]) ∅ None
            aliases last ->
          ExecutePipeline fixture ∅ "p-missing-column" preview =
            (<[run_id := succeeded_run "p-missing-column"
                           (merge_sort step_le [load_sales; missing_column_filter])
                           last]> ∅,
             Completed run_id Success (rows_of last) last None)) /\
       (forall before s after aliases last e,
          merge_sort step_le [load_sales; missing_column_filter] =
            (before ++ s :: after)%list ->
          all_succeed (execute_step fixture preview) before ∅ None aliases last ->
          execute_step fixture preview s aliases = inl e ->
          s ∈ [load_sales; missing_column_filter] /\
          failure_message s e <> "" /\
          ExecutePipeline fixture ∅ "p-missing-column" preview =
            (<[run_id := failed_run "p-missing-column" before s e]> ∅,
             Completed run_id Failed 0 None (Some (failure_message s e)))) /\
       ((exists aliases last,
           all_succeed (execute_step fixture preview)
             (merge_sort step_le [load_sales; missing_column_filter]) ∅ None
             aliases last) \/
        (exists before s after aliases last e,
           merge_sort step_le [load_sales; missing_column_filter] =
             (before ++ s :: after)%list /\
           all_succeed (execute_step fixture preview) before ∅ None aliases last /\
           execute_step fixture preview s aliases = inl e))) /\
  (Validate fixture "p-missing-alias" =
     Some {| valid := false;
             errors := [alias_not_found_message (high_value 1 "orders") "orders"];
             warnings := [] |} /\
   forall runs0 opts0,
     ExecutePipeline fixture runs0 "p-missing-alias" opts0 =
       (runs0, ValidationError
                 [alias_not_found_message (high_value 1 "orders") "orders"])).
Proof.
  split; [reflexivity |].
  apply (C7_validation_failure_creates_no_run fixture ∅ "p-missing-column" preview
           [load_sales; missing_column_filter]).
  reflexivity.
Defined.

End Orchestrator.

(** ** Further properties of the chart utilities *)

Module ChartProperties.
Import Js Types ChartUtils.

(** [a] is not placed after [b] by the comparator: [cmp(a, b) > 0] fails. *)
Definition in_order {A} (cmp : A -> A -> float) (a b : A) : Prop :=
  PrimFloat.ltb 0%float (cmp a b) = false.

(** The comparator ties [z] and [a]: neither goes after the other. *)
Definition tieb {A} (cmp : A -> A -> float) (z a : A) : bool :=
  negb (PrimFloat.ltb 0%float (cmp z a)) && negb (PrimFloat.ltb 0%float (cmp a z)).

(** A comparator that is consistent on the elements of [l]: the sign of
    [cmp(a, b)] is antisymmetric and "not after" is transitive. *)
Definition consistent_on {A} (cmp : A -> A -> float) (l : list A) : Prop :=
  (forall a b, a ∈ l -> b ∈ l ->
     PrimFloat.ltb 0%float (cmp a b) = true -> in_order cmp b a) /\
  (forall a b c, a ∈ l -> b ∈ l -> c ∈ l ->
     in_order cmp a b -> in_order cmp b c -> in_order cmp a c).

(** The label and the value [transformDataForECharts] reads off a row. *)
Definition row_label (rt : Runtime) (config : ChartConfiguration)
    (row : gmap string jsval) : string :=
  String_ rt (or_else (get row (property_key (x_axis_column config))) (JStr "")).

Definition row_value (rt : Runtime) (col : string) (row : gmap string jsval) : float :=
  Number_ rt (or_else (get row col) (JNum 0%float)).

Definition three_rows : list (gmap string jsval) :=
  [ {[ "region" := JStr "South"; "total_sales" := JNum 50%float ]};
    {[ "region" := JStr "North"; "total_sales" := JNum 150%float ]};
    {[ "region" := JStr "East"; "total_sales" := JNum 50%float ]} ].

Definition bar_config : ChartConfiguration :=
  {| chart_type := Bar; x_axis_column := Some "region";
     y_axis_columns := ["total_sales"]; category_column := None;
     value_column := None; sort_order := Some Descending; sort_by := Some ByValue;
     color_mode := Some Conditional;
     conditional_colors := Some default_conditional_colors |}.

(** *** Facts about the sort *)

Lemma sort_insert_elem {A} (cmp : A -> A -> float) (x z : A) (l : list A) :
  z ∈ sort_insert cmp x l <-> z = x \/ z ∈ l.
Proof. rewrite sort_insert_perm. apply elem_of_cons. Qed.

Lemma array_sort_elem {A} (cmp : A -> A -> float) (z : A) (l : list A) :
  z ∈ array_sort cmp l <-> z ∈ l.
Proof. by rewrite array_sort_perm. Qed.

Lemma sort_insert_sorted {A} (cmp : A -> A -> float) (L : list A) (x : A) (l : list A) :
  consistent_on cmp L -> x ∈ L -> (forall y, y ∈ l -> y ∈ L) ->
  StronglySorted (in_order cmp) l ->
  StronglySorted (in_order cmp) (sort_insert cmp x l).
Proof.
  intros [Hanti Htrans] Hx. induction l as [|y l IH]; intros HL Hs; simpl.
  - repeat constructor.
  - apply StronglySorted_inv in Hs as [Hs Hy].
    assert (HyL : y ∈ L) by (apply HL; left).
    assert (HlL : forall z, z ∈ l -> z ∈ L) by (intros z Hz; apply HL; by right).
    destruct (PrimFloat.ltb 0%float (cmp x y)) eqn:E.
    + constructor; [by apply IH |].
      apply Forall_forall. intros z Hz. apply sort_insert_elem in Hz as [-> | Hz].
      * by apply Hanti.
      * rewrite Forall_forall in Hy. by apply Hy.
    + constructor; [by constructor |].
      constructor; [exact E |].
      apply Forall_forall. intros z Hz. rewrite Forall_forall in Hy.
      apply (Htrans x y z); auto.
Qed.

Lemma array_sort_sorted {A} (cmp : A -> A -> float) (L l : list A) :
  consistent_on cmp L -> (forall y, y ∈ l -> y ∈ L) ->
  StronglySorted (in_order cmp) (array_sort cmp l).
Proof.
  intros Hc. induction l as [|x l IH]; intros HL; simpl; [constructor |].
  apply (sort_insert_sorted cmp L); auto.
  - apply HL. left.
  - intros y Hy. apply array_sort_elem in Hy. apply HL. by right.
  - apply IH. intros y Hy. apply HL. by right.
Qed.

Lemma sort_insert_stable {A} (cmp : A -> A -> float) (L : list A) (z x : A) (l : list A) :
  consistent_on cmp L -> z ∈ L -> x ∈ L -> (forall y, y ∈ l -> y ∈ L) ->
  List.filter (tieb cmp z) (sort_insert cmp x l) = List.filter (tieb cmp z) (x :: l).
Proof.
  intros [Hanti Htrans] Hz Hx. induction l as [|y l IH]; intros HL; [done |].
  assert (HyL : y ∈ L) by (apply HL; left).
  cbn [sort_insert]. destruct (PrimFloat.ltb 0%float (cmp x y)) eqn:E; [| done].
  cbn [List.filter]. rewrite IH by (intros w Hw; apply HL; by right).
  cbn [List.filter].
  destruct (tieb cmp z x) eqn:Ex; destruct (tieb cmp z y) eqn:Ey; try done.
  exfalso. unfold tieb in Ex, Ey.
  apply andb_true_iff in Ex as [_ Hxz]. apply andb_true_iff in Ey as [Hzy _].
  apply negb_true_iff in Hxz, Hzy.
  pose proof (Htrans x z y Hx Hz HyL Hxz Hzy) as Hxy.
  unfold in_order in Hxy. congruence.
Qed.

Lemma array_sort_stable {A} (cmp : A -> A -> float) (L : list A) (z : A) (l : list A) :
  consistent_on cmp L -> z ∈ L -> (forall y, y ∈ l -> y ∈ L) ->
  List.filter (tieb cmp z) (array_sort cmp l) = List.filter (tieb cmp z) l.
Proof.
  intros Hc Hz. induction l as [|x l IH]; intros HL; [done |].
  cbn [array_sort]. rewrite (sort_insert_stable cmp L); auto.
  - cbn [List.filter]. rewrite IH; [done |]. intros y Hy. apply HL. by right.
  - apply HL. left.
  - intros y Hy. apply array_sort_elem in Hy. apply HL. by right.
Qed.

Lemma array_sort_all_in_order {A} (cmp : A -> A -> float) (l : list A) :
  (forall a b, a ∈ l -> b ∈ l -> in_order cmp a b) ->
  array_sort cmp l = l.
Proof.
  induction l as [|x l IH]; intros H; [done |].
  cbn [array_sort]. rewrite IH by (intros a b Ha Hb; apply H; by right).
  destruct l as [|y l]; [done |].
  cbn [sort_insert]. rewrite (H x y); [done | left | right; left].
Qed.

(** *** Facts about the inferred configuration *)

Lemma finalMeasures_elem (response : QueryResponse) (y : string) :
  y ∈ finalMeasures response -> y ∈ columns response.
Proof.
  unfold finalMeasures.
  destruct (0 <? length (filter _ (columns response)))%nat.
  - intros Hy. by apply list_elem_of_filter in Hy as [_ Hy].
  - destruct (columns response) as [|c cs]; simpl; [done |].
    rewrite drop_0. intros Hy. by right.
Qed.

Lemma finalMeasures_NoDup (response : QueryResponse) :
  NoDup (columns response) -> NoDup (finalMeasures response).
Proof.
  intros Hnd. unfold finalMeasures.
  destruct (0 <? length (filter _ (columns response)))%nat.
  - by apply NoDup_filter.
  - destruct (columns response) as [|c cs]; simpl; [constructor |].
    rewrite drop_0. by apply NoDup_cons in Hnd as [_ Hnd].
Qed.

Lemma y_axis_inferred (response : QueryResponse) :
  y_axis_columns (inferChartConfig response) = finalMeasures response.
Proof.
  simpl. by destruct (finalMeasures response).
Qed.

Lemma finalMeasures_nonempty (response : QueryResponse) :
  finalMeasures response <> [] <->
  (exists c, c ∈ columns response /\ is_measure_column response c = true) \/
  (2 <= length (columns response))%nat.
Proof.
  unfold finalMeasures.
  destruct (filter (fun col => is_measure_column response col = true)
              (columns response)) as [|m ms] eqn:E; simpl.
  - split.
    + intros Hne. right. destruct (columns response) as [|c [|c' cs]]; simpl in *;
        try done. lia.
    + intros [(c & Hc & Hm) | Hlen].
      * exfalso. assert (Hin : c ∈ filter (fun col => is_measure_column response col = true)
                                 (columns response)) by (by apply list_elem_of_filter).
        rewrite E in Hin. by apply not_elem_of_nil in Hin.
      * destruct (columns response) as [|c [|c' cs]]; simpl in *; try lia. done.
  - split; [| done]. intros _. left. exists m.
    assert (Hin : m ∈ filter (fun col => is_measure_column response col = true)
                    (columns response)) by (rewrite E; left).
    by apply list_elem_of_filter in Hin as [? ?].
Qed.

Lemma inferred_x_axis (response : QueryResponse) :
  columns response <> [] ->
  exists c, c ∈ columns response /\
    x_axis_column (inferChartConfig response) =
      (if String.eqb c "" then None else Some c).
Proof.
  intros Hne. simpl. rewrite first_or_null_finalDimensions.
  destruct (described_x_axis_nonempty _ Hne) as [c Hc]. rewrite Hc.
  exists c. split; [by eapply described_x_axis_elem | done].
Qed.

Lemma chartOption_of_valid rt response config chartType :
  validateChartConfig config (columns response) = None ->
  chartOption rt response config chartType =
    Some (transformDataForECharts rt response config chartType).
Proof. intros H. unfold chartOption, validationError. by rewrite H. Qed.

(** *** Properties *)

(** X1: every y-axis column [inferChartConfig] picks is a column of the
    response, without repetition when the response columns are distinct;
    a response without columns yields no x-axis column and no y-axis
    column. *)
Theorem inferChartConfig_y_axis_within_columns (response : QueryResponse) :
  (forall y, y ∈ y_axis_columns (inferChartConfig response) -> y ∈ columns response) /\
  (NoDup (columns response) -> NoDup (y_axis_columns (inferChartConfig response))) /\
  (columns response = [] ->
     x_axis_column (inferChartConfig response) = None /\
     y_axis_columns (inferChartConfig response) = []) /\
  (length (columns response) = 1%nat ->
     y_axis_columns (inferChartConfig response) = [] \/
     y_axis_columns (inferChartConfig response) = columns response).
Proof.
  rewrite y_axis_inferred. split; [apply finalMeasures_elem |].
  split; [apply finalMeasures_NoDup |]. split.
  - intros Hnil. unfold inferChartConfig, finalDimensions, finalMeasures. simpl.
    rewrite Hnil. done.
  - intros Hlen. destruct (columns response) as [|c [|c' cs]] eqn:E; try done.
    unfold finalMeasures. rewrite E. rewrite filter_cons, filter_nil.
    case_decide; simpl; auto.
Qed.

Lemma is_measure_column_spec (response : QueryResponse) (col : string) :
  is_measure_column response col = true <->
  measure_pattern_test (toLowerCase col) = true \/
  exists row rest, data response = row :: rest /\ typeof_number (get row col) = true.
Proof.
  unfold is_measure_column. rewrite orb_true_iff.
  destruct (data response) as [|row rest]; simpl; split.
  - intros [H | H]; [by left | discriminate].
  - intros [H | (row & rest & H & _)]; [by left | discriminate].
  - intros [H | H]; [by left | right; by exists row, rest].
  - intros [H | (row' & rest' & [= <- <-] & H)]; [by left | by right].
Qed.

(** X2: the configuration inferred from a response whose column names are
    all non-empty is valid for that response exactly when the response has
    at least two columns or a column the heuristic takes for a measure:
    one whose name matches the measure-keyword pattern, or one under which
    the first data row holds a number.  With at least two columns the
    chart is drawn straight from the inferred configuration, whatever
    chart type the component is set to. *)
Theorem inferChartConfig_valid_iff (rt : Runtime) (response : QueryResponse) :
  "" ∉ columns response ->
  (validateChartConfig (inferChartConfig response) (columns response) = None <->
     (exists c, c ∈ columns response /\
        (measure_pattern_test (toLowerCase c) = true \/
         exists row rest, data response = row :: rest /\
                          typeof_number (get row c) = true)) \/
     (2 <= length (columns response))%nat) /\
  ((2 <= length (columns response))%nat ->
     forall chartType,
       chartOption rt response (inferChartConfig response) chartType =
         Some (transformDataForECharts rt response (inferChartConfig response) chartType)).
Proof.
  intros Hnames.
  assert (Hiff : validateChartConfig (inferChartConfig response) (columns response) = None
                 <-> finalMeasures response <> []).
  { rewrite validateChartConfig_wf. unfold well_formed.
    change (chart_type (inferChartConfig response)) with Bar. cbv iota.
    rewrite y_axis_inferred. split; [by intros (_ & Hne & _) |].
    intros Hne. split; [| split; [done |]].
    - assert (Hcols : columns response <> []).
      { intros Hnil. apply Hne. unfold finalMeasures. by rewrite Hnil. }
      destruct (inferred_x_axis response Hcols) as (c & Hin & Hx).
      exists c. split; [| split; [| done]].
      + rewrite Hx. destruct (String.eqb c "") eqn:E; [| done].
        apply String.eqb_eq in E. subst c. contradiction.
      + intros ->. contradiction.
    - apply Forall_forall. apply finalMeasures_elem. }
  split.
  - rewrite Hiff, finalMeasures_nonempty. split.
    + intros [(c & Hc & Hm) | Hlen]; [left | by right].
      exists c. split; [done |]. by apply is_measure_column_spec.
    + intros [(c & Hc & Hm) | Hlen]; [left | by right].
      exists c. split; [done |]. by apply is_measure_column_spec.
  - intros Hlen chartType. apply chartOption_of_valid.
    apply Hiff, finalMeasures_nonempty. by right.
Qed.

Lemma example_columns_named : "" ∉ columns example_response.
Proof.
  intros H. apply list_elem_of_In in H. simpl in H. intuition discriminate.
Qed.

Lemma inferChartConfig_valid_iff_witness :
  ("" ∉ columns example_response) /\
  (validateChartConfig (inferChartConfig example_response) (columns example_response)
     = None <->
     (exists c, c ∈ columns example_response /\
        (measure_pattern_test (toLowerCase c) = true \/
         exists row rest, data example_response = row :: rest /\
                          typeof_number (get row c) = true)) \/
     (2 <= length (columns example_response))%nat) /\
  ((2 <= length (columns example_response))%nat ->
     forall chartType,
       chartOption example_runtime example_response (inferChartConfig example_response)
         chartType =
         Some (transformDataForECharts example_runtime example_response
                 (inferChartConfig example_response) chartType)).
Proof.
  split; [exact example_columns_named |].
  apply (inferChartConfig_valid_iff example_runtime example_response).
  exact example_columns_named.
Defined.

(** A single column that matches no keyword but holds a number in the
    first row is taken for a measure, and the inferred configuration is
    valid. *)
Example inferChartConfig_numeric_column :
  validateChartConfig
    (inferChartConfig {| columns := ["region"];
                         data := [ {[ "region" := JNum 5%float ]} ];
                         row_count := 1; generated_sql := ""; entity_name := "" |})
    ["region"] = None.
Proof. vm_compute. reflexivity. Qed.

(** X3: for bar, line and area charts the category axis and every series
    are read off one and the same ordering of the response rows -- a
    permutation of the rows, the rows themselves when no sort order is set
    -- so labels and values stay aligned; there is one series per y-axis
    column, in the configured order, and the labels are rotated exactly
    when there are more than ten rows. *)
Theorem transformDataForECharts_aligned
    (rt : Runtime) (response : QueryResponse) (config : ChartConfiguration)
    (chartType : ChartType) :
  chartType <> Pie ->
  exists sorted pointer rotate axis_name gap series,
    transformDataForECharts rt response config chartType =
      AxisOption pointer (y_axis_columns config) (row_label rt config <$> sorted)
        rotate axis_name gap series /\
    sorted ≡ₚ data response /\
    (default SortNone (sort_order config) = SortNone -> sorted = data response) /\
    s_name <$> series = y_axis_columns config /\
    Forall2 (fun col s => s_data s = row_value rt col <$> sorted)
      (y_axis_columns config) series /\
    (rotate = 45%Z <-> (10 < length (data response))%nat).
Proof.
  intros Hpie.
  set (sorted := sortData rt (data response) (property_key (x_axis_column config))
                   (y_axis_columns config)
                   (sort_order_literal (default SortNone (sort_order config)))
                   (sort_by_literal (default ByCategory (sort_by config)))).
  assert (Hperm : sorted ≡ₚ data response) by apply sortData_perm.
  assert (Hlen : length (row_label rt config <$> sorted) = length (data response)).
  { by rewrite length_fmap, Hperm. }
  exists sorted.
  destruct chartType; [| | | done];
    (do 5 eexists; split; [reflexivity |]; split; [exact Hperm |];
     split; [intros Hnone; subst sorted; by rewrite Hnone |];
     split; [rewrite <- list_fmap_compose; apply list_fmap_id |];
     split; [apply Forall2_fmap_r, Forall_Forall2_diag, Forall_forall; by intros |];
     fold (row_label rt config); fold sorted; rewrite Hlen;
     destruct (10 <? length (data response))%nat eqn:E;
     [apply Nat.ltb_lt in E | apply Nat.ltb_ge in E]; split; (done || lia)).
Qed.

Lemma transformDataForECharts_aligned_witness :
  Bar <> Pie /\
  exists sorted pointer rotate axis_name gap series,
    transformDataForECharts example_runtime example_response bar_config Bar =
      AxisOption pointer (y_axis_columns bar_config)
        (row_label example_runtime bar_config <$> sorted)
        rotate axis_name gap series /\
    sorted ≡ₚ data example_response /\
    (default SortNone (sort_order bar_config) = SortNone ->
       sorted = data example_response) /\
    s_name <$> series = y_axis_columns bar_config /\
    Forall2 (fun col s => s_data s = row_value example_runtime col <$> sorted)
      (y_axis_columns bar_config) series /\
    (rotate = 45%Z <-> (10 < length (data example_response))%nat).
Proof.
  split; [discriminate |].
  apply (transformDataForECharts_aligned example_runtime example_response bar_config Bar).
  discriminate.
Defined.

(** X4: with a sort order other than 'none' and a comparator that is
    consistent on the rows, [sortData] returns the rows in comparator
    order -- no row comes before a row the comparator puts strictly ahead
    of it -- and the sort is stable: rows that tie keep their input
    order. *)
Theorem sortData_sorted_and_stable
    (rt : Runtime) (rows : list (gmap string jsval)) (xColumn : string)
    (yColumns : list string) (sortOrder sortBy : string) :
  sortOrder <> "none" ->
  consistent_on (sort_comparator rt xColumn yColumns sortOrder sortBy) rows ->
  StronglySorted (in_order (sort_comparator rt xColumn yColumns sortOrder sortBy))
    (sortData rt rows xColumn yColumns sortOrder sortBy) /\
  (forall z, z ∈ rows ->
     List.filter (tieb (sort_comparator rt xColumn yColumns sortOrder sortBy) z)
       (sortData rt rows xColumn yColumns sortOrder sortBy) =
     List.filter (tieb (sort_comparator rt xColumn yColumns sortOrder sortBy) z) rows).
Proof.
  intros Hne Hc. apply String.eqb_neq in Hne. unfold sortData. rewrite Hne. split.
  - by apply (array_sort_sorted _ rows).
  - intros z Hz. by apply (array_sort_stable _ rows).
Qed.

Lemma three_rows_consistent :
  consistent_on
    (sort_comparator example_runtime "region" ["total_sales"] "descending" "value")
    three_rows.
Proof.
  split.
  - intros a b Ha Hb. apply list_elem_of_In in Ha, Hb. simpl in Ha, Hb.
    destruct Ha as [<- | [<- | [<- | []]]]; destruct Hb as [<- | [<- | [<- | []]]];
      vm_compute; congruence.
  - intros a b c Ha Hb Hc. apply list_elem_of_In in Ha, Hb, Hc. simpl in Ha, Hb, Hc.
    destruct Ha as [<- | [<- | [<- | []]]]; destruct Hb as [<- | [<- | [<- | []]]];
      destruct Hc as [<- | [<- | [<- | []]]]; vm_compute; congruence.
Qed.

Lemma sortData_sorted_and_stable_witness :
  "descending" <> "none" /\
  consistent_on
    (sort_comparator example_runtime "region" ["total_sales"] "descending" "value")
    three_rows /\
  StronglySorted
    (in_order (sort_comparator example_runtime "region" ["total_sales"]
                 "descending" "value"))
    (sortData example_runtime three_rows "region" ["total_sales"] "descending" "value") /\
  (forall z, z ∈ three_rows ->
     List.filter
       (tieb (sort_comparator example_runtime "region" ["total_sales"]
                "descending" "value") z)
       (sortData example_runtime three_rows "region" ["total_sales"]
          "descending" "value") =
     List.filter
       (tieb (sort_comparator example_runtime "region" ["total_sales"]
                "descending" "value") z)
       three_rows).
Proof.
  split; [discriminate |]. split; [exact three_rows_consistent |].
  apply (sortData_sorted_and_stable example_runtime three_rows "region"
           ["total_sales"] "descending" "value");
    [discriminate | exact three_rows_consistent].
Defined.

Example sort_three_rows :
  (fun row => get row "region") <$>
    sortData example_runtime three_rows "region" ["total_sales"] "descending" "value"
  = [JStr "North"; JStr "South"; JStr "East"].
Proof. vm_compute. reflexivity. Qed.

(** With no y-axis column the comparator reads the property named
    [undefined]: rows that carry one are reordered by it. *)
Example sortData_by_undefined_property :
  sortData example_runtime
    [ {[ "region" := JStr "a"; "undefined" := JNum 5%float ]};
      {[ "region" := JStr "b"; "undefined" := JNum 2%float ]} ]
    "region" [] "ascending" "value" =
    [ {[ "region" := JStr "b"; "undefined" := JNum 2%float ]};
      {[ "region" := JStr "a"; "undefined" := JNum 5%float ]} ].
Proof. vm_compute. reflexivity. Qed.

(** X5: sorting by value leaves the rows in their input order, whatever
    the sort order, when no row has a property under the name the
    comparator reads: the name of the first y-axis column or, when no
    y-axis column is configured, the name [undefined]. *)
Theorem sortData_by_value_without_measure
    (rt : Runtime) (rows : list (gmap string jsval)) (xColumn : string)
    (yColumns : list string) (sortOrder sortBy : string) :
  sortBy <> "category" ->
  (forall r, r ∈ rows -> r !! default "undefined" (head yColumns) = None) ->
  sortData rt rows xColumn yColumns sortOrder sortBy = rows.
Proof.
  intros Hby Hmissing. apply String.eqb_neq in Hby. unfold sortData.
  destruct (String.eqb sortOrder "none"); [done |].
  apply array_sort_all_in_order. intros a b Ha Hb.
  unfold in_order, sort_comparator, get. rewrite Hby.
  rewrite (Hmissing a Ha), (Hmissing b Hb). simpl.
  destruct (String.eqb sortOrder "ascending"); reflexivity.
Qed.

Lemma sortData_by_value_without_measure_witness :
  "value" <> "category" /\
  (forall r, r ∈ three_rows -> r !! default "undefined" (head ["profit"]) = None) /\
  sortData example_runtime three_rows "region" ["profit"] "ascending" "value"
    = three_rows.
Proof.
  assert (H : forall r, r ∈ three_rows ->
                r !! default "undefined" (head ["profit"]) = None).
  { intros r Hr. apply list_elem_of_In in Hr. simpl in Hr.
    destruct Hr as [<- | [<- | [<- | []]]]; reflexivity. }
  split; [discriminate |]. split; [exact H |].
  apply (sortData_by_value_without_measure example_runtime three_rows "region"
           ["profit"] "ascending" "value"); [discriminate | exact H].
Defined.

End ChartProperties.

(** ** The chart configuration panels
    (ChartVisualization, AxisConfigPanel, SortConfigPanel, ColorConfigPanel) *)

Module ChartPanels.
Import Js Types ChartUtils.

Definition chart_type_eqb (a b : ChartType) : bool :=
  match a, b with
  | Bar, Bar | Line, Line | Area, Area | Pie, Pie => true
  | _, _ => false
  end.

Definition condition_eqb (a b : ColorCondition) : bool :=
  match a, b with
  | Positive, Positive | Negative, Negative | Zero, Zero => true
  | _, _ => false
  end.

(** The configuration the effect of ChartVisualization hands to
    [onConfigChange] when the selected chart type differs from the
    configured one; [None] when they agree and nothing is emitted. *)
Definition onChartTypeChange (config : ChartConfiguration) (chartType : ChartType)
    : option ChartConfiguration :=
  if chart_type_eqb chartType (chart_type config) then None
  else
    Some
      match chartType, chart_type config with
      | Pie, _ =>
          {| chart_type := chartType;
             x_axis_column := x_axis_column config;
             y_axis_columns := y_axis_columns config;
             category_column := x_axis_column config;
             value_column :=
               if truthy_str (head (y_axis_columns config))
               then head (y_axis_columns config) else None;
             sort_order := sort_order config; sort_by := sort_by config;
             color_mode := color_mode config;
             conditional_colors := conditional_colors config |}
      | _, Pie =>
          {| chart_type := chartType;
             x_axis_column := category_column config;
             y_axis_columns :=
               if truthy_str (value_column config)
               then [property_key (value_column config)] else [];
             category_column := category_column config;
             value_column := value_column config;
             sort_order := sort_order config; sort_by := sort_by config;
             color_mode := color_mode config;
             conditional_colors := conditional_colors config |}
      | _, _ =>
          {| chart_type := chartType;
             x_axis_column := x_axis_column config;
             y_axis_columns := y_axis_columns config;
             category_column := category_column config;
             value_column := value_column config;
             sort_order := sort_order config; sort_by := sort_by config;
             color_mode := color_mode config;
             conditional_colors := conditional_colors config |}
      end.

(** AxisConfigPanel: [onChange({ ...config, <field>: value })]. *)
Definition setCategoryColumn (value : string) (config : ChartConfiguration)
    : ChartConfiguration :=
  {| chart_type := chart_type config; x_axis_column := x_axis_column config;
     y_axis_columns := y_axis_columns config; category_column := Some value;
     value_column := value_column config; sort_order := sort_order config;
     sort_by := sort_by config; color_mode := color_mode config;
     conditional_colors := conditional_colors config |}.

Definition setValueColumn (value : string) (config : ChartConfiguration)
    : ChartConfiguration :=
  {| chart_type := chart_type config; x_axis_column := x_axis_column config;
     y_axis_columns := y_axis_columns config;
     category_column := category_column config; value_column := Some value;
     sort_order := sort_order config; sort_by := sort_by config;
     color_mode := color_mode config;
     conditional_colors := conditional_colors config |}.

Definition setXAxisColumn (value : string) (config : ChartConfiguration)
    : ChartConfiguration :=
  {| chart_type := chart_type config; x_axis_column := Some value;
     y_axis_columns := y_axis_columns config;
     category_column := category_column config;
     value_column := value_column config; sort_order := sort_order config;
     sort_by := sort_by config; color_mode := color_mode config;
     conditional_colors := conditional_colors config |}.

Definition setYAxisColumns (values : list string) (config : ChartConfiguration)
    : ChartConfiguration :=
  {| chart_type := chart_type config; x_axis_column := x_axis_column config;
     y_axis_columns := values; category_column := category_column config;
     value_column := value_column config; sort_order := sort_order config;
     sort_by := sort_by config; color_mode := color_mode config;
     conditional_colors := conditional_colors config |}.

(** SortConfigPanel. *)
Definition setSortOrder (value : SortOrder) (config : ChartConfiguration)
    : ChartConfiguration :=
  {| chart_type := chart_type config; x_axis_column := x_axis_column config;
     y_axis_columns := y_axis_columns config;
     category_column := category_column config;
     value_column := value_column config; sort_order := Some value;
     sort_by := sort_by config; color_mode := color_mode config;
     conditional_colors := conditional_colors config |}.

Definition setSortBy (value : SortBy) (config : ChartConfiguration)
    : ChartConfiguration :=
  {| chart_type := chart_type config; x_axis_column := x_axis_column config;
     y_axis_columns := y_axis_columns config;
     category_column := category_column config;
     value_column := value_column config; sort_order := sort_order config;
     sort_by := Some value; color_mode := color_mode config;
     conditional_colors := conditional_colors config |}.

(** The sort-by selector is shown when a sort order other than 'none' is set. *)
Definition sort_by_shown (config : ChartConfiguration) : bool :=
  match sort_order config with
  | Some Ascending | Some Descending => true
  | _ => false
  end.

(** ColorConfigPanel. *)
Definition setColorMode (value : ColorMode) (config : ChartConfiguration)
    : ChartConfiguration :=
  {| chart_type := chart_type config; x_axis_column := x_axis_column config;
     y_axis_columns := y_axis_columns config;
     category_column := category_column config;
     value_column := value_column config; sort_order := sort_order config;
     sort_by := sort_by config; color_mode := Some value;
     conditional_colors := conditional_colors config |}.

(** [config.conditional_colors || [positive, negative, zero defaults]]. *)
Definition conditionalColors (config : ChartConfiguration) : list ConditionalColorRule :=
  default default_conditional_colors (conditional_colors config).

Definition updateConditionalColor (cond : ColorCondition) (new_color : string)
    (config : ChartConfiguration) : ChartConfiguration :=
  {| chart_type := chart_type config; x_axis_column := x_axis_column config;
     y_axis_columns := y_axis_columns config;
     category_column := category_column config;
     value_column := value_column config; sort_order := sort_order config;
     sort_by := sort_by config; color_mode := color_mode config;
     conditional_colors :=
       Some ((fun rule =>
                if condition_eqb (condition rule) cond
                then {| condition := condition rule; color := new_color |}
                else rule) <$> conditionalColors config) |}.

(** The condition a value falls under in [getConditionalColor]. *)
Definition value_condition (value : float) : ColorCondition :=
  if PrimFloat.ltb 0%float value then Positive
  else if PrimFloat.ltb value 0%float then Negative
  else Zero.

(** What a user can do to the configuration in the panels; a selector
    emits one of its options, and the axis selectors offer the response
    columns. *)
Inductive panel_step (columns : list string) :
    ChartConfiguration -> ChartConfiguration -> Prop :=
| step_chart_type chartType config config' :
    onChartTypeChange config chartType = Some config' ->
    panel_step columns config config'
| step_category value config :
    chart_type config = Pie -> value ∈ columns ->
    panel_step columns config (setCategoryColumn value config)
| step_value value config :
    chart_type config = Pie -> value ∈ columns ->
    panel_step columns config (setValueColumn value config)
| step_x_axis value config :
    chart_type config <> Pie -> value ∈ columns ->
    panel_step columns config (setXAxisColumn value config)
| step_y_axis values config :
    chart_type config <> Pie -> Forall (fun v => v ∈ columns) values ->
    panel_step columns config (setYAxisColumns values config)
| step_sort_order value config :
    panel_step columns config (setSortOrder value config)
| step_sort_by value config :
    sort_by_shown config = true ->
    panel_step columns config (setSortBy value config)
| step_color_mode value config :
    panel_step columns config (setColorMode value config)
| step_color cond new_color config :
    panel_step columns config (updateConditionalColor cond new_color config).

Definition pie_config : ChartConfiguration :=
  {| chart_type := Pie; x_axis_column := Some "region";
     y_axis_columns := ["total_sales"]; category_column := Some "region";
     value_column := Some "total_sales"; sort_order := Some Descending;
     sort_by := Some ByValue; color_mode := Some Conditional;
     conditional_colors := Some default_conditional_colors |}.

(** *** Facts about the panels *)

Lemma truthy_str_named (columns : list string) (s : string) :
  "" ∉ columns -> s ∈ columns -> truthy_str (Some s) = true.
Proof.
  intros Hnames Hs. apply truthy_str_spec. exists s. split; [done |].
  intros ->. contradiction.
Qed.

Lemma chart_type_eqb_eq (a b : ChartType) : chart_type_eqb a b = true <-> a = b.
Proof. destruct a, b; simpl; split; congruence. Qed.

Lemma chart_type_switch_valid (columns : list string)
    (config config' : ChartConfiguration) (chartType : ChartType) :
  "" ∉ columns ->
  well_formed config columns ->
  onChartTypeChange config chartType = Some config' ->
  well_formed config' columns /\ chart_type config' = chartType.
Proof.
  intros Hnames Hwf. unfold onChartTypeChange.
  destruct (chart_type_eqb chartType (chart_type config)) eqn:Eq; [discriminate |].
  intros [= <-]. unfold well_formed in *.
  destruct chartType; destruct (chart_type config) eqn:E; try discriminate;
    cbn [chart_type x_axis_column y_axis_columns category_column value_column];
    (split; [| reflexivity]); try exact Hwf.
  - (* from pie to bar *)
    destruct Hwf as [(c & Hc & Hcne & Hcin) (v & Hv & Hvne & Hvin)].
    rewrite Hc, Hv, (truthy_str_named columns v Hnames Hvin). simpl.
    split; [eauto |]. split; [done |]. by repeat constructor.
  - destruct Hwf as [(c & Hc & Hcne & Hcin) (v & Hv & Hvne & Hvin)].
    rewrite Hc, Hv, (truthy_str_named columns v Hnames Hvin). simpl.
    split; [eauto |]. split; [done |]. by repeat constructor.
  - destruct Hwf as [(c & Hc & Hcne & Hcin) (v & Hv & Hvne & Hvin)].
    rewrite Hc, Hv, (truthy_str_named columns v Hnames Hvin). simpl.
    split; [eauto |]. split; [done |]. by repeat constructor.
  - destruct Hwf as ((x & Hx & Hxne & Hxin) & Hy & Hall).
    destruct (y_axis_columns config) as [|y ys]; [done |].
    apply Forall_cons in Hall as [Hyin _]. change (head (y :: ys)) with (Some y).
    rewrite (truthy_str_named columns y Hnames Hyin).
    split; [eauto |]. exists y. split; [done |]. split; [| done].
    intros ->. contradiction.
  - destruct Hwf as ((x & Hx & Hxne & Hxin) & Hy & Hall).
    destruct (y_axis_columns config) as [|y ys]; [done |].
    apply Forall_cons in Hall as [Hyin _]. change (head (y :: ys)) with (Some y).
    rewrite (truthy_str_named columns y Hnames Hyin).
    split; [eauto |]. exists y. split; [done |]. split; [| done].
    intros ->. contradiction.
  - destruct Hwf as ((x & Hx & Hxne & Hxin) & Hy & Hall).
    destruct (y_axis_columns config) as [|y ys]; [done |].
    apply Forall_cons in Hall as [Hyin _]. change (head (y :: ys)) with (Some y).
    rewrite (truthy_str_named columns y Hnames Hyin).
    split; [eauto |]. exists y. split; [done |]. split; [| done].
    intros ->. contradiction.
Qed.

Lemma y_axis_cleared (columns : list string) (config : ChartConfiguration) :
  chart_type config <> Pie ->
  well_formed config columns ->
  validateChartConfig (setYAxisColumns [] config) columns =
    Some "At least one Y-axis column is required".
Proof.
  intros Hpie Hwf. unfold validateChartConfig, well_formed in *.
  cbn [chart_type setYAxisColumns x_axis_column y_axis_columns].
  destruct (chart_type config); try done;
    destruct Hwf as ((x & Hx & Hxne & Hxin) & _); rewrite Hx; simpl;
    apply String.eqb_neq in Hxne; rewrite Hxne; simpl;
    apply includes_spec in Hxin; by rewrite Hxin.
Qed.

(** *** Properties *)

(** X6: when no response column has the empty name, a valid chart
    configuration stays valid under every edit the panels offer --
    switching the chart type (to or from pie), choosing axis, category or
    value columns, changing the sort or the colours -- with one exception:
    deselecting every y-axis column, which is answered with the message
    that at least one y-axis column is required.  A chart type switch
    always lands on the selected type. *)
Theorem panel_step_keeps_valid
    (columns : list string) (config config' : ChartConfiguration) :
  "" ∉ columns ->
  validateChartConfig config columns = None ->
  panel_step columns config config' ->
  (validateChartConfig config' columns = None \/
   chart_type config' <> Pie /\ y_axis_columns config' = [] /\
   validateChartConfig config' columns =
     Some "At least one Y-axis column is required") /\
  (forall chartType, onChartTypeChange config chartType = Some config' ->
     chart_type config' = chartType /\ validateChartConfig config' columns = None).
Proof.
  intros Hnames Hvalid Hstep. apply validateChartConfig_wf in Hvalid.
  split.
  - destruct Hstep as [chartType config config' Hswitch | value config Hpie Hin
                      | value config Hpie Hin | value config Hpie Hin
                      | values config Hpie Hall | | | | ].
    + left. apply validateChartConfig_wf.
      by eapply chart_type_switch_valid.
    + left. apply validateChartConfig_wf. unfold well_formed in *.
      cbn [chart_type setCategoryColumn category_column value_column].
      rewrite Hpie in *. destruct Hvalid as [_ Hv]. split; [| done].
      exists value. split; [done |]. split; [| done]. intros ->. contradiction.
    + left. apply validateChartConfig_wf. unfold well_formed in *.
      cbn [chart_type setValueColumn category_column value_column].
      rewrite Hpie in *. destruct Hvalid as [Hc _]. split; [done |].
      exists value. split; [done |]. split; [| done]. intros ->. contradiction.
    + left. apply validateChartConfig_wf. unfold well_formed in *.
      cbn [chart_type setXAxisColumn x_axis_column y_axis_columns].
      destruct (chart_type config); try done;
        destruct Hvalid as (_ & Hy & Hall); (split; [| done]);
        exists value; (split; [done |]); (split; [| done]); intros ->; contradiction.
    + destruct values as [|v vs].
      * right. split; [done |]. split; [done |]. by apply y_axis_cleared.
      * left. apply validateChartConfig_wf. unfold well_formed in *.
        cbn [chart_type setYAxisColumns x_axis_column y_axis_columns].
        destruct (chart_type config); try done;
          destruct Hvalid as (Hx & _ & _); done.
    + left. by apply validateChartConfig_wf.
    + left. by apply validateChartConfig_wf.
    + left. by apply validateChartConfig_wf.
    + left. by apply validateChartConfig_wf.
  - intros chartType Hswitch.
    destruct (chart_type_switch_valid columns config config' chartType
                Hnames Hvalid Hswitch) as [Hwf Hty].
    split; [done |]. by apply validateChartConfig_wf.
Qed.

Lemma panel_step_keeps_valid_witness :
  ("" ∉ ["region"; "total_sales"]) /\
  validateChartConfig ChartProperties.bar_config ["region"; "total_sales"] = None /\
  panel_step ["region"; "total_sales"] ChartProperties.bar_config pie_config /\
  (validateChartConfig pie_config ["region"; "total_sales"] = None \/
   chart_type pie_config <> Pie /\ y_axis_columns pie_config = [] /\
   validateChartConfig pie_config ["region"; "total_sales"] =
     Some "At least one Y-axis column is required") /\
  (forall chartType,
     onChartTypeChange ChartProperties.bar_config chartType = Some pie_config ->
     chart_type pie_config = chartType /\
     validateChartConfig pie_config ["region"; "total_sales"] = None).
Proof.
  assert (Hstep : panel_step ["region"; "total_sales"] ChartProperties.bar_config
                    pie_config).
  { apply (step_chart_type _ Pie). reflexivity. }
  split; [exact ChartProperties.example_columns_named |]. split; [reflexivity |].
  split; [exact Hstep |].
  apply (panel_step_keeps_valid ["region"; "total_sales"] ChartProperties.bar_config
           pie_config); [exact ChartProperties.example_columns_named | reflexivity | exact Hstep].
Defined.

Lemma getConditionalColor_rule (value : float)
    (rules : option (list ConditionalColorRule)) :
  getConditionalColor value rules = rule_color (value_condition value) (default [] rules).
Proof.
  unfold getConditionalColor, value_condition.
  destruct (PrimFloat.ltb 0%float value); [done |].
  by destruct (PrimFloat.ltb value 0%float).
Qed.

Lemma rule_color_update (c cond : ColorCondition) (new_color : string)
    (rules : list ConditionalColorRule) :
  rule_color c
    ((fun rule =>
        if condition_eqb (condition rule) cond
        then {| condition := condition rule; color := new_color |}
        else rule) <$> rules) =
  if condition_eqb c cond
  then (fun _ => new_color) <$> rule_color c rules
  else rule_color c rules.
Proof.
  unfold rule_color. induction rules as [|r rs IH].
  - simpl. by destruct (condition_eqb c cond).
  - rewrite fmap_cons. cbn [List.find].
    destruct (condition r) eqn:Er, c eqn:Ec, cond eqn:Ecd; simpl;
      rewrite ?Er; simpl; try done; simpl in IH; try exact IH.
Qed.

Lemma update_keeps_conditions (cond : ColorCondition) (new_color : string)
    (rules : list ConditionalColorRule) :
  condition <$>
    ((fun rule =>
        if condition_eqb (condition rule) cond
        then {| condition := condition rule; color := new_color |}
        else rule) <$> rules) =
  condition <$> rules.
Proof.
  induction rules as [|r rs IH]; [done |].
  rewrite !fmap_cons, IH. f_equal.
  by destruct (condition_eqb (condition r) cond).
Qed.

(** X7: after [updateConditionalColor cond colour] the colour looked up
    for a value of condition [cond] is the new colour (when the rule list
    has a rule for it), the colours of the other conditions are as before,
    the rules keep their conditions and order, and validation is
    unaffected; a configuration without colour rules is updated from the
    three default rules. *)
Theorem updateConditionalColor_lookup
    (cond : ColorCondition) (new_color : string) (config : ChartConfiguration)
    (value : float) :
  getConditionalColor value
      (conditional_colors (updateConditionalColor cond new_color config)) =
    (if condition_eqb (value_condition value) cond
     then (fun _ => new_color) <$>
            getConditionalColor value (Some (conditionalColors config))
     else getConditionalColor value (Some (conditionalColors config))) /\
  condition <$> conditionalColors (updateConditionalColor cond new_color config) =
    condition <$> conditionalColors config /\
  (forall columns,
     validateChartConfig (updateConditionalColor cond new_color config) columns =
     validateChartConfig config columns) /\
  (conditional_colors config = None ->
     getConditionalColor value
       (conditional_colors (updateConditionalColor cond new_color config)) =
     Some (if condition_eqb (value_condition value) cond then new_color
           else match value_condition value with
                | Positive => "#5470c6"
                | Negative => "#ee6666"
                | Zero => "#91cc75"
                end)).
Proof.
  assert (Hlookup :
    getConditionalColor value
      (conditional_colors (updateConditionalColor cond new_color config)) =
    (if condition_eqb (value_condition value) cond
     then (fun _ => new_color) <$>
            getConditionalColor value (Some (conditionalColors config))
     else getConditionalColor value (Some (conditionalColors config)))).
  { rewrite !getConditionalColor_rule. cbn [conditional_colors updateConditionalColor].
    simpl default. apply rule_color_update. }
  split; [exact Hlookup |]. split.
  - apply update_keeps_conditions.
  - split; [done |]. intros Hnone. rewrite Hlookup.
    rewrite getConditionalColor_rule. unfold conditionalColors. rewrite Hnone.
    simpl default.
    by destruct (value_condition value), cond.
Qed.

End ChartPanels.

(** ** Further properties of the filter builder *)

Module FilterBuilderProperties.
Import Js Types FilterBuilder.

(** A row whose operator is one of those offered for the dimension it
    names; a row that names no known dimension carries the initial [=]. *)
Definition row_offered (dimensions : list SemanticDimension) (f : FilterRow) : Prop :=
  match find_dimension dimensions (dimension_id f) with
  | Some dim => operator f ∈ OPERATORS_BY_TYPE (data_type dim)
  | None => operator f = "="
  end.

Definition quantity_row : FilterRow :=
  {| id := "filter_1700000000001"; dimension_id := "d-quantity"; operator := "=";
     value := JNull |}.

Definition greater_than : FilterRowUpdates :=
  {| u_dimension_id := None; u_operator := Some ">"; u_value := Some JNull |}.

(** *** Facts *)

Lemma NoDup_id_inj (filters : list FilterRow) (f g : FilterRow) :
  NoDup (id <$> filters) -> f ∈ filters -> g ∈ filters -> id f = id g -> f = g.
Proof.
  induction filters as [|x l IH]; [by intros _ ?%not_elem_of_nil |].
  rewrite fmap_cons, NoDup_cons. intros [Hx Hnd].
  rewrite !elem_of_cons. intros [-> | Hf] [-> | Hg] Heq; auto.
  - exfalso. apply Hx. rewrite Heq. by apply list_elem_of_fmap_2.
  - exfalso. apply Hx. rewrite <- Heq. by apply list_elem_of_fmap_2.
Qed.

Lemma updateFilter_ids (rid : string) (updates : FilterRowUpdates)
    (filters : list FilterRow) :
  id <$> updateFilter rid updates filters = id <$> filters.
Proof.
  unfold updateFilter. induction filters as [|x l IH]; [done |].
  rewrite !fmap_cons, IH. f_equal. by destruct (String.eqb (id x) rid).
Qed.

Lemma removeFilter_all (rid : string) (filters : list FilterRow) :
  Forall (fun f => id f <> rid) filters -> removeFilter rid filters = filters.
Proof.
  unfold removeFilter. induction 1 as [|x l Hx _ IH]; [done |].
  rewrite filter_cons, decide_True by done. by rewrite IH.
Qed.

Lemma find_dimension_member (dimensions : list SemanticDimension)
    (d : SemanticDimension) :
  d ∈ dimensions -> exists dim, find_dimension dimensions (dim_id d) = Some dim.
Proof.
  intros Hd. unfold find_dimension.
  destruct (List.find _ dimensions) as [dim|] eqn:E; [eauto |].
  apply list_elem_of_In in Hd.
  pose proof (find_none _ _ E d Hd) as Hnone. simpl in Hnone.
  by rewrite String.eqb_refl in Hnone.
Qed.

(** *** Properties *)

(** X8: [updateFilter] never changes the ids, the number or the order of
    the rows; when the row ids are pairwise distinct it changes exactly
    the addressed row and leaves every other row as it is. *)
Theorem updateFilter_changes_one_row
    (filters : list FilterRow) (i : nat) (f : FilterRow) (updates : FilterRowUpdates) :
  NoDup (id <$> filters) ->
  filters !! i = Some f ->
  updateFilter (id f) updates filters = <[i := apply_updates f updates]> filters /\
  id <$> updateFilter (id f) updates filters = id <$> filters /\
  (forall j, j <> i ->
     updateFilter (id f) updates filters !! j = filters !! j).
Proof.
  intros Hnd Hi.
  assert (Heq : updateFilter (id f) updates filters
                = <[i := apply_updates f updates]> filters).
  { apply list_eq. intros j. unfold updateFilter. rewrite list_lookup_fmap.
    destruct (decide (j = i)) as [-> | Hne].
    - rewrite Hi. simpl. rewrite String.eqb_refl.
      rewrite list_lookup_insert_eq; [done |]. by eapply lookup_lt_Some.
    - rewrite list_lookup_insert_ne by done.
      destruct (filters !! j) as [g|] eqn:Hj; [| done]. simpl.
      destruct (String.eqb (id g) (id f)) eqn:E; [| done].
      apply String.eqb_eq in E. exfalso. apply Hne.
      apply (NoDup_lookup (id <$> filters) j i (id g)); [done | |].
      + by rewrite list_lookup_fmap, Hj.
      + by rewrite list_lookup_fmap, Hi, E. }
  split; [exact Heq |]. split; [apply updateFilter_ids |].
  intros j Hne. rewrite Heq. by apply list_lookup_insert_ne.
Qed.

Lemma updateFilter_changes_one_row_witness :
  NoDup (id <$> [example_row; quantity_row]) /\
  [example_row; quantity_row] !! 1%nat = Some quantity_row /\
  updateFilter (id quantity_row) greater_than [example_row; quantity_row] =
    <[1%nat := apply_updates quantity_row greater_than]> [example_row; quantity_row] /\
  id <$> updateFilter (id quantity_row) greater_than [example_row; quantity_row] =
    id <$> [example_row; quantity_row] /\
  (forall j, j <> 1%nat ->
     updateFilter (id quantity_row) greater_than [example_row; quantity_row] !! j =
     [example_row; quantity_row] !! j).
Proof.
  assert (Hnd : NoDup (id <$> [example_row; quantity_row])).
  { simpl. apply NoDup_cons. split; [| apply NoDup_singleton].
    intros H%list_elem_of_singleton. discriminate. }
  split; [exact Hnd |]. split; [reflexivity |].
  apply (updateFilter_changes_one_row [example_row; quantity_row] 1 quantity_row
           greater_than); [exact Hnd | reflexivity].
Defined.

(** X9: adding a filter row appends one row with no dimension, the
    operator [=] and a null value; when its id is not yet in use the row
    ids stay pairwise distinct and removing the new row gives back the
    rows there were. *)
Theorem addFilter_then_removeFilter (now : string) (filters : list FilterRow) :
  Forall (fun f => id f <> "filter_" +:+ now) filters ->
  removeFilter ("filter_" +:+ now) (addFilter now filters) = filters /\
  length (addFilter now filters) = S (length filters) /\
  (NoDup (id <$> filters) -> NoDup (id <$> addFilter now filters)) /\
  (forall rid, rid <> "filter_" +:+ now ->
     removeFilter rid (addFilter now filters) = addFilter now (removeFilter rid filters)).
Proof.
  intros Hfresh. unfold addFilter. split; [| split; [| split]].
  - unfold removeFilter. rewrite filter_app.
    fold (removeFilter ("filter_" +:+ now) filters).
    rewrite (removeFilter_all _ _ Hfresh).
    rewrite filter_cons, decide_False by (simpl; auto). rewrite filter_nil.
    apply app_nil_r.
  - rewrite length_app. simpl. lia.
  - intros Hnd. rewrite fmap_app. apply NoDup_app. split; [done |]. split.
    + intros x Hx Hin. simpl in Hin. apply list_elem_of_singleton in Hin. subst x.
      apply list_elem_of_fmap in Hx as (f & Hid & Hf).
      rewrite Forall_forall in Hfresh. by apply (Hfresh f Hf).
    + simpl. apply NoDup_singleton.
  - intros rid Hrid. unfold removeFilter. rewrite filter_app.
    rewrite filter_cons, decide_True by (simpl; auto). by rewrite filter_nil.
Qed.

Lemma addFilter_then_removeFilter_witness :
  Forall (fun f => id f <> "filter_" +:+ "1700000000002") [example_row; quantity_row] /\
  removeFilter ("filter_" +:+ "1700000000002")
    (addFilter "1700000000002" [example_row; quantity_row])
    = [example_row; quantity_row] /\
  length (addFilter "1700000000002" [example_row; quantity_row]) =
    S (length [example_row; quantity_row]) /\
  (NoDup (id <$> [example_row; quantity_row]) ->
   NoDup (id <$> addFilter "1700000000002" [example_row; quantity_row])) /\
  (forall rid, rid <> "filter_" +:+ "1700000000002" ->
     removeFilter rid (addFilter "1700000000002" [example_row; quantity_row]) =
     addFilter "1700000000002" (removeFilter rid [example_row; quantity_row])).
Proof.
  assert (H : Forall (fun f => id f <> "filter_" +:+ "1700000000002")
                [example_row; quantity_row]).
  { repeat constructor; discriminate. }
  split; [exact H |].
  apply (addFilter_then_removeFilter "1700000000002" [example_row; quantity_row]).
  exact H.
Defined.

(** X10: while the row ids are pairwise distinct, every action of the
    filter builder keeps each row's operator among the operators offered
    for the dimension the row names (a row without a known dimension keeps
    the initial [=]); in particular no row on a numeric dimension ever
    carries [LIKE]. *)
Theorem step_keeps_operators_offered
    (dimensions : list SemanticDimension) (filters filters' : list FilterRow) :
  NoDup (id <$> filters) ->
  Forall (row_offered dimensions) filters ->
  step dimensions filters filters' ->
  Forall (row_offered dimensions) filters' /\
  (forall f dim, f ∈ filters' ->
     find_dimension dimensions (dimension_id f) = Some dim ->
     is_numeric (data_type dim) = true ->
     operator f ∈ OPERATORS_BY_TYPE (data_type dim) /\ operator f <> "LIKE").
Proof.
  intros Hnd Hinv Hstep.
  assert (Hall : Forall (row_offered dimensions) filters').
  { destruct Hstep as [now filters Hdims | f filters Hf | f d filters Hf Hd
                      | f op filters Hf Hshown Hop | f v filters Hf].
    - unfold addFilter. apply Forall_app. split; [done |].
      constructor; [| constructor]. unfold row_offered. simpl.
      destruct (find_dimension dimensions "") as [dim|]; [apply equals_offered | done].
    - unfold removeFilter. rewrite Forall_forall in *. intros g Hg.
      apply list_elem_of_filter in Hg as [_ Hg]. auto.
    - unfold onDimensionChange. rewrite Forall_forall in *. intros g Hg.
      apply updateFilter_elem in Hg as (g0 & Hg0 & ->).
      destruct (String.eqb (id g0) (id f)); [| by apply Hinv].
      unfold row_offered. simpl.
      destruct (find_dimension_member dimensions d Hd) as [dim Hdim].
      rewrite Hdim, OPERATORS_BY_TYPE_first. apply equals_offered.
    - unfold onOperatorChange. rewrite Forall_forall in *. intros g Hg.
      apply updateFilter_elem in Hg as (g0 & Hg0 & ->).
      destruct (String.eqb (id g0) (id f)) eqn:E; [| by apply Hinv].
      apply String.eqb_eq in E.
      assert (g0 = f) as -> by (by apply (NoDup_id_inj filters)).
      unfold row_offered, operators in *. simpl.
      destruct (find_dimension dimensions (dimension_id f)); [done |].
      by apply not_elem_of_nil in Hop.
    - unfold onValueChange. rewrite Forall_forall in *. intros g Hg.
      apply updateFilter_elem in Hg as (g0 & Hg0 & ->).
      destruct (String.eqb (id g0) (id f)); [| by apply Hinv].
      unfold row_offered. simpl. by apply Hinv. }
  split; [exact Hall |].
  intros f dim Hf Hdim Hnum. rewrite Forall_forall in Hall.
  pose proof (Hall f Hf) as Hrow. unfold row_offered in Hrow. rewrite Hdim in Hrow.
  split; [done |].
  destruct (numeric_no_string_operator _ _ Hnum Hrow) as [Hlike _].
  intros Heq. apply Hlike. rewrite Heq. apply list_elem_of_here.
Qed.

Lemma step_keeps_operators_offered_witness :
  NoDup (id <$> [quantity_row]) /\
  Forall (row_offered example_dimensions) [quantity_row] /\
  step example_dimensions [quantity_row] (onOperatorChange quantity_row ">" [quantity_row]) /\
  Forall (row_offered example_dimensions)
    (onOperatorChange quantity_row ">" [quantity_row]) /\
  (forall f dim, f ∈ onOperatorChange quantity_row ">" [quantity_row] ->
     find_dimension example_dimensions (dimension_id f) = Some dim ->
     is_numeric (data_type dim) = true ->
     operator f ∈ OPERATORS_BY_TYPE (data_type dim) /\ operator f <> "LIKE").
Proof.
  assert (Hnd : NoDup (id <$> [quantity_row])) by apply NoDup_singleton.
  assert (Hinv : Forall (row_offered example_dimensions) [quantity_row]).
  { constructor; [| constructor]. unfold row_offered. simpl. apply list_elem_of_here. }
  assert (Hstep : step example_dimensions [quantity_row]
                    (onOperatorChange quantity_row ">" [quantity_row])).
  { apply step_operator; [left | reflexivity |].
    unfold operators. simpl. right. right. left. }
  split; [exact Hnd |]. split; [exact Hinv |]. split; [exact Hstep |].
  apply (step_keeps_operators_offered example_dimensions [quantity_row]
           (onOperatorChange quantity_row ">" [quantity_row]) Hnd Hinv Hstep).
Defined.

End FilterBuilderProperties.

(** ** Loading and saving queries (QueryBuilder.tsx, SaveQueryModal.tsx) *)

Module SavedQueries.
Import Js Types QueryBuilder.
Import FilterBuilder (FilterRow).

(** The validated fields of the save dialog's form. *)
Record FormValues := {
  fv_name : string;
  fv_description : option string;
  fv_is_favorite : option bool
}.

(** [SavedQueryCreate], the payload of [savedQueryAPI.create]. *)
Record SavedQueryCreate := {
  sqc_name : string;
  sqc_description : option string;
  sqc_entity_id : string;
  sqc_query_config : QueryConfig;
  sqc_is_favorite : bool
}.

(** [handleSave] of the save dialog: [validated] is what
    [form.validateFields()] resolves to, [None] when it rejects (nothing is
    sent then).  The result is the payload handed to [saveQuery]. *)
Definition handleSave (validated : option FormValues)
    (queryConfig : string * QueryConfig) : option SavedQueryCreate :=
  match validated with
  | None => None
  | Some values =>
      Some {| sqc_name := fv_name values;
              sqc_description := fv_description values;
              sqc_entity_id := queryConfig.1;
              sqc_query_config :=
                {| qc_dimension_ids := qc_dimension_ids queryConfig.2;
                   qc_measure_ids := qc_measure_ids queryConfig.2;
                   qc_filters := qc_filters queryConfig.2;
                   qc_limit := qc_limit queryConfig.2 |};
              sqc_is_favorite := default false (fv_is_favorite values) |}
  end.

(** A saved query that carries what the payload carried. *)
Definition stores (q : SavedQuery) (payload : SavedQueryCreate) : Prop :=
  sq_name q = sqc_name payload /\
  sq_entity_id q = sqc_entity_id payload /\
  sq_query_config q = sqc_query_config payload.

Definition example_saved : SavedQuery :=
  {| sq_name := "Sales by region"; sq_entity_id := "e-order";
     sq_query_config :=
       {| qc_dimension_ids := ["d-region"]; qc_measure_ids := ["m-total-sales"];
          qc_filters := [ {| fc_dimension_id := "d-quantity"; fc_operator := ">";
                             fc_value := JNum 10%float |};
                          {| fc_dimension_id := "d-region"; fc_operator := "LIKE";
                             fc_value := JStr "%North%" |} ];
          qc_limit := 50 |} |}.

Definition example_values : FormValues :=
  {| fv_name := "Added filter"; fv_description := None; fv_is_favorite := None |}.

(** *** Facts *)

Lemma to_conditions_imap (mk : nat -> string) (conditions : list FilterCondition) :
  to_conditions
    (imap (fun index f =>
             {| FilterBuilder.id := mk index;
                FilterBuilder.dimension_id := fc_dimension_id f;
                FilterBuilder.operator := fc_operator f;
                FilterBuilder.value := fc_value f |}) conditions) = conditions.
Proof.
  unfold to_conditions. revert mk.
  induction conditions as [|c cs IH]; intros mk; [done |].
  rewrite imap_cons, fmap_cons. f_equal; [by destruct c |].
  apply (IH (fun i => mk (S i))).
Qed.

Lemma to_conditions_loaded (now : string) (conditions : list FilterCondition) :
  to_conditions (loaded_filters now conditions) = conditions.
Proof. apply to_conditions_imap. Qed.

Lemma loaded_filter_id (now : string) (conditions : list FilterCondition)
    (i : nat) (f : FilterRow) :
  loaded_filters now conditions !! i = Some f ->
  FilterBuilder.id f = "filter_" +:+ now +:+ "_" +:+ pretty i.
Proof.
  unfold loaded_filters. rewrite list_lookup_imap.
  destruct (conditions !! i); simpl; [| done]. by intros [= <-].
Qed.

Lemma loaded_filters_NoDup (now : string) (conditions : list FilterCondition) :
  NoDup (FilterBuilder.id <$> loaded_filters now conditions).
Proof.
  apply NoDup_alt. intros i j x. rewrite !list_lookup_fmap.
  destruct (loaded_filters now conditions !! i) as [f|] eqn:Hi; [| done].
  destruct (loaded_filters now conditions !! j) as [g|] eqn:Hj; [| done].
  simpl. intros [= <-] [= Heq].
  rewrite (loaded_filter_id _ _ _ _ Hi), (loaded_filter_id _ _ _ _ Hj) in Heq.
  do 3 apply (inj (String.app _)) in Heq. by apply (inj pretty) in Heq.
Qed.

Lemma handleExecute_configured (st : State) :
  not_configured st = false -> handleExecute st = [ExecuteQuery (build_request st)].
Proof. unfold handleExecute. by intros ->. Qed.

Lemma load_config_execute (now entity : string) (config : QueryConfig) (st : State) :
  entity <> "" -> qc_measure_ids config <> [] ->
  handleExecute (load_config now entity config st) =
    [ExecuteQuery {| entity_id := entity;
                     dimension_ids := qc_dimension_ids config;
                     measure_ids := qc_measure_ids config;
                     Types.filters := qc_filters config;
                     limit := 1000 |}].
Proof.
  intros He Hm. rewrite handleExecute_configured.
  - unfold build_request. simpl. by rewrite to_conditions_loaded.
  - apply not_configured_spec. simpl. split; [eauto | done].
Qed.

Lemma load_config_not_configured (now entity : string) (config : QueryConfig)
    (st : State) :
  entity = "" \/ qc_measure_ids config = [] ->
  handleExecute (load_config now entity config st) =
    [MessageWarning "Please select an entity and at least one measure"].
Proof.
  intros H. unfold handleExecute.
  destruct (not_configured (load_config now entity config st)) eqn:E; [done |].
  apply not_configured_spec in E as [(e & [= <-] & Hne) Hm]. simpl in Hm.
  destruct H; contradiction.
Qed.

(** *** Properties *)

(** X11: loading a saved query or a history entry and executing sends its
    entity, dimensions, measures and filter conditions unchanged and in
    order, always with the limit 1000 (the stored limit is not restored);
    the loaded filter rows get pairwise distinct ids; a stored query
    without entity or without measures is answered with the warning. *)
Theorem load_then_execute
    (now : string) (savedQuery : SavedQuery) (history : QueryHistory) (st : State) :
  to_conditions (filters (handleLoadQuery now savedQuery st).1) =
    qc_filters (sq_query_config savedQuery) /\
  NoDup (FilterBuilder.id <$> filters (handleLoadQuery now savedQuery st).1) /\
  (sq_entity_id savedQuery <> "" ->
   qc_measure_ids (sq_query_config savedQuery) <> [] ->
   handleExecute (handleLoadQuery now savedQuery st).1 =
     [ExecuteQuery
        {| entity_id := sq_entity_id savedQuery;
           dimension_ids := qc_dimension_ids (sq_query_config savedQuery);
           measure_ids := qc_measure_ids (sq_query_config savedQuery);
           Types.filters := qc_filters (sq_query_config savedQuery);
           limit := 1000 |}]) /\
  (sq_entity_id savedQuery = "" \/ qc_measure_ids (sq_query_config savedQuery) = [] ->
   handleExecute (handleLoadQuery now savedQuery st).1 =
     [MessageWarning "Please select an entity and at least one measure"]) /\
  (qh_entity_id history <> "" ->
   qc_measure_ids (qh_query_config history) <> [] ->
   handleExecute (handleLoadHistory now history st).1 =
     [ExecuteQuery
        {| entity_id := qh_entity_id history;
           dimension_ids := qc_dimension_ids (qh_query_config history);
           measure_ids := qc_measure_ids (qh_query_config history);
           Types.filters := qc_filters (qh_query_config history);
           limit := 1000 |}]).
Proof.
  split; [apply to_conditions_loaded |].
  split; [apply loaded_filters_NoDup |].
  split; [apply load_config_execute |].
  split; [apply load_config_not_configured | apply load_config_execute].
Qed.

Example load_example :
  handleExecute (handleLoadQuery "1700000000003" example_saved initial_state).1 =
  [ExecuteQuery
     {| entity_id := "e-order"; dimension_ids := ["d-region"];
        measure_ids := ["m-total-sales"];
        Types.filters := qc_filters (sq_query_config example_saved);
        limit := 1000 |}].
Proof. reflexivity. Qed.

(** X12: saving a configured query and loading a stored query that
    carries the saved payload restores the selection: the entity, the
    dimensions, the measures and the filter conditions are those of the
    state that was saved, so executing after the load sends the request
    that executing before the save would have sent.  The payload is named
    by the form and always carries the limit 1000. *)
Theorem save_then_load
    (st st' : State) (values : FormValues) (payload : SavedQueryCreate)
    (q : SavedQuery) (now : string) :
  not_configured st = false ->
  handleSave (Some values) (save_modal_config st) = Some payload ->
  stores q payload ->
  selectedEntityId (handleLoadQuery now q st').1 = selectedEntityId st /\
  selectedDimensionIds (handleLoadQuery now q st').1 = selectedDimensionIds st /\
  selectedMeasureIds (handleLoadQuery now q st').1 = selectedMeasureIds st /\
  to_conditions (filters (handleLoadQuery now q st').1) = to_conditions (filters st) /\
  handleExecute (handleLoadQuery now q st').1 = handleExecute st /\
  sqc_name payload = fv_name values /\
  qc_limit (sqc_query_config payload) = 1000%Z.
Proof.
  intros Hcfg Hsave (_ & Hent & Hqc). simpl in Hsave. injection Hsave as <-.
  simpl in Hent, Hqc.
  pose proof Hcfg as Hcfg'. apply not_configured_spec in Hcfg' as [(e & He & Hne) Hm].
  assert (Htruthy : truthy_str (selectedEntityId st) = true).
  { apply truthy_str_spec. eauto. }
  rewrite Htruthy, He in Hent. simpl in Hent.
  unfold handleLoadQuery. simpl. rewrite Hent, Hqc. simpl.
  split; [by rewrite He |]. split; [done |]. split; [done |].
  split; [apply to_conditions_loaded |]. split; [| done].
  rewrite (handleExecute_configured st Hcfg).
  rewrite handleExecute_configured.
  - unfold build_request. simpl. rewrite to_conditions_loaded, He. done.
  - apply not_configured_spec. simpl. split; [eauto | done].
Qed.

Lemma save_then_load_witness :
  not_configured example_state = false /\
  handleSave (Some example_values) (save_modal_config example_state) =
    Some {| sqc_name := "Added filter"; sqc_description := None;
            sqc_entity_id := "e-order";
            sqc_query_config := (save_modal_config example_state).2;
            sqc_is_favorite := false |} /\
  stores {| sq_name := "Added filter"; sq_entity_id := "e-order";
            sq_query_config := (save_modal_config example_state).2 |}
         {| sqc_name := "Added filter"; sqc_description := None;
            sqc_entity_id := "e-order";
            sqc_query_config := (save_modal_config example_state).2;
            sqc_is_favorite := false |} /\
  handleExecute
    (handleLoadQuery "1700000000004"
       {| sq_name := "Added filter"; sq_entity_id := "e-order";
          sq_query_config := (save_modal_config example_state).2 |}
       initial_state).1 = handleExecute example_state.
Proof.
  split; [reflexivity |]. split; [reflexivity |].
  split; [repeat split |].
  apply (save_then_load example_state initial_state example_values
           {| sqc_name := "Added filter"; sqc_description := None;
              sqc_entity_id := "e-order";
              sqc_query_config := (save_modal_config example_state).2;
              sqc_is_favorite := false |}
           {| sq_name := "Added filter"; sq_entity_id := "e-order";
              sq_query_config := (save_modal_config example_state).2 |}
           "1700000000004"); [reflexivity | reflexivity | repeat split].
Defined.

End SavedQueries.

(** ** The export download name (api/semantic.ts, exportQuery) *)

Module SemanticAPI.
Import Js Types QueryBuilder.

Definition semicolon : ascii := ascii_of_nat 59.
Definition single_quote : ascii := ascii_of_nat 39.
Definition double_quote : ascii := ascii_of_nat 34.

(** The literal of an export format. *)
Definition format_literal (format : ExportFormat) : string :=
  match format with Csv => "csv" | Xlsx => "xlsx" | Json => "json" end.

Fixpoint drop_chars (n : nat) (s : string) : string :=
  match n, s with
  | O, _ => s
  | S n', String _ rest => drop_chars n' rest
  | S _, EmptyString => EmptyString
  end.

(** The longest prefix without a semicolon: what [[^;]+] consumes. *)
Fixpoint until_semicolon (s : string) : string :=
  match s with
  | EmptyString => EmptyString
  | String c rest =>
      if Ascii.eqb c semicolon then EmptyString else String c (until_semicolon rest)
  end.

(** A match of [/filename=([^;]+)/] that starts at the head of [s]: its
    first capture group. *)
Definition match_here (s : string) : option string :=
  if String.prefix "filename=" s then
    match until_semicolon (drop_chars 9 s) with
    | EmptyString => None
    | captured => Some captured
    end
  else None.

(** [/filename=([^;]+)/.exec(s)]: the first capture group of the leftmost
    match. *)
Fixpoint exec_filename (s : string) : option string :=
  match match_here s with
  | Some captured => Some captured
  | None =>
      match s with
      | EmptyString => None
      | String _ rest => exec_filename rest
      end
  end.

(** The [replace] that deletes every single and every double quote. *)
Fixpoint strip_quotes (s : string) : string :=
  match s with
  | EmptyString => EmptyString
  | String c rest =>
      if Ascii.eqb c single_quote || Ascii.eqb c double_quote
      then strip_quotes rest else String c (strip_quotes rest)
  end.

(** The download name [exportQuery] gives the file: taken from the
    Content-Disposition header when it has a [filename=] part, and
    [export.<format>] otherwise. *)
Definition download_filename (contentDisposition : option string)
    (format : ExportFormat) : string :=
  let filename := "export." +:+ format_literal format in
  if truthy_str contentDisposition then
    match exec_filename (property_key contentDisposition) with
    | Some captured =>
        if truthy_str (Some captured) then strip_quotes captured else filename
    | None => filename
    end
  else filename.

Fixpoint occurs (c : ascii) (s : string) : bool :=
  match s with
  | EmptyString => false
  | String c' rest => Ascii.eqb c' c || occurs c rest
  end.

Example download_quoted :
  download_filename
    (Some ("attachment; filename=" +:+ String double_quote "sales_2024.xlsx"
           +:+ String double_quote "; size=12"))
    Xlsx = "sales_2024.xlsx".
Proof. reflexivity. Qed.

Example download_without_header : download_filename None Csv = "export.csv".
Proof. reflexivity. Qed.

(** *** Facts *)

Lemma until_semicolon_clean (s : string) : occurs semicolon (until_semicolon s) = false.
Proof.
  induction s as [|c s IH]; [done |]. simpl.
  destruct (Ascii.eqb c semicolon) eqn:E; [done |]. simpl. by rewrite E.
Qed.

Lemma until_semicolon_id (s : string) :
  occurs semicolon s = false -> until_semicolon s = s.
Proof.
  induction s as [|c s IH]; [done |]. simpl.
  destruct (Ascii.eqb c semicolon); [discriminate |]. simpl. intros H. by rewrite IH.
Qed.

Lemma until_semicolon_app (s rest : string) :
  occurs semicolon s = false ->
  until_semicolon (s +:+ String semicolon rest) = s.
Proof.
  induction s as [|c s IH]; [done |]. simpl.
  destruct (Ascii.eqb c semicolon); [discriminate |]. simpl. intros H. by rewrite IH.
Qed.

Lemma match_here_clean (s captured : string) :
  match_here s = Some captured -> occurs semicolon captured = false.
Proof.
  unfold match_here. destruct (String.prefix "filename=" s); [| discriminate].
  pose proof (until_semicolon_clean (drop_chars 9 s)) as H.
  destruct (until_semicolon (drop_chars 9 s)); [discriminate |].
  by intros [= <-].
Qed.

Lemma exec_filename_clean (s captured : string) :
  exec_filename s = Some captured -> occurs semicolon captured = false.
Proof.
  induction s as [|c s IH]; [discriminate |].
  cbn [exec_filename]. destruct (match_here (String c s)) eqn:E.
  - intros [= <-]. by eapply match_here_clean.
  - exact IH.
Qed.

Lemma strip_quotes_occurs (c : ascii) (s : string) :
  occurs c (strip_quotes s) =
  occurs c s && negb (Ascii.eqb c single_quote || Ascii.eqb c double_quote).
Proof.
  induction s as [|c' s IH]; [done |]. cbn [strip_quotes occurs].
  destruct (Ascii.eqb c' single_quote) eqn:E1;
    destruct (Ascii.eqb c' double_quote) eqn:E2;
    cbn [orb occurs]; rewrite IH;
    (destruct (Ascii.eqb c' c) eqn:E; cbn [orb]; [| done]);
    apply Ascii.eqb_eq in E; subst c'; rewrite E1, E2; cbn [orb negb];
    by rewrite ?andb_false_r, ?andb_true_r.
Qed.

Lemma strip_quotes_id (s : string) :
  occurs single_quote s = false -> occurs double_quote s = false ->
  strip_quotes s = s.
Proof.
  induction s as [|c s IH]; [done |]. simpl.
  destruct (Ascii.eqb c single_quote); [discriminate |].
  destruct (Ascii.eqb c double_quote); [discriminate |]. simpl.
  intros H1 H2. by rewrite IH.
Qed.

Lemma exec_filename_none (s : string) :
  has_substring "filename=" s = false -> exec_filename s = None.
Proof.
  induction s as [|c s IH].
  - done.
  - cbn [has_substring exec_filename]. unfold match_here.
    destruct (String.prefix "filename=" (String c s)); [discriminate |].
    simpl. exact IH.
Qed.

Lemma match_here_filename (tail : string) :
  until_semicolon tail <> "" ->
  match_here ("filename=" +:+ tail) = Some (until_semicolon tail).
Proof.
  intros Hne. unfold match_here.
  replace (String.prefix "filename=" ("filename=" +:+ tail)) with true
    by (destruct tail; reflexivity).
  change (drop_chars 9 ("filename=" +:+ tail)) with tail.
  by destruct (until_semicolon tail).
Qed.

Lemma exec_filename_attachment (tail : string) :
  until_semicolon tail <> "" ->
  exec_filename ("attachment; filename=" +:+ tail) = Some (until_semicolon tail).
Proof.
  intros Hne.
  change (exec_filename ("attachment; filename=" +:+ tail))
    with (exec_filename ("filename=" +:+ tail)).
  change (exec_filename ("filename=" +:+ tail))
    with (match match_here ("filename=" +:+ tail) with
          | Some captured => Some captured
          | None => exec_filename ("ilename=" +:+ tail)
          end).
  by rewrite match_here_filename.
Qed.

Lemma download_filename_attachment (tail : string) (format : ExportFormat) :
  until_semicolon tail <> "" ->
  download_filename (Some ("attachment; filename=" +:+ tail)) format =
    strip_quotes (until_semicolon tail).
Proof.
  intros Hne.
  assert (Ht : truthy_str (Some (until_semicolon tail)) = true).
  { apply truthy_str_spec. eauto. }
  change (download_filename (Some ("attachment; filename=" +:+ tail)) format)
    with (match exec_filename ("attachment; filename=" +:+ tail) with
          | Some captured =>
              if truthy_str (Some captured) then strip_quotes captured
              else "export." +:+ format_literal format
          | None => "export." +:+ format_literal format
          end).
  by rewrite (exec_filename_attachment tail Hne), Ht.
Qed.

(** *** Properties *)

(** X13: the download name never contains a semicolon, a single quote or
    a double quote; without a Content-Disposition header, with an empty
    one, or with one that has no [filename=] part, it is
    [export.<format>]. *)
Theorem download_filename_clean
    (contentDisposition : option string) (format : ExportFormat) :
  occurs semicolon (download_filename contentDisposition format) = false /\
  occurs single_quote (download_filename contentDisposition format) = false /\
  occurs double_quote (download_filename contentDisposition format) = false /\
  (truthy_str contentDisposition = false ->
     download_filename contentDisposition format = "export." +:+ format_literal format) /\
  (forall header, contentDisposition = Some header ->
     has_substring "filename=" header = false ->
     download_filename contentDisposition format = "export." +:+ format_literal format).
Proof.
  assert (Hdefault : forall c, c = semicolon \/ c = single_quote \/ c = double_quote ->
            occurs c ("export." +:+ format_literal format) = false).
  { intros c [-> | [-> | ->]]; by destruct format. }
  assert (Hclean : forall c, c = semicolon \/ c = single_quote \/ c = double_quote ->
            occurs c (download_filename contentDisposition format) = false).
  { intros c Hc. unfold download_filename.
    destruct (truthy_str contentDisposition); [| by apply Hdefault].
    destruct (exec_filename (property_key contentDisposition)) as [captured|] eqn:E;
      [| by apply Hdefault].
    destruct (truthy_str (Some captured)); [| by apply Hdefault].
    rewrite strip_quotes_occurs.
    destruct Hc as [-> | [-> | ->]].
    - by rewrite (exec_filename_clean _ _ E).
    - apply andb_false_r.
    - cbn. apply andb_false_r. }
  split; [apply Hclean; auto |]. split; [apply Hclean; auto |].
  split; [apply Hclean; auto |]. split.
  - intros Hfalsy. unfold download_filename. by rewrite Hfalsy.
  - intros header -> Hnone. unfold download_filename.
    destruct (truthy_str (Some header)); [| done].
    cbn [property_key default]. simpl. by rewrite (exec_filename_none header Hnone).
Qed.

(** [name] between two double quotes. *)
Definition quoted (name : string) : string :=
  String double_quote (name +:+ String double_quote "").

Lemma occurs_app (c : ascii) (s t : string) :
  occurs c (s +:+ t) = occurs c s || occurs c t.
Proof.
  induction s as [|c' s IH]; [done |]. simpl. by rewrite IH, orb_assoc.
Qed.

Lemma quoted_no_semicolon (name : string) :
  occurs semicolon name = false -> occurs semicolon (quoted name) = false.
Proof.
  intros H. unfold quoted. cbn [occurs]. rewrite occurs_app, H. reflexivity.
Qed.

Lemma strip_quotes_quoted (name : string) :
  occurs single_quote name = false -> occurs double_quote name = false ->
  strip_quotes (quoted name) = name.
Proof.
  intros Hsq Hdq. unfold quoted.
  change (strip_quotes (String double_quote (name +:+ String double_quote "")))
    with (strip_quotes (name +:+ String double_quote "")).
  induction name as [|c name IH]; [reflexivity |].
  simpl in Hsq, Hdq |- *.
  destruct (Ascii.eqb c single_quote); [discriminate |].
  destruct (Ascii.eqb c double_quote); [discriminate |].
  simpl in Hsq, Hdq |- *. by rewrite IH.
Qed.

(** X14: a header [attachment; filename=<name>] -- the name bare or
    between double quotes, the header ending there or going on with
    further [;]-separated parameters, four forms in all -- gives exactly
    [<name>] as the download name, for every non-empty name without
    semicolons and quotes. *)
Theorem download_filename_of_header
    (name rest : string) (format : ExportFormat) :
  name <> "" ->
  occurs semicolon name = false ->
  occurs single_quote name = false ->
  occurs double_quote name = false ->
  download_filename (Some ("attachment; filename=" +:+ name)) format = name /\
  download_filename
    (Some ("attachment; filename=" +:+ name +:+ String semicolon rest)) format = name /\
  download_filename (Some ("attachment; filename=" +:+ quoted name)) format = name /\
  download_filename
    (Some ("attachment; filename=" +:+ quoted name +:+ String semicolon rest)) format
    = name.
Proof.
  intros Hne Hsemi Hsq Hdq.
  pose proof (quoted_no_semicolon name Hsemi) as Hq.
  split; [| split; [| split]].
  - rewrite download_filename_attachment; rewrite until_semicolon_id by done;
      [by apply strip_quotes_id | done].
  - rewrite download_filename_attachment; rewrite until_semicolon_app by done;
      [by apply strip_quotes_id | done].
  - rewrite download_filename_attachment; rewrite until_semicolon_id by done;
      [by apply strip_quotes_quoted | discriminate].
  - rewrite download_filename_attachment; rewrite until_semicolon_app by done;
      [by apply strip_quotes_quoted | discriminate].
Qed.

Lemma download_filename_of_header_witness :
  "report.csv" <> "" /\
  occurs semicolon "report.csv" = false /\
  occurs single_quote "report.csv" = false /\
  occurs double_quote "report.csv" = false /\
  download_filename (Some ("attachment; filename=" +:+ "report.csv")) Csv
    = "report.csv" /\
  download_filename
    (Some ("attachment; filename=" +:+ "report.csv" +:+ String semicolon " size=3")) Csv
    = "report.csv" /\
  download_filename (Some ("attachment; filename=" +:+ quoted "report.csv")) Csv
    = "report.csv" /\
  download_filename
    (Some ("attachment; filename=" +:+ quoted "report.csv"
           +:+ String semicolon " size=3")) Csv = "report.csv".
Proof.
  split; [discriminate |]. do 3 (split; [reflexivity |]).
  apply (download_filename_of_header "report.csv" " size=3" Csv);
    [discriminate | reflexivity | reflexivity | reflexivity].
Defined.

End SemanticAPI.
